(** * Keyword search over a directory of text files

    A shallow embedding of [threading_search.py] and
    [multiprocessing_search.py]: the partitioner
    ([split_files_into_chunks]), the matcher ([search_keywords_in_file]), the
    workers ([worker_thread], [worker_process]) and the two drivers
    ([search_files]).

    Conventions of the embedding.
    - Python [int] is [Z]; [len] and counters that only grow from zero are [nat].
    - Text is a list of code points below 256 (Rocq's [ascii]); on that range
      [str.lower] and the regular expression class [\w] are tabulated exactly.
    - File paths and keywords are [string]s; a [dict] is an insertion-ordered
      association list with unique keys, as Python's [dict] is.
    - The file system, the worker-level faults, the order in which the
      threads complete and the behaviour of the result queue are supplied by
      the environment as arguments.
    - Console output, the clock and the joining and terminating of
      processes after the collection loop have no effect on what is returned
      and are left out. *)

From Stdlib Require Import Ascii String.
From Stdlib Require Import List Bool Arith ZArith NArith Lia.
From Stdlib Require Import Permutation.
Import ListNotations.

Local Open Scope list_scope.

(* ================================================================= *)
(** ** Python primitives *)

Module Py.

(** Exceptions that the modelled code lets escape. *)
Inductive exn : Type :=
| FileNotFoundError
| ZeroDivisionError
| WorkerFault (msg : string).

(** Result of a call that may raise. *)
Inductive res (A : Type) : Type :=
| Ok (a : A)
| Raise (e : exn).
Arguments Ok {A} a.
Arguments Raise {A} e.

Section Sequences.
Context {A : Type}.

(** Normalisation of one slice bound against a length ([PySlice_AdjustIndices]). *)
Definition clamp_index (n i : Z) : Z :=
  if (i <? 0)%Z
  then (if (i + n <? 0)%Z then 0%Z else (i + n)%Z)
  else (if (n <? i)%Z then n else i).

(** [l[start:stop]]. *)
Definition slice (l : list A) (start stop : Z) : list A :=
  let n := Z.of_nat (length l) in
  let s := clamp_index n start in
  let e := clamp_index n stop in
  firstn (Z.to_nat (e - s)) (skipn (Z.to_nat s) l).
End Sequences.

(** [range(n)]. *)
Definition range (n : Z) : list Z := map Z.of_nat (seq 0 (Z.to_nat n)).

(** *** Dictionaries *)

Definition dict (V : Type) : Type := list (string * V).

Section Dict.
Context {V : Type}.

(** [d.get(k)], [None] when the key is absent. *)
Fixpoint get (d : dict V) (k : string) : option V :=
  match d with
  | [] => None
  | (k', v) :: d' => if String.eqb k k' then Some v else get d' k
  end.

(** [d[k] = v]: an existing key keeps its place, a new key goes last. *)
Fixpoint set (d : dict V) (k : string) (v : V) : dict V :=
  match d with
  | [] => [(k, v)]
  | (k', v') :: d' =>
      if String.eqb k k' then (k', v) :: d' else (k', v') :: set d' k v
  end.

Definition keys (d : dict V) : list string := map fst d.

(** [k in d]. *)
Definition mem (d : dict V) (k : string) : bool :=
  match get d k with Some _ => true | None => false end.
End Dict.

(** [{k: f(k) for k in ks}], also the result of the loop
    [for k in ks: d[k] = f(k)] started from the empty dict. *)
Definition comprehension {V : Type} (f : string -> V) (ks : list string) : dict V :=
  fold_left (fun d k => set d k (f k)) ks [].

(** [defaultdict(list)]: [d[k]] creates the empty list on a missing key. *)
Definition dd_extend (d : dict (list string)) (k : string) (xs : list string)
  : dict (list string) :=
  match get d k with
  | Some l => set d k (l ++ xs)
  | None => set d k ([] ++ xs)
  end.

Definition dd_append (d : dict (list string)) (k : string) (x : string)
  : dict (list string) :=
  dd_extend d k [x].

(** [d.get(k, [])]. *)
Definition get_list (d : dict (list string)) (k : string) : list string :=
  match get d k with Some l => l | None => [] end.

End Py.

Import Py.

(* ================================================================= *)
(** ** Text: [str.lower] and the class [\w] on code points below 256 *)

(** The scans are modelled on texts of code points below 256, where
    [str.lower] works character by character and both tables are exact.
    Beyond that range it does not: the lower case of U+0130 is two
    characters, the second not in [\w].  What the matcher does on any text
    is the subject of [Unicode] below, which takes [str.lower] and [\w]
    as the interpreter gives them. *)

Module Text.

Definition text : Type := list ascii.

Definition code (c : ascii) : N := N_of_ascii c.

Definition between (lo hi : N) (c : ascii) : bool :=
  ((lo <=? code c) && (code c <=? hi))%N.

(** [c.lower()]: A-Z and the Latin-1 capitals (all of 192..222 but the
    multiplication sign 215) move up by 32. *)
Definition lower_char (c : ascii) : ascii :=
  if between 65 90 c || (between 192 222 c && negb (code c =? 215)%N)
  then ascii_of_N (code c + 32)
  else c.

(** [str.lower]. *)
Definition lower (s : text) : text := map lower_char s.

(** The class [\w] of [re] on [str] patterns: alphanumeric code points and
    the underscore. *)
Definition is_word_char (c : ascii) : bool :=
  between 48 57 c || between 65 90 c || (code c =? 95)%N || between 97 122 c
  || (code c =? 170)%N || between 178 179 c || (code c =? 181)%N
  || between 185 186 c || between 188 190 c
  || between 192 214 c || between 216 246 c || between 248 255 c.

Definition of_string (s : string) : text := list_ascii_of_string s.

End Text.

Import Text.

(* ================================================================= *)
(** ** The fragment of [re] that the matcher uses *)

Module Re.

(** A pattern is a sequence of items; [re.escape] yields literals only. *)
Inductive item : Type :=
| WordBoundary            (* \b *)
| Lit (c : ascii).

Definition pattern : Type := list item.

(** [re.escape(s)]: every character of [s] matches itself. *)
Definition escape (s : text) : pattern := map Lit s.

(** Whether the optional character is a word character; the string edges
    count as non-word. *)
Definition wordy (o : option ascii) : bool :=
  match o with
  | Some c => is_word_char c
  | None => false
  end.

(** [\b] holds between [prev] and the head of [rest] when exactly one side
    is a word character. *)
Definition at_boundary (prev : option ascii) (rest : text) : bool :=
  xorb (wordy prev) (wordy (hd_error rest)).

(** Match [p] at the current position; [prev] is the character before it. *)
Fixpoint match_here (p : pattern) (prev : option ascii) (rest : text) : bool :=
  match p with
  | [] => true
  | WordBoundary :: p' =>
      if at_boundary prev rest then match_here p' prev rest else false
  | Lit c :: p' =>
      match rest with
      | x :: rest' =>
          if Ascii.eqb x c then match_here p' (Some x) rest' else false
      | [] => false
      end
  end.

(** Try every start position from left to right. *)
Fixpoint search_from (p : pattern) (prev : option ascii) (rest : text) : bool :=
  match_here p prev rest
  || match rest with
     | [] => false
     | x :: rest' => search_from p (Some x) rest'
     end.

(** [bool(re.search(p, s))]. *)
Definition search (p : pattern) (s : text) : bool := search_from p None s.

End Re.

(* ================================================================= *)
(** ** The environment *)

(** What the code observes of the file system: whether a directory exists,
    what [Path(directory).glob(pattern)] lists, and what
    [open(path, 'r', encoding='utf-8', errors='ignore').read()] gives
    ([None] when opening or reading raises).  The listing is that of a
    pattern which [glob] accepts; a pattern it refuses (the empty one, an
    absolute one) makes it raise before anything is listed, which is not
    modelled. *)
Record FileSystem : Type := {
  dir_exists : string -> bool;
  glob : string -> string -> list string;
  read_text : string -> option text
}.

(** A worker-level fault of the runs: [faults id = Some msg] when the body
    of worker [id] raises an exception with text [msg] outside its per-file
    handler, before it scans its first file.  Faults at the later
    statements of a worker body are the subject of [Body] below. *)
Definition Faults : Type := nat -> option string.

Definition no_faults : Faults := fun _ => None.

(* ================================================================= *)
(** ** Code shared verbatim by the two source files *)

Module Common.

(** Lines 49-52 (threading) and 32-35 (multiprocessing): the pattern built
    for one keyword and its search in the lower-cased content. *)
Definition keyword_pattern (keyword : string) : Re.pattern :=
  [Re.WordBoundary] ++ Re.escape (lower (of_string keyword)) ++ [Re.WordBoundary].

Definition keyword_found (content : text) (keyword : string) : bool :=
  Re.search (keyword_pattern keyword) content.

(** The body of the [try] block: [content = file.read().lower()] followed by
    the loop over the keywords. *)
Definition scan_content (raw : text) (keywords : list string) : dict bool :=
  let content := lower raw in
  comprehension (fun keyword => keyword_found content keyword) keywords.

(** The fallback of the [except] block. *)
Definition all_false (keywords : list string) : dict bool :=
  comprehension (fun _ => false) keywords.

(** The loop [for keyword, found in found_keywords.items()] of the workers. *)
Definition record_found (local_results : dict (list string)) (filepath : string)
           (found_keywords : dict bool) : dict (list string) :=
  fold_left
    (fun acc (kv : string * bool) =>
       if snd kv then dd_append acc (fst kv) filepath else acc)
    found_keywords local_results.

(** The loop [for keyword, file_list in part.items():
    whole[keyword].extend(file_list)] that merges a worker's results. *)
Definition extend_all (whole part : dict (list string)) : dict (list string) :=
  fold_left (fun acc (kv : string * list string) => dd_extend acc (fst kv) (snd kv))
            part whole.

(** The loop of [split_files_into_chunks]; [start] is threaded through. *)
Fixpoint chunk_loop (file_list : list string) (chunk_size remainder : Z)
         (indices : list Z) (start : Z) : list (list string) :=
  match indices with
  | [] => []
  | i :: indices' =>
      let end_ := (start + chunk_size + (if (i <? remainder)%Z then 1 else 0))%Z in
      (if (start <? Z.of_nat (length file_list))%Z
       then slice file_list start end_
       else [])
        :: chunk_loop file_list chunk_size remainder indices' end_
  end.

(** [split_files_into_chunks] for a worker count [n]; [//] and [%] raise
    on a zero divisor and round towards minus infinity otherwise, as
    [Z.div] and [Z.modulo] do. *)
Definition split_files_into_chunks (n : Z) (file_list : list string)
  : res (list (list string)) :=
  if (n =? 0)%Z then Raise ZeroDivisionError
  else
    let chunk_size := (Z.of_nat (length file_list) / n)%Z in
    let remainder := (Z.of_nat (length file_list) mod n)%Z in
    Ok (chunk_loop file_list chunk_size remainder (range n) 0%Z).

(** The loops that create one worker per non-empty chunk, numbered from 1
    by the position of the chunk. *)
Fixpoint spawn_from (i : nat) (file_chunks : list (list string))
  : list (list string * nat) :=
  match file_chunks with
  | [] => []
  | chunk :: rest =>
      match chunk with
      | [] => spawn_from (S i) rest
      | _ :: _ => (chunk, S i) :: spawn_from (S i) rest
      end
  end.

Definition spawn (file_chunks : list (list string)) : list (list string * nat) :=
  spawn_from 0 file_chunks.

End Common.

(* ================================================================= *)
(** ** threading_search.py *)

Module Threading.

Record ThreadingFileSearcher : Type := {
  num_threads : Z;
  results : dict (list string);
  error_count : nat;
  processed_files : nat;
  total_files : nat
}.

(** [__init__]. *)
Definition init (num_threads : Z) : ThreadingFileSearcher :=
  {| num_threads := num_threads; results := []; error_count := 0;
     processed_files := 0; total_files := 0 |}.

(** [with self.results_lock: self.error_count += 1]. *)
Definition count_error (self : ThreadingFileSearcher) : ThreadingFileSearcher :=
  {| num_threads := num_threads self; results := results self;
     error_count := error_count self + 1;
     processed_files := processed_files self; total_files := total_files self |}.

(** [search_keywords_in_file]: the [except] block absorbs every failure
    of the [try] block, so the call itself never raises. *)
Definition search_keywords_in_file (fs : FileSystem) (self : ThreadingFileSearcher)
           (filepath : string) (keywords : list string)
  : ThreadingFileSearcher * dict bool :=
  match read_text fs filepath with
  | Some raw => (self, Common.scan_content raw keywords)
  | None => (count_error self, Common.all_false keywords)
  end.

(** One iteration of the loop of [worker_thread].  Its handler (lines
    90-93) is never entered, the callee having absorbed the failure. *)
Definition scan_step (fs : FileSystem) (keywords : list string)
           (st : ThreadingFileSearcher * dict (list string) * nat) (filepath : string)
  : ThreadingFileSearcher * dict (list string) * nat :=
  let '(self, local_results, files_processed) := st in
  let (self', found_keywords) := search_keywords_in_file fs self filepath keywords in
  (self', Common.record_found local_results filepath found_keywords,
   files_processed + 1).

(** The final critical section of [worker_thread]. *)
Definition merge (self : ThreadingFileSearcher) (local_results : dict (list string))
           (files_processed : nat) : ThreadingFileSearcher :=
  {| num_threads := num_threads self;
     results := Common.extend_all (results self) local_results;
     error_count := error_count self;
     processed_files := processed_files self + files_processed;
     total_files := total_files self |}.

(** [worker_thread]: no handler encloses the body, so a worker-level fault
    leaves the function as an exception. *)
Definition worker_thread (fs : FileSystem) (faults : Faults)
           (self : ThreadingFileSearcher) (file_chunk : list string)
           (keywords : list string) (thread_id : nat) : res ThreadingFileSearcher :=
  match faults thread_id with
  | Some msg => Raise (WorkerFault msg)
  | None =>
      let '(self1, local_results, files_processed) :=
        fold_left (scan_step fs keywords) file_chunk (self, [], 0) in
      Ok (merge self1 local_results files_processed)
  end.

(** A thread run to completion; an exception that escapes [worker_thread]
    ends that thread and nothing else. *)
Definition run_thread (fs : FileSystem) (faults : Faults) (keywords : list string)
           (self : ThreadingFileSearcher) (th : list string * nat)
  : ThreadingFileSearcher :=
  match worker_thread fs faults self (fst th) keywords (snd th) with
  | Ok self' => self'
  | Raise _ => self
  end.

Definition split_files_into_chunks (self : ThreadingFileSearcher)
           (file_list : list string) : res (list (list string)) :=
  Common.split_files_into_chunks (num_threads self) file_list.

(** Lines 162-168. *)
Definition reset (self : ThreadingFileSearcher) (n : nat) : ThreadingFileSearcher :=
  {| num_threads := num_threads self; results := []; error_count := 0;
     processed_files := 0; total_files := n |}.

(** What a call of [search_files] leaves behind: the searcher, the threads
    it started (chunk and identifier) and what it returned or raised. *)
Record run : Type := {
  final : ThreadingFileSearcher;
  started : list (list string * nat);
  returned : res (dict (list string))
}.

(** [search_files].  Every update of the shared fields is made under
    [results_lock] and the counters only add, so the final state is that
    of the threads run one after the other in the order [sched] in which
    they enter their final critical section. *)
Definition search_files (fs : FileSystem) (faults : Faults)
           (sched : list (list string * nat) -> list (list string * nat))
           (self : ThreadingFileSearcher)
           (directory : string) (keywords : list string) (file_pattern : string)
  : run :=
  if negb (dir_exists fs directory)
  then {| final := self; started := []; returned := Raise FileNotFoundError |}
  else
    let file_paths := glob fs directory file_pattern in
    match file_paths with
    | [] => {| final := self; started := []; returned := Ok [] |}
    | _ :: _ =>
        let self1 := reset self (length file_paths) in
        match split_files_into_chunks self1 file_paths with
        | Raise e => {| final := self1; started := []; returned := Raise e |}
        | Ok file_chunks =>
            let threads := Common.spawn file_chunks in
            let self2 := fold_left (run_thread fs faults keywords) (sched threads) self1 in
            {| final := self2; started := threads; returned := Ok (results self2) |}
        end
    end.

End Threading.

(* ================================================================= *)
(** ** multiprocessing_search.py *)

Module Multiprocessing.

(** The message a worker puts on the result queue. *)
Record result_data : Type := {
  process_id : nat;
  results : dict (list string);
  files_processed : nat;
  errors : nat;
  critical_error : option string
}.

Record MultiprocessingFileSearcher : Type := {
  num_processes : Z;
  total_files : nat;
  processed_files : nat;
  error_count : nat
}.

(** [__init__]; [cpu_count] is [multiprocessing.cpu_count()]. *)
Definition init (cpu_count : Z) (num_processes : option Z)
  : MultiprocessingFileSearcher :=
  {| num_processes := match num_processes with
                      | None => cpu_count
                      | Some n => Z.max 1 n
                      end;
     total_files := 0; processed_files := 0; error_count := 0 |}.

(** The module-level [search_keywords_in_file]; its [except] block only
    prints and falls back to [all_false]. *)
Definition search_keywords_in_file (fs : FileSystem) (filepath : string)
           (keywords : list string) : string * dict bool :=
  match read_text fs filepath with
  | Some raw => (filepath, Common.scan_content raw keywords)
  | None => (filepath, Common.all_false keywords)
  end.

(** One iteration of the loop of [worker_process]; the handler of lines
    77-79, the only place that adds to [error_count], is never entered. *)
Definition scan_step (fs : FileSystem) (keywords : list string)
           (st : dict (list string) * nat * nat) (filepath : string)
  : dict (list string) * nat * nat :=
  let '(local_results, files_processed, error_count) := st in
  let (file_path, found_keywords) := search_keywords_in_file fs filepath keywords in
  (Common.record_found local_results file_path found_keywords,
   files_processed + 1, error_count).

(** [worker_process]; the queue is the list of the messages put so far. *)
Definition worker_process (fs : FileSystem) (faults : Faults)
           (file_chunk : list string) (keywords : list string) (process_id : nat)
           (result_queue : list result_data) : list result_data :=
  match faults process_id with
  | Some msg =>
      result_queue ++
        [{| process_id := process_id; results := []; files_processed := 0;
            errors := 1; critical_error := Some msg |}]
  | None =>
      let '(local_results, files_processed, error_count) :=
        fold_left (scan_step fs keywords) file_chunk ([], 0, 0) in
      result_queue ++
        [{| process_id := process_id; results := local_results;
            files_processed := files_processed; errors := error_count;
            critical_error := None |}]
  end.

Definition split_files_into_chunks (self : MultiprocessingFileSearcher)
           (file_list : list string) : res (list (list string)) :=
  Common.split_files_into_chunks (num_processes self) file_list.

(** Lines 181-186. *)
Definition reset (self : MultiprocessingFileSearcher) (n : nat)
  : MultiprocessingFileSearcher :=
  {| num_processes := num_processes self; total_files := n;
     processed_files := 0; error_count := 0 |}.

(** Lines 221-233: one received message merged into the totals. *)
Definition absorb (st : MultiprocessingFileSearcher * dict (list string))
           (m : result_data) : MultiprocessingFileSearcher * dict (list string) :=
  let (self, final_results) := st in
  ({| num_processes := num_processes self; total_files := total_files self;
      processed_files := processed_files self + files_processed m;
      error_count := error_count self + errors m |},
   Common.extend_all final_results (results m)).

(** The collection loop, [pending] being
    [len(processes) - processes_completed].  [gets] lists what the
    successive calls of [result_queue.get(timeout=30)] yield: a message, or
    [None] for [queue.Empty]; the loop is left at the first [None]. *)
Fixpoint collect (pending : nat) (gets : list (option result_data))
         (st : MultiprocessingFileSearcher * dict (list string))
  : MultiprocessingFileSearcher * dict (list string) :=
  match pending with
  | O => st
  | S pending' =>
      match gets with
      | Some m :: gets' => collect pending' gets' (absorb st m)
      | None :: _ => st
      | [] => st
      end
  end.

Record run : Type := {
  final : MultiprocessingFileSearcher;
  started : list (list string * nat);
  returned : res (dict (list string))
}.

(** The messages that the started workers put, in the order of their start. *)
Definition messages (fs : FileSystem) (faults : Faults) (keywords : list string)
           (processes : list (list string * nat)) : list result_data :=
  fold_left (fun q (p : list string * nat) =>
               worker_process fs faults (fst p) keywords (snd p) q)
            processes [].

(** [search_files].  [channel] turns the messages put by the workers into
    what the successive [get] calls of the driver yield. *)
Definition search_files (fs : FileSystem) (faults : Faults)
           (channel : list result_data -> list (option result_data))
           (self : MultiprocessingFileSearcher)
           (directory : string) (keywords : list string) (file_pattern : string)
  : run :=
  if negb (dir_exists fs directory)
  then {| final := self; started := []; returned := Raise FileNotFoundError |}
  else
    let file_paths := glob fs directory file_pattern in
    match file_paths with
    | [] => {| final := self; started := []; returned := Ok [] |}
    | _ :: _ =>
        let self1 := reset self (length file_paths) in
        match split_files_into_chunks self1 file_paths with
        | Raise e => {| final := self1; started := []; returned := Raise e |}
        | Ok file_chunks =>
            let processes := Common.spawn file_chunks in
            let gets := channel (messages fs faults keywords processes) in
            let (self2, final_results) := collect (length processes) gets (self1, []) in
            {| final := self2; started := processes; returned := Ok final_results |}
        end
    end.

End Multiprocessing.

(* ================================================================= *)
(** ** The partitioner *)

Module Partition.

(** Where chunk [i] starts when [n] files are split for [w] workers. *)
Definition offset (n w i : Z) : Z := (i * (n / w) + Z.min i (n mod w))%Z.

(** A good split of [file_list] for [w] workers: [w] chunks, in order,
    contiguous, of balanced sizes, sharing no file of a duplicate-free list. *)
Definition well_split (w : Z) (file_list : list string)
           (r : res (list (list string))) : Prop :=
  let n := Z.of_nat (length file_list) in
  exists chunks,
    r = Ok chunks /\
    length chunks = Z.to_nat w /\
    concat chunks = file_list /\
    (forall i c, nth_error chunks i = Some c ->
       Z.of_nat (length c)
       = (n / w + (if Z.of_nat i <? n mod w then 1 else 0))%Z /\
       c = slice file_list (offset n w (Z.of_nat i)) (offset n w (Z.of_nat i + 1))) /\
    (forall i j ci cj,
       nth_error chunks i = Some ci -> nth_error chunks j = Some cj ->
       length ci <= length cj + 1) /\
    (NoDup file_list ->
     forall i j ci cj, i <> j ->
       nth_error chunks i = Some ci -> nth_error chunks j = Some cj ->
       forall f, In f ci -> ~ In f cj).

Lemma offset_step n w i :
  (offset n w (i + 1) = offset n w i + n / w + (if i <? n mod w then 1 else 0))%Z.
Proof.
  unfold offset. destruct (Z.ltb_spec i (n mod w)); lia.
Qed.

Lemma offset_bounds n w i :
  (0 < w -> 0 <= n -> 0 <= i <= w -> 0 <= offset n w i <= n)%Z.
Proof.
  intros Hw Hn Hi. unfold offset.
  pose proof (Z.mod_pos_bound n w Hw) as Hr.
  pose proof (Z.div_pos n w Hn Hw) as Hq.
  pose proof (Z.div_mod n w ltac:(lia)) as Hdm.
  split; [nia|].
  assert (i * (n / w) <= w * (n / w))%Z by nia. lia.
Qed.

Lemma offset_mono n w i :
  (0 < w -> 0 <= n -> offset n w i <= offset n w (i + 1))%Z.
Proof.
  intros Hw Hn. rewrite offset_step.
  pose proof (Z.div_pos n w Hn Hw). destruct (i <? n mod w)%Z; lia.
Qed.

(** A slice with both bounds inside the list. *)
Lemma slice_inside {A} (l : list A) (s e : Z) :
  (0 <= s <= e)%Z -> (e <= Z.of_nat (length l))%Z ->
  slice l s e = firstn (Z.to_nat (e - s)) (skipn (Z.to_nat s) l).
Proof.
  intros Hs He. unfold slice, clamp_index.
  destruct (Z.ltb_spec s 0); [lia|].
  destruct (Z.ltb_spec e 0); [lia|].
  destruct (Z.ltb_spec (Z.of_nat (length l)) s); [lia|].
  destruct (Z.ltb_spec (Z.of_nat (length l)) e); [lia|].
  reflexivity.
Qed.

Lemma slice_length {A} (l : list A) (s e : Z) :
  (0 <= s <= e)%Z -> (e <= Z.of_nat (length l))%Z ->
  Z.of_nat (length (slice l s e)) = (e - s)%Z.
Proof.
  intros Hs He. rewrite slice_inside by assumption.
  rewrite length_firstn, length_skipn. lia.
Qed.

Lemma slice_then_rest {A} (l : list A) (s e : Z) :
  (0 <= s <= e)%Z -> (e <= Z.of_nat (length l))%Z ->
  slice l s e ++ skipn (Z.to_nat e) l = skipn (Z.to_nat s) l.
Proof.
  intros Hs He. rewrite slice_inside by assumption.
  rewrite <- (firstn_skipn (Z.to_nat (e - s)) (skipn (Z.to_nat s) l)) at 2.
  f_equal. rewrite skipn_skipn. f_equal. lia.
Qed.

(** The chunk appended by one iteration, whichever branch is taken. *)
Lemma chunk_branch (l : list string) (s e : Z) :
  (0 <= s <= e)%Z -> (e <= Z.of_nat (length l))%Z ->
  (if (s <? Z.of_nat (length l))%Z then slice l s e else []) = slice l s e.
Proof.
  intros Hs He. destruct (Z.ltb_spec s (Z.of_nat (length l))); [reflexivity|].
  rewrite slice_inside by assumption.
  replace (Z.to_nat (e - s)) with 0 by lia. reflexivity.
Qed.

Section Loop.
Variable file_list : list string.
Variable w : Z.
Hypothesis w_pos : (0 < w)%Z.

Let n := Z.of_nat (length file_list).
Let loop := Common.chunk_loop file_list (n / w) (n mod w).

Lemma loop_unfold i indices start :
  loop (i :: indices) start
  = (if (start <? n)%Z
     then slice file_list start (start + n / w + (if (i <? n mod w)%Z then 1 else 0))
     else [])
      :: loop indices (start + n / w + (if (i <? n mod w)%Z then 1 else 0))%Z.
Proof. reflexivity. Qed.

(** Invariant of the loop from iteration [k] on, [m] iterations left. *)
Lemma loop_from m : forall k,
  (Z.of_nat k + Z.of_nat m = w)%Z ->
  let chunks := loop (map Z.of_nat (seq k m)) (offset n w (Z.of_nat k)) in
  length chunks = m /\
  concat chunks = skipn (Z.to_nat (offset n w (Z.of_nat k))) file_list /\
  (forall j c, nth_error chunks j = Some c ->
     c = slice file_list (offset n w (Z.of_nat (k + j)))
                         (offset n w (Z.of_nat (k + j) + 1))).
Proof.
  assert (Hn : (0 <= n)%Z) by (subst n; lia).
  induction m as [|m IH]; intros k Hk chunks.
  - subst chunks. cbn. split; [reflexivity|]. split.
    + symmetry. apply skipn_all2.
      assert (offset n w (Z.of_nat k) = n).
      { replace (Z.of_nat k) with w by lia. unfold offset.
        pose proof (Z.mod_pos_bound n w w_pos).
        pose proof (Z.div_mod n w ltac:(lia)). lia. }
      subst n. lia.
    + intros j c H. destruct j; discriminate.
  - subst chunks. cbn [seq map]. rewrite loop_unfold.
    rewrite <- offset_step.
    pose proof (offset_bounds n w (Z.of_nat k) w_pos Hn ltac:(lia)) as B1.
    pose proof (offset_bounds n w (Z.of_nat k + 1) w_pos Hn ltac:(lia)) as B2.
    pose proof (offset_mono n w (Z.of_nat k) w_pos Hn) as M.
    pose proof (chunk_branch file_list (offset n w (Z.of_nat k))
                  (offset n w (Z.of_nat k + 1)) ltac:(lia) ltac:(exact (proj2 B2)))
      as CB.
    change (Z.of_nat (length file_list)) with n in CB. rewrite CB. clear CB.
    specialize (IH (S k) ltac:(lia)). cbv zeta in IH.
    replace (Z.of_nat (S k)) with (Z.of_nat k + 1)%Z in IH by lia.
    destruct IH as (IHlen & IHcat & IHnth).
    split; [cbn; now rewrite IHlen|]. split.
    + cbn [concat]. rewrite IHcat. apply slice_then_rest; [lia|exact (proj2 B2)].
    + intros [|j] c H; cbn in H.
      * injection H as <-. now rewrite Nat.add_0_r.
      * apply IHnth in H. subst c.
        replace (Z.of_nat (S k + j)) with (Z.of_nat (k + S j)) by lia.
        reflexivity.
Qed.

Lemma split_chunks :
  exists chunks,
    Common.split_files_into_chunks w file_list = Ok chunks /\
    length chunks = Z.to_nat w /\
    concat chunks = file_list /\
    (forall i c, nth_error chunks i = Some c ->
       c = slice file_list (offset n w (Z.of_nat i)) (offset n w (Z.of_nat i + 1))).
Proof.
  unfold Common.split_files_into_chunks.
  destruct (Z.eqb_spec w 0); [lia|].
  eexists; split; [reflexivity|].
  pose proof (loop_from (Z.to_nat w) 0 ltac:(lia)) as H. cbv zeta in H.
  assert (O0 : offset n w (Z.of_nat 0) = 0%Z).
  { unfold offset. pose proof (Z.mod_pos_bound n w w_pos). lia. }
  rewrite O0 in H. unfold loop, n in H. unfold range.
  destruct H as (Hlen & Hcat & Hnth).
  split; [exact Hlen|]. split; [exact Hcat|exact Hnth].
Qed.
End Loop.

(** Lists whose concatenation has no duplicate share no element. *)
Lemma concat_nodup_disjoint {A} (ls : list (list A)) :
  NoDup (concat ls) ->
  forall i j a b, i <> j -> nth_error ls i = Some a -> nth_error ls j = Some b ->
  forall x, In x a -> ~ In x b.
Proof.
  induction ls as [|c ls IH]; intros ND i j a b Hij Ha Hb x Hxa Hxb.
  - destruct i; discriminate.
  - cbn in ND. pose proof (NoDup_app_remove_l _ _ ND) as NDr.
    assert (Hc : forall y, In y c -> forall k d, nth_error ls k = Some d -> ~ In y d).
    { intros y Hy k d Hd Hyd.
      apply nth_error_In in Hd.
      assert (In y (concat ls)) by (apply in_concat; eauto).
      clear - ND Hy H. induction c as [|z c IHc]; [contradiction|].
      cbn in ND. inversion ND; subst. destruct Hy as [->|Hy].
      - apply H2. apply in_or_app. now right.
      - now apply IHc. }
    destruct i as [|i], j as [|j]; cbn in Ha, Hb.
    + congruence.
    + injection Ha as <-. exact (Hc x Hxa j b Hb Hxb).
    + injection Hb as <-. exact (Hc x Hxb i a Ha Hxa).
    + exact (IH NDr i j a b ltac:(congruence) Ha Hb x Hxa Hxb).
Qed.

Lemma split_well (w : Z) (file_list : list string) :
  (0 < w)%Z -> well_split w file_list (Common.split_files_into_chunks w file_list).
Proof.
  intros Hw. destruct (split_chunks file_list w Hw) as (chunks & E & Hlen & Hcat & Hnth).
  set (n := Z.of_nat (length file_list)) in *.
  assert (Hn : (0 <= n)%Z) by (subst n; lia).
  assert (Hsize : forall i c, nth_error chunks i = Some c ->
            Z.of_nat (length c) = (n / w + (if Z.of_nat i <? n mod w then 1 else 0))%Z).
  { intros i c H. pose proof (Hnth i c H) as ->.
    assert (i < length chunks) by (apply nth_error_Some; congruence).
    pose proof (offset_bounds n w (Z.of_nat i) Hw Hn ltac:(lia)).
    pose proof (offset_bounds n w (Z.of_nat i + 1) Hw Hn ltac:(lia)).
    pose proof (offset_mono n w (Z.of_nat i) Hw Hn).
    rewrite slice_length by (subst n; lia).
    rewrite offset_step. lia. }
  exists chunks. repeat split; auto.
  - intros i j ci cj Hi Hj. apply Hsize in Hi, Hj.
    destruct (Z.of_nat i <? n mod w)%Z, (Z.of_nat j <? n mod w)%Z; lia.
  - intros ND. apply concat_nodup_disjoint. now rewrite Hcat.
Qed.

End Partition.

(* ================================================================= *)
(** ** The matcher *)

Module Matcher.

(** Bounded on the left: at the start of the text or after a non-word
    character. *)
Definition bounded_left (before : text) : Prop :=
  before = [] \/ exists b c, before = b ++ [c] /\ is_word_char c = false.

(** Bounded on the right: at the end of the text or before a non-word
    character. *)
Definition bounded_right (after : text) : Prop :=
  after = [] \/ exists c a, after = c :: a /\ is_word_char c = false.

(** The words of the specification: the keyword occurs in the content,
    case-insensitively, as a whole word bounded by non-word characters or
    string edges. *)
Definition occurs_as_whole_word (keyword : string) (content : text) : Prop :=
  exists before after,
    lower content = before ++ lower (of_string keyword) ++ after /\
    bounded_left before /\ bounded_right after.

(** The keyword is not empty and both its first and its last character
    are word characters. *)
Definition word_edged (keyword : string) : Prop :=
  exists c middle d,
    (of_string keyword = [c] \/ of_string keyword = c :: middle ++ [d]) /\
    is_word_char c = true /\
    (of_string keyword = [c] \/ is_word_char d = true).

(** The character before the position reached after reading [l]. *)
Definition last_opt (prev : option ascii) (l : text) : option ascii :=
  fold_left (fun _ c => Some c) l prev.

Lemma last_opt_app prev l1 l2 :
  last_opt prev (l1 ++ l2) = last_opt (last_opt prev l1) l2.
Proof. apply fold_left_app. Qed.

Lemma last_opt_snoc prev l c : last_opt prev (l ++ [c]) = Some c.
Proof. now rewrite last_opt_app. Qed.

Lemma snoc_case {A} (l : list A) : l = [] \/ exists b c, l = b ++ [c].
Proof.
  induction l as [|x l IH] using rev_ind; [now left|right; eauto].
Qed.

Lemma wordy_last_bounded (before : text) :
  Re.wordy (last_opt None before) = false <-> bounded_left before.
Proof.
  destruct (snoc_case before) as [->|(b & c & ->)].
  - cbn. split; [now left|reflexivity].
  - rewrite last_opt_snoc. cbn. split.
    + intros H. right. eauto.
    + intros [H|(b' & c' & E & H)].
      * destruct b; discriminate.
      * apply app_inj_tail in E. destruct E as [_ ->]. exact H.
Qed.

Lemma wordy_head_bounded (after : text) :
  Re.wordy (hd_error after) = false <-> bounded_right after.
Proof.
  destruct after as [|c a]; cbn.
  - split; [now left|reflexivity].
  - split.
    + intros H. right. eauto.
    + intros [H|(c' & a' & E & H)]; [discriminate|congruence].
Qed.

(** A run of literals matches exactly a prefix equal to it. *)
Lemma match_literals (kw : text) (p : Re.pattern) :
  forall prev rest,
    Re.match_here (Re.escape kw ++ p) prev rest = true <->
    exists after, rest = kw ++ after /\ Re.match_here p (last_opt prev kw) after = true.
Proof.
  induction kw as [|c kw IH]; intros prev rest.
  - cbn. split; [eauto|]. now intros (after & -> & H).
  - cbn [Re.escape map app Re.match_here]. destruct rest as [|x rest].
    + split; [discriminate|]. intros (after & E & _). discriminate.
    + destruct (Ascii.eqb_spec x c) as [->|Hne].
      * fold (Re.escape kw). rewrite IH. cbn. split.
        -- intros (after & -> & H). eauto.
        -- intros (after & E & H). injection E as ->. eauto.
      * split; [discriminate|]. intros (after & E & _). congruence.
Qed.

(** [search_from] succeeds exactly when the pattern matches at some cut. *)
Lemma search_from_cut (p : Re.pattern) :
  forall rest prev,
    Re.search_from p prev rest = true <->
    exists before here,
      rest = before ++ here /\ Re.match_here p (last_opt prev before) here = true.
Proof.
  induction rest as [|x rest IH]; intros prev; cbn [Re.search_from].
  - rewrite orb_false_r. split.
    + intros H. exists [], []. auto.
    + intros (before & here & E & H).
      symmetry in E. apply app_eq_nil in E. destruct E as [-> ->]. exact H.
  - rewrite orb_true_iff, IH. split.
    + intros [H|(before & here & -> & H)].
      * exists [], (x :: rest). auto.
      * exists (x :: before), here. auto.
    + intros (before & here & E & H). destruct before as [|y before].
      * left. cbn in E. subst here. exact H.
      * right. injection E as -> ->. eauto.
Qed.

(** The search of one keyword pattern, spelled out. *)
Lemma keyword_found_cut (content : text) (keyword : string) :
  Common.keyword_found content keyword = true <->
  exists before after,
    content = before ++ lower (of_string keyword) ++ after /\
    Re.at_boundary (last_opt None before) (lower (of_string keyword) ++ after) = true /\
    Re.at_boundary (last_opt (last_opt None before) (lower (of_string keyword))) after
    = true.
Proof.
  unfold Common.keyword_found, Re.search, Common.keyword_pattern.
  rewrite search_from_cut. split.
  - intros (before & here & -> & H). cbn [app Re.match_here] in H.
    destruct (Re.at_boundary _ here) eqn:B; [|discriminate].
    apply match_literals in H. destruct H as (after & -> & H).
    cbn [Re.match_here] in H.
    destruct (Re.at_boundary _ after) eqn:B'; [|discriminate].
    exists before, after. auto.
  - intros (before & after & -> & B & B').
    exists before, (lower (of_string keyword) ++ after). split; [reflexivity|].
    cbn [app Re.match_here]. rewrite B. apply match_literals.
    exists after. split; [reflexivity|]. cbn. now rewrite B'.
Qed.

Lemma lower_char_wordy (c : ascii) : is_word_char (lower_char c) = is_word_char c.
Proof.
  destruct c as [[] [] [] [] [] [] [] []]; vm_compute; reflexivity.
Qed.

(** Both edges of the lower-cased keyword are word characters. *)
Lemma word_edged_lower (keyword : string) :
  word_edged keyword ->
  Re.wordy (hd_error (lower (of_string keyword))) = true /\
  forall prev, Re.wordy (last_opt prev (lower (of_string keyword))) = true.
Proof.
  intros (c & middle & d & Hshape & Hc & Hd).
  destruct Hshape as [E|E]; rewrite E.
  - cbn. rewrite lower_char_wordy. auto.
  - destruct Hd as [E'|Hd].
    + rewrite E' in E. injection E as E. destruct middle; discriminate.
    + split.
      * cbn. now rewrite lower_char_wordy.
      * intros prev. unfold lower. rewrite map_cons, map_app. cbn [map].
        change (?x :: ?l ++ [?y]) with ((x :: l) ++ [y]).
        rewrite last_opt_snoc. cbn. now rewrite lower_char_wordy.
Qed.

(** For a keyword with word characters at both ends, the pattern finds it
    exactly where the specification's words place a whole word. *)
Lemma keyword_found_whole_word (content : text) (keyword : string) :
  word_edged keyword ->
  (Common.keyword_found (lower content) keyword = true <->
   occurs_as_whole_word keyword content).
Proof.
  intros We. destruct (word_edged_lower keyword We) as [Hhd Hlast].
  rewrite keyword_found_cut. unfold occurs_as_whole_word.
  assert (Hhd' : forall after,
             Re.wordy (hd_error (lower (of_string keyword) ++ after)) = true).
  { intros after. destruct (lower (of_string keyword)); [discriminate|exact Hhd]. }
  split.
  - intros (before & after & E & B & B'). exists before, after.
    split; [exact E|]. unfold Re.at_boundary in B, B'.
    rewrite Hhd' in B. rewrite Hlast in B'.
    split; [apply wordy_last_bounded|apply wordy_head_bounded].
    + destruct (Re.wordy (last_opt None before)); [discriminate|reflexivity].
    + destruct (Re.wordy (hd_error after)); [discriminate|reflexivity].
  - intros (before & after & E & L & R). exists before, after.
    apply wordy_last_bounded in L. apply wordy_head_bounded in R.
    split; [exact E|]. unfold Re.at_boundary.
    now rewrite Hhd', Hlast, L, R.
Qed.

End Matcher.

(* ================================================================= *)
(** ** Dictionaries: lookups after updates *)

Module DictFacts.

Section Generic.
Context {V : Type}.
Implicit Types (d : dict V) (k : string) (v : V).

Lemma get_set_same d k v : get (set d k v) k = Some v.
Proof.
  induction d as [|[k' v'] d IH]; cbn.
  - now rewrite String.eqb_refl.
  - destruct (String.eqb_spec k k') as [->|Hne]; cbn.
    + now rewrite String.eqb_refl.
    + destruct (String.eqb_spec k k'); [contradiction|exact IH].
Qed.

Lemma get_set_other d k k' v : k' <> k -> get (set d k v) k' = get d k'.
Proof.
  intros Hne. induction d as [|[k0 v0] d IH]; cbn.
  - destruct (String.eqb_spec k' k); [contradiction|reflexivity].
  - destruct (String.eqb_spec k k0) as [->|Hk]; cbn.
    + destruct (String.eqb_spec k' k0); [contradiction|reflexivity].
    + destruct (String.eqb_spec k' k0); [reflexivity|exact IH].
Qed.

Lemma keys_set d k v k' : In k' (keys (set d k v)) <-> k' = k \/ In k' (keys d).
Proof.
  unfold keys. induction d as [|[k0 v0] d IH]; cbn.
  - intuition congruence.
  - destruct (String.eqb_spec k k0) as [->|Hk]; cbn.
    + intuition congruence.
    + rewrite IH. intuition congruence.
Qed.

Lemma keys_set_nodup d k v : NoDup (keys d) -> NoDup (keys (set d k v)).
Proof.
  unfold keys. induction d as [|[k0 v0] d IH]; cbn; intros ND.
  - constructor; [intros []|constructor].
  - inversion ND as [|? ? Hnotin ND']; subst.
    destruct (String.eqb_spec k k0) as [->|Hk]; cbn.
    + now constructor.
    + constructor; [|now apply IH].
      intros Hin. apply (keys_set d k v k0) in Hin.
      destruct Hin as [->|Hin]; [now apply Hk|now apply Hnotin].
Qed.

Lemma get_not_key d k : ~ In k (keys d) -> get d k = None.
Proof.
  unfold keys. induction d as [|[k0 v0] d IH]; cbn; intros Hn; [reflexivity|].
  destruct (String.eqb_spec k k0) as [->|Hk]; [exfalso; auto|apply IH; auto].
Qed.

(** The loop [for k in ks: d[k] = f(k)]. *)
Lemma get_fill (f : string -> V) (ks : list string) : forall d k,
  get (fold_left (fun d k => set d k (f k)) ks d) k
  = if existsb (String.eqb k) ks then Some (f k) else get d k.
Proof.
  induction ks as [|k0 ks IH]; intros d k; cbn; [reflexivity|].
  rewrite IH. destruct (existsb (String.eqb k) ks).
  - now rewrite orb_true_r.
  - rewrite orb_false_r. destruct (String.eqb_spec k k0) as [->|Hk].
    + apply get_set_same.
    + now apply get_set_other.
Qed.

Lemma fill_nodup (f : string -> V) (ks : list string) : forall d,
  NoDup (keys d) -> NoDup (keys (fold_left (fun d k => set d k (f k)) ks d)).
Proof.
  induction ks as [|k0 ks IH]; intros d ND; cbn; [exact ND|].
  apply IH. now apply keys_set_nodup.
Qed.

Lemma get_comprehension (f : string -> V) (ks : list string) k :
  get (comprehension f ks) k
  = if existsb (String.eqb k) ks then Some (f k) else None.
Proof. unfold comprehension. now rewrite get_fill. Qed.

Lemma comprehension_nodup (f : string -> V) (ks : list string) :
  NoDup (keys (comprehension f ks)).
Proof. apply fill_nodup. constructor. Qed.
End Generic.

(** What a lookup gives after lists were appended under a key: nothing
    new when nothing was appended, else the old list (or the empty list
    of a fresh key) followed by the new elements. *)
Definition grow (o : option (list string)) (xs : list string) : option (list string) :=
  match xs with
  | [] => o
  | _ :: _ => Some (match o with Some l => l | None => [] end ++ xs)
  end.

Lemma grow_grow o xs ys : grow (grow o xs) ys = grow o (xs ++ ys).
Proof.
  destruct xs as [|x xs]; [reflexivity|].
  destruct ys as [|y ys]; cbn.
  - now rewrite app_nil_r.
  - now rewrite <- app_assoc.
Qed.

Lemma grow_none_some xs l : grow None xs = Some l -> l = xs /\ xs <> [].
Proof. destruct xs; cbn; [discriminate|]. intros [= <-]. split; congruence. Qed.

Lemma get_dd_extend_same d k xs :
  get (dd_extend d k xs) k = Some (get_list d k ++ xs).
Proof.
  unfold dd_extend, get_list. destruct (get d k); apply get_set_same.
Qed.

Lemma get_dd_extend_other d k k' xs :
  k' <> k -> get (dd_extend d k xs) k' = get d k'.
Proof.
  intros Hne. unfold dd_extend. destruct (get d k); now apply get_set_other.
Qed.

Lemma dd_extend_nodup d k xs : NoDup (keys d) -> NoDup (keys (dd_extend d k xs)).
Proof.
  intros ND. unfold dd_extend. destruct (get d k); now apply keys_set_nodup.
Qed.

(** A dict as the workers build them: unique keys, no empty list. *)
Definition tidy (d : dict (list string)) : Prop :=
  NoDup (keys d) /\ forall k l, get d k = Some l -> l <> [].

Lemma tidy_empty : tidy [].
Proof. split; [constructor|discriminate]. Qed.

Lemma get_extend_all (part : dict (list string)) : forall whole k,
  NoDup (keys part) ->
  get (Common.extend_all whole part) k
  = match get part k with
    | Some l => Some (get_list whole k ++ l)
    | None => get whole k
    end.
Proof.
  unfold Common.extend_all.
  induction part as [|[k0 l0] part IH]; intros whole k ND; cbn; [reflexivity|].
  inversion ND as [|? ? Hnotin ND']; subst.
  rewrite IH by assumption. destruct (String.eqb_spec k k0) as [->|Hk].
  - rewrite (get_not_key part k0 Hnotin). apply get_dd_extend_same.
  - unfold get_list. rewrite get_dd_extend_other by assumption. reflexivity.
Qed.

Lemma extend_all_nodup (part : dict (list string)) : forall whole,
  NoDup (keys whole) -> NoDup (keys (Common.extend_all whole part)).
Proof.
  unfold Common.extend_all.
  induction part as [|[k0 l0] part IH]; intros whole ND; cbn.
  - exact ND.
  - apply IH. now apply dd_extend_nodup.
Qed.

(** Merging a tidy dict appends its lists and creates no empty entry. *)
Lemma get_extend_all_tidy (whole part : dict (list string)) k :
  tidy part ->
  get (Common.extend_all whole part) k = grow (get whole k) (get_list part k).
Proof.
  intros [ND NE]. rewrite get_extend_all by assumption. unfold get_list.
  destruct (get part k) as [l|] eqn:E; [|reflexivity].
  specialize (NE k l E). destruct l; [contradiction|reflexivity].
Qed.

Lemma grow_nonempty o xs l :
  (forall l', o = Some l' -> l' <> []) -> grow o xs = Some l -> l <> [].
Proof.
  intros Ho. destruct xs as [|x xs]; cbn.
  - apply Ho.
  - intros [= <-]. destruct o as [l'|]; [destruct l'|]; discriminate.
Qed.

Lemma extend_all_tidy (whole part : dict (list string)) :
  tidy whole -> tidy part -> tidy (Common.extend_all whole part).
Proof.
  intros [NDw NEw] Hp. split; [now apply extend_all_nodup|].
  intros k l. rewrite get_extend_all_tidy by assumption.
  apply grow_nonempty. apply NEw.
Qed.

(** A dict whose lookups all come from [grow None] has no empty list. *)
Lemma tidy_of_grow (d : dict (list string)) (xs : string -> list string) :
  NoDup (keys d) -> (forall k, get d k = grow None (xs k)) -> tidy d.
Proof.
  intros ND H. split; [exact ND|]. intros k l. rewrite H.
  intros E. apply grow_none_some in E. destruct E as [-> E]. exact E.
Qed.

Lemma get_list_grow_none (d : dict (list string)) k xs :
  get d k = grow None xs -> get_list d k = xs.
Proof. unfold get_list. intros ->. destruct xs; reflexivity. Qed.

Lemma mem_grow_none (d : dict (list string)) k xs :
  get d k = grow None xs -> (mem d k = true <-> xs <> []).
Proof.
  unfold mem. intros ->. destruct xs; cbn; split; congruence.
Qed.

End DictFacts.

(* ================================================================= *)
(** ** What one worker accumulates *)

Module Scan.
Import DictFacts.

(** File [f] is readable, [k] is one of the keywords and the pattern of [k]
    is found in the lower-cased content of [f]. *)
Definition hit (fs : FileSystem) (keywords : list string) (k f : string) : bool :=
  match read_text fs f with
  | Some raw => existsb (String.eqb k) keywords && Common.keyword_found (lower raw) k
  | None => false
  end.

Definition unreadable (fs : FileSystem) (f : string) : bool :=
  match read_text fs f with Some _ => false | None => true end.

(** The dict that either [search_keywords_in_file] hands to its worker. *)
Definition found_keywords (fs : FileSystem) (keywords : list string) (f : string)
  : dict bool :=
  match read_text fs f with
  | Some raw => Common.scan_content raw keywords
  | None => Common.all_false keywords
  end.

Lemma found_keywords_nodup fs keywords f : NoDup (keys (found_keywords fs keywords f)).
Proof.
  unfold found_keywords, Common.scan_content, Common.all_false.
  destruct (read_text fs f); apply comprehension_nodup.
Qed.

Lemma found_keywords_hit fs keywords f k :
  match get (found_keywords fs keywords f) k with
  | Some true => true
  | _ => false
  end = hit fs keywords k f.
Proof.
  unfold found_keywords, hit, Common.scan_content, Common.all_false.
  destruct (read_text fs f) as [raw|]; rewrite get_comprehension;
    destruct (existsb (String.eqb k) keywords); cbn; try reflexivity.
  now destruct (Common.keyword_found (lower raw) k).
Qed.

Lemma threading_found fs self f keywords :
  snd (Threading.search_keywords_in_file fs self f keywords)
  = found_keywords fs keywords f.
Proof.
  unfold Threading.search_keywords_in_file, found_keywords.
  now destruct (read_text fs f).
Qed.

Lemma multiprocessing_found fs f keywords :
  Multiprocessing.search_keywords_in_file fs f keywords
  = (f, found_keywords fs keywords f).
Proof.
  unfold Multiprocessing.search_keywords_in_file, found_keywords.
  now destruct (read_text fs f).
Qed.

(** The file is appended under exactly the keys reported [True]. *)
Lemma get_record_found (f : string) (found : dict bool) :
  forall (local_results : dict (list string)) k,
    NoDup (keys found) ->
    get (Common.record_found local_results f found) k
    = grow (get local_results k)
           (match get found k with Some true => [f] | _ => [] end).
Proof.
  unfold Common.record_found.
  induction found as [|[k0 b] found IH]; intros local_results k ND; cbn.
  - reflexivity.
  - inversion ND as [|? ? Hnotin ND']; subst.
    rewrite IH by assumption.
    destruct (String.eqb_spec k k0) as [->|Hk].
    + rewrite (get_not_key found k0 Hnotin). cbn [grow].
      destruct b; [|reflexivity].
      unfold dd_append. rewrite get_dd_extend_same. unfold get_list.
      now destruct (get local_results k0).
    + destruct b; [|reflexivity].
      unfold dd_append. now rewrite get_dd_extend_other.
Qed.

Lemma record_found_nodup (f : string) (found : dict bool) :
  forall local_results : dict (list string),
    NoDup (keys local_results) ->
    NoDup (keys (Common.record_found local_results f found)).
Proof.
  unfold Common.record_found.
  induction found as [|[k0 b] found IH]; intros local_results ND; cbn.
  - exact ND.
  - apply IH. destruct b; [|exact ND]. now apply dd_extend_nodup.
Qed.

Lemma get_record_hit fs keywords f local_results k :
  get (Common.record_found local_results f (found_keywords fs keywords f)) k
  = grow (get local_results k) (if hit fs keywords k f then [f] else []).
Proof.
  rewrite get_record_found by apply found_keywords_nodup.
  rewrite <- found_keywords_hit.
  now destruct (get (found_keywords fs keywords f) k) as [[]|].
Qed.

(** The local results after a chunk, whatever the realization. *)
Fixpoint scan_results (fs : FileSystem) (keywords : list string)
         (local_results : dict (list string)) (file_chunk : list string)
  : dict (list string) :=
  match file_chunk with
  | [] => local_results
  | f :: rest =>
      scan_results fs keywords
        (Common.record_found local_results f (found_keywords fs keywords f)) rest
  end.

Lemma get_scan_results fs keywords file_chunk : forall local_results k,
  get (scan_results fs keywords local_results file_chunk) k
  = grow (get local_results k) (filter (hit fs keywords k) file_chunk).
Proof.
  induction file_chunk as [|f rest IH]; intros local_results k; cbn.
  - reflexivity.
  - rewrite IH, get_record_hit, grow_grow.
    now destruct (hit fs keywords k f).
Qed.

Lemma scan_results_nodup fs keywords file_chunk : forall local_results,
  NoDup (keys local_results) ->
  NoDup (keys (scan_results fs keywords local_results file_chunk)).
Proof.
  induction file_chunk as [|f rest IH]; intros local_results ND; cbn.
  - exact ND.
  - apply IH. now apply record_found_nodup.
Qed.

Lemma scan_results_tidy fs keywords file_chunk :
  tidy (scan_results fs keywords [] file_chunk).
Proof.
  apply tidy_of_grow with (xs := fun k => filter (hit fs keywords k) file_chunk).
  - apply scan_results_nodup. constructor.
  - intros k. apply get_scan_results.
Qed.

(** The searcher with [e] more errors counted. *)
Definition add_errors (self : Threading.ThreadingFileSearcher) (e : nat)
  : Threading.ThreadingFileSearcher :=
  {| Threading.num_threads := Threading.num_threads self;
     Threading.results := Threading.results self;
     Threading.error_count := Threading.error_count self + e;
     Threading.processed_files := Threading.processed_files self;
     Threading.total_files := Threading.total_files self |}.

Definition failures (fs : FileSystem) (file_chunk : list string) : nat :=
  length (filter (unreadable fs) file_chunk).

Lemma add_errors_count self e :
  add_errors (Threading.count_error self) e = add_errors self (S e).
Proof.
  unfold add_errors, Threading.count_error; cbn. f_equal. lia.
Qed.

(** The loop of [worker_thread]. *)
Lemma threading_loop fs keywords file_chunk : forall self local_results n,
  fold_left (Threading.scan_step fs keywords) file_chunk (self, local_results, n)
  = (add_errors self (failures fs file_chunk),
     scan_results fs keywords local_results file_chunk,
     n + length file_chunk).
Proof.
  unfold failures.
  induction file_chunk as [|f rest IH]; intros self local_results n; cbn.
  - unfold add_errors. destruct self; cbn. now rewrite !Nat.add_0_r.
  - pose proof (threading_found fs self f keywords) as Hf.
    unfold Threading.search_keywords_in_file, unreadable in *.
    destruct (read_text fs f) as [raw|] eqn:R; cbn in Hf |- *; rewrite IH.
    + unfold found_keywords. rewrite R. f_equal. lia.
    + unfold found_keywords. rewrite R. cbn [length].
      rewrite add_errors_count. f_equal. lia.
Qed.

(** The loop of [worker_process]: the error counter never moves. *)
Lemma multiprocessing_loop fs keywords file_chunk : forall local_results n e,
  fold_left (Multiprocessing.scan_step fs keywords) file_chunk (local_results, n, e)
  = (scan_results fs keywords local_results file_chunk, n + length file_chunk, e).
Proof.
  induction file_chunk as [|f rest IH]; intros local_results n e; cbn.
  - now rewrite Nat.add_0_r.
  - rewrite multiprocessing_found, IH. f_equal. f_equal. lia.
Qed.

End Scan.

(* ================================================================= *)
(** ** What the drivers return *)

Module Driver.
Import DictFacts Scan.

(** The order in which the threads finish is some order of the threads. *)
Definition fair (sched : list (list string * nat) -> list (list string * nat)) : Prop :=
  forall threads, Permutation (sched threads) threads.

(** Every [get] of the driver yields a message, each message put by a
    worker arrives once, in some order. *)
Definition reliable
           (channel : list Multiprocessing.result_data
                      -> list (option Multiprocessing.result_data)) : Prop :=
  forall msgs, Permutation (channel msgs) (map Some msgs).

(** The workers that no worker-level fault stops. *)
Definition alive (faults : Faults) (workers : list (list string * nat))
  : list (list string * nat) :=
  filter (fun w => match faults (snd w) with None => true | Some _ => false end)
         workers.

(** The files scanned by these workers. *)
Definition scanned (faults : Faults) (workers : list (list string * nat))
  : list string :=
  flat_map fst (alive faults workers).

(** Two mappings equal as mappings from keywords to sets of files; the
    lists even agree up to order. *)
Definition same_mapping (d1 d2 : dict (list string)) : Prop :=
  forall k, mem d1 k = mem d2 k /\ Permutation (get_list d1 k) (get_list d2 k).

Lemma Permutation_filter {A} (p : A -> bool) (l l' : list A) :
  Permutation l l' -> Permutation (filter p l) (filter p l').
Proof.
  induction 1 as [|x l l' _ IH|x y l|l l' l'' _ IH1 _ IH2]; cbn.
  - constructor.
  - destruct (p x); [now constructor|exact IH].
  - destruct (p x), (p y); try reflexivity. constructor.
  - now transitivity (filter p l').
Qed.

Lemma scanned_perm faults ws ws' :
  Permutation ws ws' -> Permutation (scanned faults ws) (scanned faults ws').
Proof.
  intros P. unfold scanned, alive.
  apply Permutation_flat_map. now apply Permutation_filter.
Qed.

Lemma scanned_dead faults chunk id ws msg :
  faults id = Some msg -> scanned faults ((chunk, id) :: ws) = scanned faults ws.
Proof. intros F. unfold scanned, alive. cbn. now rewrite F. Qed.

Lemma scanned_alive faults chunk id ws :
  faults id = None -> scanned faults ((chunk, id) :: ws) = chunk ++ scanned faults ws.
Proof. intros F. unfold scanned, alive. cbn. now rewrite F. Qed.

Lemma failures_app fs l1 l2 : failures fs (l1 ++ l2) = failures fs l1 + failures fs l2.
Proof. unfold failures. now rewrite filter_app, length_app. Qed.

Lemma alive_no_faults ws : alive no_faults ws = ws.
Proof. unfold alive, no_faults. apply filter_true. Qed.

Lemma spawn_from_files chunks : forall i,
  flat_map fst (Common.spawn_from i chunks) = concat chunks.
Proof.
  induction chunks as [|c chunks IH]; intros i; cbn; [reflexivity|].
  destruct c as [|f c]; cbn; now rewrite IH.
Qed.

Lemma spawn_files chunks : flat_map fst (Common.spawn chunks) = concat chunks.
Proof. apply spawn_from_files. Qed.

Lemma spawn_from_nonempty chunks : forall i w,
  In w (Common.spawn_from i chunks) -> fst w <> [].
Proof.
  induction chunks as [|c chunks IH]; intros i w; cbn; [intros []|].
  destruct c as [|f c]; cbn.
  - apply IH.
  - intros [<-|H]; [discriminate|now apply IH in H].
Qed.

Lemma grow_same xs ys (d1 d2 : dict (list string)) k :
  get d1 k = grow None xs -> get d2 k = grow None ys -> Permutation xs ys ->
  mem d1 k = mem d2 k /\ Permutation (get_list d1 k) (get_list d2 k).
Proof.
  intros E1 E2 P. unfold mem, get_list. rewrite E1, E2.
  destruct xs as [|x xs], ys as [|y ys]; cbn; auto.
  - apply Permutation_nil in P. discriminate.
  - symmetry in P. apply Permutation_nil in P. discriminate.
Qed.

(** *** Threads *)

Lemma worker_thread_alive fs faults self file_chunk keywords thread_id :
  faults thread_id = None ->
  Threading.worker_thread fs faults self file_chunk keywords thread_id
  = Ok (Threading.merge (add_errors self (failures fs file_chunk))
                        (scan_results fs keywords [] file_chunk)
                        (length file_chunk)).
Proof.
  intros F. unfold Threading.worker_thread. rewrite F.
  now rewrite threading_loop.
Qed.

Lemma run_thread_alive fs faults keywords self chunk id :
  faults id = None ->
  Threading.run_thread fs faults keywords self (chunk, id)
  = Threading.merge (add_errors self (failures fs chunk))
                    (scan_results fs keywords [] chunk) (length chunk).
Proof.
  intros F. unfold Threading.run_thread. cbn [fst snd].
  now rewrite worker_thread_alive.
Qed.

Lemma run_thread_dead fs faults keywords self chunk id msg :
  faults id = Some msg ->
  Threading.run_thread fs faults keywords self (chunk, id) = self.
Proof.
  intros F. unfold Threading.run_thread, Threading.worker_thread. cbn [fst snd].
  now rewrite F.
Qed.

(** The shared state after the threads [ths] ran one after the other. *)
Lemma run_threads fs faults keywords ths : forall self,
  tidy (Threading.results self) ->
  let self' := fold_left (Threading.run_thread fs faults keywords) ths self in
  (forall k, get (Threading.results self') k
             = grow (get (Threading.results self) k)
                    (filter (hit fs keywords k) (scanned faults ths))) /\
  tidy (Threading.results self') /\
  Threading.error_count self'
  = Threading.error_count self + failures fs (scanned faults ths) /\
  Threading.processed_files self'
  = Threading.processed_files self + length (scanned faults ths) /\
  Threading.num_threads self' = Threading.num_threads self /\
  Threading.total_files self' = Threading.total_files self.
Proof.
  induction ths as [|[chunk id] ths IH]; intros self T; cbn zeta.
  - cbn. repeat split; try apply T; try lia.
  - cbn [fold_left].
    destruct (faults id) as [msg|] eqn:F.
    + rewrite (run_thread_dead _ _ _ _ _ _ _ F).
      rewrite (scanned_dead faults chunk id ths msg F). apply IH, T.
    + rewrite run_thread_alive by assumption.
      rewrite (scanned_alive faults chunk id ths F).
      set (self1 := Threading.merge _ _ _).
      assert (T1 : tidy (Threading.results self1)).
      { apply extend_all_tidy; [exact T|apply scan_results_tidy]. }
      destruct (IH self1 T1) as (Hget & Htidy & He & Hp & Hn & Ht).
      rewrite failures_app, length_app.
      split; [|split; [exact Htidy|]].
      * intros k. rewrite Hget, filter_app. subst self1.
        cbn [Threading.merge Threading.results].
        rewrite get_extend_all_tidy by apply scan_results_tidy.
        rewrite (get_list_grow_none _ _ _ (get_scan_results fs keywords chunk [] k)).
        cbn [add_errors Threading.results]. apply grow_grow.
      * rewrite He, Hp, Hn, Ht. subst self1. cbn. repeat split; lia.
Qed.

(** *** Processes *)

(** The one message that a worker puts. *)
Definition message_of (fs : FileSystem) (faults : Faults) (keywords : list string)
           (p : list string * nat) : Multiprocessing.result_data :=
  match faults (snd p) with
  | Some msg =>
      {| Multiprocessing.process_id := snd p; Multiprocessing.results := [];
         Multiprocessing.files_processed := 0; Multiprocessing.errors := 1;
         Multiprocessing.critical_error := Some msg |}
  | None =>
      {| Multiprocessing.process_id := snd p;
         Multiprocessing.results := scan_results fs keywords [] (fst p);
         Multiprocessing.files_processed := length (fst p);
         Multiprocessing.errors := 0;
         Multiprocessing.critical_error := None |}
  end.

Lemma worker_process_puts fs faults keywords chunk id q :
  Multiprocessing.worker_process fs faults chunk keywords id q
  = q ++ [message_of fs faults keywords (chunk, id)].
Proof.
  unfold Multiprocessing.worker_process, message_of. cbn [fst snd].
  destruct (faults id); [reflexivity|]. now rewrite multiprocessing_loop.
Qed.

Lemma messages_from fs faults keywords processes : forall q,
  fold_left (fun q (p : list string * nat) =>
               Multiprocessing.worker_process fs faults (fst p) keywords (snd p) q)
            processes q
  = q ++ map (message_of fs faults keywords) processes.
Proof.
  induction processes as [|[chunk id] ps IH]; intros q; cbn.
  - now rewrite app_nil_r.
  - rewrite IH, worker_process_puts, <- app_assoc. reflexivity.
Qed.

Lemma messages_map fs faults keywords processes :
  Multiprocessing.messages fs faults keywords processes
  = map (message_of fs faults keywords) processes.
Proof. unfold Multiprocessing.messages. now rewrite messages_from. Qed.

Lemma message_tidy fs faults keywords p :
  tidy (Multiprocessing.results (message_of fs faults keywords p)).
Proof.
  unfold message_of. destruct (faults (snd p)); cbn.
  - apply tidy_empty.
  - apply scan_results_tidy.
Qed.

Lemma message_hits fs faults keywords p k :
  get_list (Multiprocessing.results (message_of fs faults keywords p)) k
  = filter (hit fs keywords k) (scanned faults [p]).
Proof.
  unfold message_of, scanned, alive. cbn [filter].
  destruct (faults (snd p)); cbn.
  - reflexivity.
  - rewrite app_nil_r. apply get_list_grow_none, get_scan_results.
Qed.

Lemma message_processed fs faults keywords p :
  Multiprocessing.files_processed (message_of fs faults keywords p)
  = length (scanned faults [p]).
Proof.
  unfold message_of, scanned, alive. cbn [filter].
  destruct (faults (snd p)); cbn; [reflexivity|now rewrite app_nil_r].
Qed.

Lemma message_errors fs faults keywords p :
  Multiprocessing.errors (message_of fs faults keywords p)
  = 1 - length (alive faults [p]).
Proof.
  unfold message_of, alive. cbn [filter]. now destruct (faults (snd p)).
Qed.

Lemma alive_cons faults p ps : alive faults (p :: ps) = alive faults [p] ++ alive faults ps.
Proof. unfold alive. cbn [filter]. now destruct (faults (snd p)). Qed.

Lemma alive_le faults ps : length (alive faults ps) <= length ps.
Proof. apply filter_length_le. Qed.

(** With no time-out the loop absorbs the messages in their order. *)
Lemma collect_all msgs : forall st,
  Multiprocessing.collect (length msgs) (map Some msgs) st
  = fold_left Multiprocessing.absorb msgs st.
Proof. induction msgs as [|m msgs IH]; intros st; cbn; [reflexivity|apply IH]. Qed.

(** The messages that the collection loop absorbs before it is left. *)
Fixpoint received (pending : nat) (gets : list (option Multiprocessing.result_data))
  : list Multiprocessing.result_data :=
  match pending, gets with
  | S pending', Some m :: gets' => m :: received pending' gets'
  | _, _ => []
  end.

(** The queue invents no message and repeats none: what the driver
    receives, together with what it does not, is what the workers put.
    Messages may be late or missing. *)
Definition faithful
           (channel : list Multiprocessing.result_data
                      -> list (option Multiprocessing.result_data)) : Prop :=
  forall msgs pending,
    exists lost, Permutation (received pending (channel msgs) ++ lost) msgs.

Lemma collect_received pending : forall gets st,
  Multiprocessing.collect pending gets st
  = fold_left Multiprocessing.absorb (received pending gets) st.
Proof.
  induction pending as [|pending IH]; intros gets st; cbn; [reflexivity|].
  destruct gets as [|[m|] gets]; cbn; [reflexivity|apply IH|reflexivity].
Qed.

Lemma received_some pending : forall msgs,
  received pending (map Some msgs) = firstn pending msgs.
Proof.
  induction pending as [|pending IH]; intros [|m msgs]; cbn; try reflexivity.
  now rewrite IH.
Qed.

Lemma reliable_faithful channel : reliable channel -> faithful channel.
Proof.
  intros R msgs pending. specialize (R msgs).
  apply Permutation_map_inv in R. destruct R as (msgs' & E & P).
  exists (skipn pending msgs'). rewrite E, received_some, firstn_skipn.
  now symmetry.
Qed.

Lemma reliable_receives_all channel msgs :
  reliable channel -> length (received (length msgs) (channel msgs)) = length msgs.
Proof.
  intros R. specialize (R msgs).
  apply Permutation_map_inv in R. destruct R as (msgs' & E & P).
  rewrite E, received_some, (Permutation_length P), firstn_all. reflexivity.
Qed.

(** The totals after the messages of the workers [ps] were absorbed. *)
Lemma absorb_messages fs faults keywords ps : forall self final_results,
  tidy final_results ->
  let st := fold_left Multiprocessing.absorb
                      (map (message_of fs faults keywords) ps)
                      (self, final_results) in
  (forall k, get (snd st) k
             = grow (get final_results k)
                    (filter (hit fs keywords k) (scanned faults ps))) /\
  tidy (snd st) /\
  Multiprocessing.processed_files (fst st)
  = Multiprocessing.processed_files self + length (scanned faults ps) /\
  Multiprocessing.error_count (fst st)
  = Multiprocessing.error_count self + (length ps - length (alive faults ps)).
Proof.
  induction ps as [|[chunk id] ps IH]; intros self final_results T; cbn zeta.
  - cbn. repeat split; try apply T; lia.
  - cbn [map fold_left].
    destruct (Multiprocessing.absorb (self, final_results)
                (message_of fs faults keywords (chunk, id))) as [self1 final1] eqn:E.
    unfold Multiprocessing.absorb in E. injection E as E1 E2.
    assert (T1 : tidy final1).
    { subst final1. apply extend_all_tidy; [exact T|apply message_tidy]. }
    destruct (IH self1 final1 T1) as (Hget & Htidy & Hp & He).
    assert (Hsc : scanned faults ((chunk, id) :: ps)
                  = scanned faults [(chunk, id)] ++ scanned faults ps).
    { destruct (faults id) eqn:F.
      - now rewrite !(scanned_dead _ _ _ _ _ F).
      - rewrite !(scanned_alive _ _ _ _ F). cbn. now rewrite app_nil_r. }
    split; [|split; [exact Htidy|]].
    + intros k. rewrite Hget. subst final1.
      rewrite get_extend_all_tidy by apply message_tidy.
      rewrite message_hits, grow_grow, Hsc, filter_app. reflexivity.
    + rewrite Hp, He, Hsc, length_app. subst self1.
      cbn [Multiprocessing.processed_files Multiprocessing.error_count].
      rewrite message_processed, message_errors.
      rewrite (alive_cons faults (chunk, id) ps), length_app.
      pose proof (alive_le faults ps). pose proof (alive_le faults [(chunk, id)]).
      cbn [length] in *. split; lia.
Qed.

End Driver.

(* ================================================================= *)
(** ** The runs of [search_files] *)

Module Runs.
Import DictFacts Scan Driver.

(** The files that reach a worker when [n] workers are configured. *)
Definition handed (n : Z) (file_paths : list string) : list string :=
  if (0 <? n)%Z then file_paths else [].

Lemma split_handed n file_paths chunks :
  Common.split_files_into_chunks n file_paths = Ok chunks ->
  concat chunks = handed n file_paths.
Proof.
  unfold handed. destruct (Z.ltb_spec 0 n) as [Hpos|Hneg].
  - destruct (Partition.split_chunks file_paths n Hpos) as (cs & E & _ & Hcat & _).
    rewrite E. now intros [= <-].
  - unfold Common.split_files_into_chunks.
    destruct (Z.eqb_spec n 0); [discriminate|].
    unfold range. replace (Z.to_nat n) with 0 by lia. now intros [= <-].
Qed.

Lemma split_raises n file_paths e :
  Common.split_files_into_chunks n file_paths = Raise e ->
  n = 0%Z /\ e = ZeroDivisionError.
Proof.
  unfold Common.split_files_into_chunks.
  destruct (Z.eqb_spec n 0); [now intros [= <-]|discriminate].
Qed.

Lemma split_zero file_paths :
  Common.split_files_into_chunks 0 file_paths = Raise ZeroDivisionError.
Proof. reflexivity. Qed.

Lemma split_nonzero n file_paths :
  n <> 0%Z -> exists chunks, Common.split_files_into_chunks n file_paths = Ok chunks.
Proof.
  intros Hn. unfold Common.split_files_into_chunks.
  destruct (Z.eqb_spec n 0); [contradiction|eauto].
Qed.

(** The four ways through [search_files] of the threading realization. *)
Inductive threading_path (fs : FileSystem) (faults : Faults)
          (sched : list (list string * nat) -> list (list string * nat))
          (self : Threading.ThreadingFileSearcher)
          (directory : string) (keywords : list string) (file_pattern : string)
  : Threading.run -> Prop :=
| th_missing :
    dir_exists fs directory = false ->
    threading_path fs faults sched self directory keywords file_pattern
      {| Threading.final := self; Threading.started := [];
         Threading.returned := Raise FileNotFoundError |}
| th_empty :
    dir_exists fs directory = true ->
    glob fs directory file_pattern = [] ->
    threading_path fs faults sched self directory keywords file_pattern
      {| Threading.final := self; Threading.started := [];
         Threading.returned := Ok [] |}
| th_zero :
    dir_exists fs directory = true ->
    glob fs directory file_pattern <> [] ->
    Threading.num_threads self = 0%Z ->
    threading_path fs faults sched self directory keywords file_pattern
      {| Threading.final :=
           Threading.reset self (length (glob fs directory file_pattern));
         Threading.started := [];
         Threading.returned := Raise ZeroDivisionError |}
| th_dispatch chunks :
    dir_exists fs directory = true ->
    glob fs directory file_pattern <> [] ->
    Threading.num_threads self <> 0%Z ->
    Common.split_files_into_chunks (Threading.num_threads self)
                                   (glob fs directory file_pattern) = Ok chunks ->
    let self2 :=
      fold_left (Threading.run_thread fs faults keywords)
                (sched (Common.spawn chunks))
                (Threading.reset self (length (glob fs directory file_pattern))) in
    threading_path fs faults sched self directory keywords file_pattern
      {| Threading.final := self2; Threading.started := Common.spawn chunks;
         Threading.returned := Ok (Threading.results self2) |}.

Lemma threading_paths fs faults sched self directory keywords file_pattern :
  threading_path fs faults sched self directory keywords file_pattern
    (Threading.search_files fs faults sched self directory keywords file_pattern).
Proof.
  unfold Threading.search_files.
  destruct (dir_exists fs directory) eqn:D; cbn [negb].
  - destruct (glob fs directory file_pattern) as [|f files] eqn:G.
    + now apply th_empty.
    + rewrite <- G. unfold Threading.split_files_into_chunks.
      cbn [Threading.reset Threading.num_threads].
      destruct (Z.eq_dec (Threading.num_threads self) 0) as [Z0|NZ].
      * rewrite Z0, split_zero. apply th_zero; [assumption| |assumption].
        rewrite G. discriminate.
      * destruct (split_nonzero _ (glob fs directory file_pattern) NZ) as (cs & E).
        rewrite E. apply th_dispatch; try assumption. rewrite G. discriminate.
  - now apply th_missing.
Qed.

(** The three ways through [search_files] of the multiprocessing
    realization, and a fourth that [__init__] rules out. *)
Inductive multiprocessing_path (fs : FileSystem) (faults : Faults)
          (channel : list Multiprocessing.result_data
                     -> list (option Multiprocessing.result_data))
          (self : Multiprocessing.MultiprocessingFileSearcher)
          (directory : string) (keywords : list string) (file_pattern : string)
  : Multiprocessing.run -> Prop :=
| mp_missing :
    dir_exists fs directory = false ->
    multiprocessing_path fs faults channel self directory keywords file_pattern
      {| Multiprocessing.final := self; Multiprocessing.started := [];
         Multiprocessing.returned := Raise FileNotFoundError |}
| mp_empty :
    dir_exists fs directory = true ->
    glob fs directory file_pattern = [] ->
    multiprocessing_path fs faults channel self directory keywords file_pattern
      {| Multiprocessing.final := self; Multiprocessing.started := [];
         Multiprocessing.returned := Ok [] |}
| mp_zero :
    dir_exists fs directory = true ->
    glob fs directory file_pattern <> [] ->
    Multiprocessing.num_processes self = 0%Z ->
    multiprocessing_path fs faults channel self directory keywords file_pattern
      {| Multiprocessing.final :=
           Multiprocessing.reset self (length (glob fs directory file_pattern));
         Multiprocessing.started := [];
         Multiprocessing.returned := Raise ZeroDivisionError |}
| mp_dispatch chunks :
    dir_exists fs directory = true ->
    glob fs directory file_pattern <> [] ->
    Multiprocessing.num_processes self <> 0%Z ->
    Common.split_files_into_chunks (Multiprocessing.num_processes self)
                                   (glob fs directory file_pattern) = Ok chunks ->
    let st :=
      Multiprocessing.collect
        (length (Common.spawn chunks))
        (channel (Multiprocessing.messages fs faults keywords (Common.spawn chunks)))
        (Multiprocessing.reset self (length (glob fs directory file_pattern)), []) in
    multiprocessing_path fs faults channel self directory keywords file_pattern
      {| Multiprocessing.final := fst st; Multiprocessing.started := Common.spawn chunks;
         Multiprocessing.returned := Ok (snd st) |}.

Lemma multiprocessing_paths fs faults channel self directory keywords file_pattern :
  multiprocessing_path fs faults channel self directory keywords file_pattern
    (Multiprocessing.search_files fs faults channel self directory keywords
                                  file_pattern).
Proof.
  unfold Multiprocessing.search_files.
  destruct (dir_exists fs directory) eqn:D; cbn [negb].
  - destruct (glob fs directory file_pattern) as [|f files] eqn:G.
    + now apply mp_empty.
    + rewrite <- G. unfold Multiprocessing.split_files_into_chunks.
      change (Multiprocessing.num_processes (Multiprocessing.reset self _))
        with (Multiprocessing.num_processes self).
      destruct (Z.eq_dec (Multiprocessing.num_processes self) 0) as [Z0|NZ].
      * rewrite Z0, split_zero. apply mp_zero; [assumption| |assumption].
        rewrite G. discriminate.
      * destruct (split_nonzero _ (glob fs directory file_pattern) NZ) as (cs & E).
        rewrite E.
        pose proof (mp_dispatch fs faults channel self directory keywords
                                file_pattern cs D ltac:(rewrite G; discriminate)
                                NZ E) as P.
        cbv zeta in P. revert P.
        destruct (Multiprocessing.collect _ _ _) as [self2 final_results].
        intros P. exact P.
  - now apply mp_missing.
Qed.

Lemma scanned_no_faults ws : scanned no_faults ws = flat_map fst ws.
Proof. unfold scanned. now rewrite alive_no_faults. Qed.

Lemma failures_perm fs l l' : Permutation l l' -> failures fs l = failures fs l'.
Proof.
  intros P. unfold failures. apply Permutation_length. now apply Permutation_filter.
Qed.

Ltac simpl_run :=
  cbn [Threading.final Threading.started Threading.returned
       Multiprocessing.final Multiprocessing.started Multiprocessing.returned].

(** *** The threading realization *)

Section ThreadingRun.
Variables (fs : FileSystem) (faults : Faults).
Variable sched : list (list string * nat) -> list (list string * nat).
Variable self : Threading.ThreadingFileSearcher.
Variables (directory : string) (keywords : list string) (file_pattern : string).
Hypothesis sched_fair : fair sched.

Let r := Threading.search_files fs faults sched self directory keywords file_pattern.

Lemma threading_num_threads :
  Threading.num_threads (Threading.final r) = Threading.num_threads self.
Proof.
  subst r. destruct (threading_paths fs faults sched self directory keywords
                                     file_pattern) as [D|D G|D G Z0|cs D G NZ E self2];
    simpl_run; try reflexivity.
  subst self2.
  now destruct (run_threads fs faults keywords (sched (Common.spawn cs))
                 (Threading.reset self (length (glob fs directory file_pattern)))
                 tidy_empty)
    as (_ & _ & _ & _ & -> & _).
Qed.

Lemma threading_started m :
  Threading.returned r = Ok m ->
  flat_map fst (Threading.started r)
  = handed (Threading.num_threads self) (glob fs directory file_pattern).
Proof.
  subst r. destruct (threading_paths fs faults sched self directory keywords
                                     file_pattern) as [D|D G|D G Z0|cs D G NZ E self2];
    simpl_run; try discriminate; intros _.
  - rewrite G. unfold handed. now destruct (0 <? _)%Z.
  - rewrite spawn_files. now apply split_handed.
Qed.

Lemma threading_result m :
  Threading.returned r = Ok m ->
  tidy m /\
  forall k, exists files,
    get m k = grow None files /\
    Permutation files
      (filter (hit fs keywords k) (scanned faults (Threading.started r))).
Proof.
  subst r. destruct (threading_paths fs faults sched self directory keywords
                                     file_pattern) as [D|D G|D G Z0|cs D G NZ E self2];
    simpl_run; try discriminate; intros [= <-].
  - split; [apply tidy_empty|]. intros k. exists []. split; reflexivity.
  - subst self2.
    destruct (run_threads fs faults keywords (sched (Common.spawn cs))
                          (Threading.reset self (length (glob fs directory file_pattern)))
                          tidy_empty) as (Hget & Htidy & _).
    split; [exact Htidy|]. intros k. eexists. split; [apply Hget|].
    apply Permutation_filter, scanned_perm, sched_fair.
Qed.

Lemma threading_counters m :
  Threading.returned r = Ok m ->
  glob fs directory file_pattern <> [] ->
  Threading.error_count (Threading.final r)
  = failures fs (scanned faults (Threading.started r)) /\
  Threading.processed_files (Threading.final r)
  = length (scanned faults (Threading.started r)).
Proof.
  subst r. destruct (threading_paths fs faults sched self directory keywords
                                     file_pattern) as [D|D G|D G Z0|cs D G NZ E self2];
    simpl_run; try discriminate; intros _ NE; [contradiction|].
  subst self2.
  destruct (run_threads fs faults keywords (sched (Common.spawn cs))
                        (Threading.reset self (length (glob fs directory file_pattern)))
                        tidy_empty) as (_ & _ & He & Hp & _).
  rewrite He, Hp. cbn.
  pose proof (scanned_perm faults _ _ (sched_fair (Common.spawn cs))) as P.
  split; [now apply failures_perm|now apply Permutation_length].
Qed.
End ThreadingRun.

(** *** The multiprocessing realization *)

Section MultiprocessingRun.
Variables (fs : FileSystem) (faults : Faults).
Variable channel : list Multiprocessing.result_data
                   -> list (option Multiprocessing.result_data).
Variable self : Multiprocessing.MultiprocessingFileSearcher.
Variables (directory : string) (keywords : list string) (file_pattern : string).
Hypothesis channel_reliable : reliable channel.

Let r := Multiprocessing.search_files fs faults channel self directory keywords
                                      file_pattern.

(** A reliable channel hands over the messages of all the workers. *)
Lemma collect_reliable ps st :
  exists ps',
    Permutation ps ps' /\
    Multiprocessing.collect
      (length ps) (channel (Multiprocessing.messages fs faults keywords ps)) st
    = fold_left Multiprocessing.absorb (map (message_of fs faults keywords) ps') st.
Proof.
  rewrite messages_map.
  pose proof (channel_reliable (map (message_of fs faults keywords) ps)) as P.
  apply Permutation_map_inv in P. destruct P as (msgs & E & P).
  symmetry in P. apply Permutation_map_inv in P. destruct P as (ps' & -> & P).
  exists ps'. split; [exact P|]. rewrite E.
  rewrite (Permutation_length P), <- (length_map (message_of fs faults keywords) ps').
  apply collect_all.
Qed.

Lemma multiprocessing_num_processes :
  Multiprocessing.num_processes (Multiprocessing.final r)
  = Multiprocessing.num_processes self.
Proof.
  subst r. destruct (multiprocessing_paths fs faults channel self directory keywords
                                           file_pattern)
    as [D|D G|D G Z0|cs D G NZ E st]; simpl_run; try reflexivity.
  subst st. destruct (collect_reliable (Common.spawn cs)
                        (Multiprocessing.reset self
                           (length (glob fs directory file_pattern)), []))
    as (ps' & _ & ->).
  generalize (map (message_of fs faults keywords) ps').
  assert (H : forall msgs st0,
             Multiprocessing.num_processes
               (fst (fold_left Multiprocessing.absorb msgs st0))
             = Multiprocessing.num_processes (fst st0)).
  { induction msgs as [|m msgs IH]; intros [s0 f0]; cbn; [reflexivity|].
    now rewrite IH. }
  intros msgs. now rewrite H.
Qed.

Lemma multiprocessing_started m :
  Multiprocessing.returned r = Ok m ->
  flat_map fst (Multiprocessing.started r)
  = handed (Multiprocessing.num_processes self) (glob fs directory file_pattern).
Proof.
  subst r. destruct (multiprocessing_paths fs faults channel self directory keywords
                                           file_pattern)
    as [D|D G|D G Z0|cs D G NZ E st]; simpl_run; try discriminate; intros _.
  - rewrite G. unfold handed. now destruct (0 <? _)%Z.
  - rewrite spawn_files. now apply split_handed.
Qed.

Lemma multiprocessing_result m :
  Multiprocessing.returned r = Ok m ->
  tidy m /\
  forall k, exists files,
    get m k = grow None files /\
    Permutation files
      (filter (hit fs keywords k) (scanned faults (Multiprocessing.started r))).
Proof.
  subst r. destruct (multiprocessing_paths fs faults channel self directory keywords
                                           file_pattern)
    as [D|D G|D G Z0|cs D G NZ E st]; simpl_run; try discriminate; intros [= <-].
  - split; [apply tidy_empty|]. intros k. exists []. split; reflexivity.
  - subst st. destruct (collect_reliable (Common.spawn cs)
                          (Multiprocessing.reset self
                             (length (glob fs directory file_pattern)), []))
      as (ps' & P & ->).
    destruct (absorb_messages fs faults keywords ps'
                (Multiprocessing.reset self (length (glob fs directory file_pattern)))
                [] tidy_empty) as (Hget & Htidy & _).
    split; [exact Htidy|]. intros k. eexists. split; [apply Hget|].
    apply Permutation_filter, scanned_perm. now symmetry.
Qed.

Lemma multiprocessing_counters m :
  Multiprocessing.returned r = Ok m ->
  glob fs directory file_pattern <> [] ->
  Multiprocessing.processed_files (Multiprocessing.final r)
  = length (scanned faults (Multiprocessing.started r)) /\
  Multiprocessing.error_count (Multiprocessing.final r)
  = length (Multiprocessing.started r)
    - length (alive faults (Multiprocessing.started r)).
Proof.
  subst r. destruct (multiprocessing_paths fs faults channel self directory keywords
                                           file_pattern)
    as [D|D G|D G Z0|cs D G NZ E st]; simpl_run; try discriminate; intros _ NE;
    [contradiction|].
  subst st. destruct (collect_reliable (Common.spawn cs)
                        (Multiprocessing.reset self
                           (length (glob fs directory file_pattern)), []))
    as (ps' & P & ->).
  destruct (absorb_messages fs faults keywords ps'
              (Multiprocessing.reset self (length (glob fs directory file_pattern)))
              [] tidy_empty) as (_ & _ & Hp & He).
  split; [etransitivity; [exact Hp|]|etransitivity; [exact He|]]; cbn.
  - now rewrite (Permutation_length (scanned_perm faults _ _ P)).
  - rewrite (Permutation_length P).
    unfold alive. now rewrite (Permutation_length (Permutation_filter _ _ _ P)).
Qed.
End MultiprocessingRun.

(** Whatever the queue delivers of the workers' messages, the returned
    mapping is made of the results of the workers whose message the
    driver received. *)
Lemma multiprocessing_collected fs faults channel self directory keywords file_pattern m :
  faithful channel ->
  Multiprocessing.returned
    (Multiprocessing.search_files fs faults channel self directory keywords file_pattern)
  = Ok m ->
  exists collected lost,
    Permutation (collected ++ lost)
                (Multiprocessing.started
                   (Multiprocessing.search_files fs faults channel self directory
                                                 keywords file_pattern)) /\
    tidy m /\
    (forall k, get m k
               = grow None (filter (hit fs keywords k) (scanned faults collected))) /\
    (reliable channel -> lost = []).
Proof.
  intros Fa.
  destruct (multiprocessing_paths fs faults channel self directory keywords file_pattern)
    as [D|D G|D G Z0|cs D G NZ E st]; simpl_run; try discriminate; intros [= <-].
  - exists [], []. repeat split; try apply tidy_empty; constructor.
  - subst st. rewrite collect_received, messages_map.
    destruct (Fa (map (message_of fs faults keywords) (Common.spawn cs))
                 (length (Common.spawn cs))) as (lostm & P).
    pose proof P as P'.
    apply Permutation_map_inv in P. destruct P as (ps' & E' & P).
    symmetry in E'. apply map_eq_app in E'.
    destruct E' as (collected & lost & -> & Ec & El).
    exists collected, lost. rewrite <- Ec.
    destruct (absorb_messages fs faults keywords collected
                (Multiprocessing.reset self (length (glob fs directory file_pattern)))
                [] tidy_empty) as (Hget & Htidy & _).
    split; [now symmetry|]. split; [exact Htidy|]. split; [exact Hget|].
    intros R. apply Permutation_length in P'. rewrite length_app, length_map in P'.
    pose proof (reliable_receives_all
                  channel (map (message_of fs faults keywords) (Common.spawn cs)) R)
      as L0.
    rewrite length_map in L0.
    assert (L : length lostm = 0) by lia.
    destruct lostm; [|discriminate]. now destruct lost.
Qed.

End Runs.

(* ================================================================= *)
(** ** Outcomes of whole runs *)

Module Outcome.
Import DictFacts Scan Driver Runs.

(** The same directory seen twice: same existence, same contents, the same
    files listed in possibly another order. *)
Definition unchanged (fs1 fs2 : FileSystem) : Prop :=
  (forall d, dir_exists fs1 d = dir_exists fs2 d) /\
  (forall p, read_text fs1 p = read_text fs2 p) /\
  (forall d pat, Permutation (glob fs1 d pat) (glob fs2 d pat)).

(** Two calls end alike: the same exception, or the same mapping from
    keywords to sets of files. *)
Definition same_outcome (r1 r2 : res (dict (list string))) : Prop :=
  match r1, r2 with
  | Ok m1, Ok m2 => same_mapping m1 m2
  | Raise e1, Raise e2 => e1 = e2
  | _, _ => False
  end.

(** A key stands for exactly the keywords matched by one of [files], no key
    maps to the empty list and no list repeats a file. *)
Definition keys_iff_matched (fs : FileSystem) (keywords files : list string)
           (m : dict (list string)) : Prop :=
  forall k,
    (mem m k = true <-> exists f, In f files /\ hit fs keywords k f = true) /\
    get m k <> Some [] /\
    NoDup (get_list m k).

(** When the threading driver raises, and what. *)
Definition threading_raises (fs : FileSystem) (self : Threading.ThreadingFileSearcher)
           (directory file_pattern : string) (e : exn) : Prop :=
  (dir_exists fs directory = false /\ e = FileNotFoundError) \/
  (dir_exists fs directory = true /\ glob fs directory file_pattern <> [] /\
   Threading.num_threads self = 0%Z /\ e = ZeroDivisionError).

(** When the multiprocessing driver raises, and what. *)
Definition multiprocessing_raises (fs : FileSystem)
           (self : Multiprocessing.MultiprocessingFileSearcher)
           (directory file_pattern : string) (e : exn) : Prop :=
  (dir_exists fs directory = false /\ e = FileNotFoundError) \/
  (dir_exists fs directory = true /\ glob fs directory file_pattern <> [] /\
   Multiprocessing.num_processes self = 0%Z /\ e = ZeroDivisionError).

Lemma threading_raise_iff fs faults sched self directory keywords file_pattern e :
  Threading.returned
    (Threading.search_files fs faults sched self directory keywords file_pattern)
  = Raise e
  <-> threading_raises fs self directory file_pattern e.
Proof.
  unfold threading_raises.
  destruct (threading_paths fs faults sched self directory keywords file_pattern)
    as [D|D G|D G Z0|cs D G NZ E self2]; simpl_run; split.
  - intros [= <-]. now left.
  - reflexivity || (intros [[_ ->]|(D' & _)]; [reflexivity|congruence]).
  - discriminate.
  - intros [[D' _]|(_ & G' & _)]; [congruence|contradiction].
  - intros [= <-]. right. auto.
  - intros [[D' _]|(_ & _ & _ & ->)]; [congruence|reflexivity].
  - discriminate.
  - intros [[D' _]|(_ & _ & Z0 & _)]; [congruence|contradiction].
Qed.

Lemma multiprocessing_raise_iff fs faults channel self directory keywords file_pattern e :
  Multiprocessing.returned
    (Multiprocessing.search_files fs faults channel self directory keywords file_pattern)
  = Raise e
  <-> multiprocessing_raises fs self directory file_pattern e.
Proof.
  unfold multiprocessing_raises.
  destruct (multiprocessing_paths fs faults channel self directory keywords file_pattern)
    as [D|D G|D G Z0|cs D G NZ E st]; simpl_run; split.
  - intros [= <-]. now left.
  - intros [[_ ->]|(D' & _)]; [reflexivity|congruence].
  - discriminate.
  - intros [[D' _]|(_ & G' & _)]; [congruence|contradiction].
  - intros [= <-]. right. auto.
  - intros [[D' _]|(_ & _ & _ & ->)]; [congruence|reflexivity].
  - discriminate.
  - intros [[D' _]|(_ & _ & Z0 & _)]; [congruence|contradiction].
Qed.



Lemma unchanged_raises_threading fs1 fs2 s1 s2 directory file_pattern e :
  unchanged fs1 fs2 -> Threading.num_threads s1 = Threading.num_threads s2 ->
  threading_raises fs1 s1 directory file_pattern e ->
  threading_raises fs2 s2 directory file_pattern e.
Proof.
  intros (HD & _ & HG) Hn [[D ->]|(D & G & Z0 & ->)]; [left|right].
  - rewrite <- HD. auto.
  - rewrite <- HD, <- Hn. repeat split; auto.
    intros G2. apply G. specialize (HG directory file_pattern). rewrite G2 in HG.
    now apply Permutation_nil.
Qed.

Lemma unchanged_raises_multiprocessing fs1 fs2 s1 s2 directory file_pattern e :
  unchanged fs1 fs2 ->
  Multiprocessing.num_processes s1 = Multiprocessing.num_processes s2 ->
  multiprocessing_raises fs1 s1 directory file_pattern e ->
  multiprocessing_raises fs2 s2 directory file_pattern e.
Proof.
  intros (HD & _ & HG) Hn [[D ->]|(D & G & Z0 & ->)]; [left|right].
  - rewrite <- HD. auto.
  - rewrite <- HD, <- Hn. repeat split; auto.
    intros G2. apply G. specialize (HG directory file_pattern). rewrite G2 in HG.
    now apply Permutation_nil.
Qed.

Lemma unchanged_sym fs1 fs2 : unchanged fs1 fs2 -> unchanged fs2 fs1.
Proof.
  intros (HD & HR & HG). repeat split; intros; symmetry; auto.
Qed.

Lemma unchanged_hit fs1 fs2 keywords k l :
  unchanged fs1 fs2 -> filter (hit fs1 keywords k) l = filter (hit fs2 keywords k) l.
Proof.
  intros (_ & HR & _). apply filter_ext. intros f. unfold hit. now rewrite HR.
Qed.

Lemma handed_perm n l l' : Permutation l l' -> Permutation (handed n l) (handed n l').
Proof. intros P. unfold handed. now destruct (0 <? n)%Z. Qed.

(** The mapping returned by a threading run without worker faults. *)
Lemma threading_mapping fs sched self directory keywords file_pattern m :
  fair sched ->
  Threading.returned
    (Threading.search_files fs no_faults sched self directory keywords file_pattern)
  = Ok m ->
  tidy m /\
  forall k, exists files,
    get m k = grow None files /\
    Permutation files
      (filter (hit fs keywords k)
              (handed (Threading.num_threads self) (glob fs directory file_pattern))).
Proof.
  intros F R.
  destruct (threading_result fs no_faults sched self directory keywords file_pattern
                             F m R) as [T H].
  split; [exact T|]. intros k. destruct (H k) as (files & E & P).
  exists files. split; [exact E|].
  rewrite scanned_no_faults in P.
  now rewrite (threading_started fs no_faults sched self directory keywords
                                 file_pattern m R) in P.
Qed.

(** The mapping returned by a multiprocessing run without worker faults. *)
Lemma multiprocessing_mapping fs channel self directory keywords file_pattern m :
  reliable channel ->
  Multiprocessing.returned
    (Multiprocessing.search_files fs no_faults channel self directory keywords
                                  file_pattern)
  = Ok m ->
  tidy m /\
  forall k, exists files,
    get m k = grow None files /\
    Permutation files
      (filter (hit fs keywords k)
              (handed (Multiprocessing.num_processes self)
                      (glob fs directory file_pattern))).
Proof.
  intros F R.
  destruct (multiprocessing_result fs no_faults channel self directory keywords
                                   file_pattern F m R) as [T H].
  split; [exact T|]. intros k. destruct (H k) as (files & E & P).
  exists files. split; [exact E|].
  rewrite scanned_no_faults in P.
  now rewrite (multiprocessing_started fs no_faults channel self directory keywords
                                       file_pattern m R) in P.
Qed.

(** Mappings described by permuted lists are the same mapping. *)
Lemma described_same (m1 m2 : dict (list string)) (l1 l2 : string -> list string) :
  (forall k, exists files, get m1 k = grow None files /\ Permutation files (l1 k)) ->
  (forall k, exists files, get m2 k = grow None files /\ Permutation files (l2 k)) ->
  (forall k, Permutation (l1 k) (l2 k)) ->
  same_mapping m1 m2.
Proof.
  intros H1 H2 P k.
  destruct (H1 k) as (f1 & E1 & P1). destruct (H2 k) as (f2 & E2 & P2).
  apply (grow_same f1 f2); try assumption.
  rewrite P1, (P k). now symmetry.
Qed.

Lemma described_keys fs keywords (m : dict (list string)) (files : list string) :
  NoDup files -> tidy m ->
  (forall k, exists found,
      get m k = grow None found /\
      Permutation found (filter (hit fs keywords k) files)) ->
  keys_iff_matched fs keywords files m.
Proof.
  intros ND [_ NE] H k. destruct (H k) as (found & E & P). repeat split.
  - intros M. apply (mem_grow_none _ _ _ E) in M.
    destruct found as [|f found]; [contradiction|].
    exists f. apply filter_In. apply (Permutation_in _ P). now left.
  - intros (f & Hin & Hhit). apply (mem_grow_none _ _ _ E).
    intros ->. apply Permutation_nil in P.
    assert (Hf : In f (filter (hit fs keywords k) files)) by (apply filter_In; auto).
    rewrite P in Hf. destruct Hf.
  - intros E'. now apply (NE k [] E').
  - rewrite (get_list_grow_none _ _ _ E).
    apply (Permutation_NoDup (Permutation_sym P)). now apply NoDup_filter.
Qed.

(** Runs of the threading realization on an unchanged directory with the
    same worker count end alike. *)
Lemma threading_rerun fs1 fs2 sched1 sched2 s1 s2 directory keywords file_pattern :
  unchanged fs1 fs2 -> fair sched1 -> fair sched2 ->
  Threading.num_threads s1 = Threading.num_threads s2 ->
  same_outcome
    (Threading.returned
       (Threading.search_files fs1 no_faults sched1 s1 directory keywords file_pattern))
    (Threading.returned
       (Threading.search_files fs2 no_faults sched2 s2 directory keywords file_pattern)).
Proof.
  intros U F1 F2 Hn.
  destruct (Threading.returned (Threading.search_files fs1 _ _ _ _ _ _)) as [m1|e1] eqn:R1;
    destruct (Threading.returned (Threading.search_files fs2 _ _ _ _ _ _)) as [m2|e2] eqn:R2;
    cbn.
  - destruct (threading_mapping _ _ _ _ _ _ _ F1 R1) as [_ H1].
    destruct (threading_mapping _ _ _ _ _ _ _ F2 R2) as [_ H2].
    apply (described_same _ _ _ _ H1 H2). intros k.
    rewrite (unchanged_hit fs1 fs2 keywords k _ U), Hn.
    apply Permutation_filter, handed_perm, U.
  - apply threading_raise_iff in R2.
    apply (unchanged_raises_threading fs2 fs1 s2 s1) in R2;
      [|now apply unchanged_sym|now symmetry].
    apply (threading_raise_iff fs1 no_faults sched1 s1 directory keywords) in R2.
    congruence.
  - apply threading_raise_iff in R1.
    apply (unchanged_raises_threading fs1 fs2 s1 s2) in R1; [|assumption|assumption].
    apply (threading_raise_iff fs2 no_faults sched2 s2 directory keywords) in R1.
    congruence.
  - apply threading_raise_iff in R1.
    apply (unchanged_raises_threading fs1 fs2 s1 s2) in R1; [|assumption|assumption].
    apply (threading_raise_iff fs2 no_faults sched2 s2 directory keywords) in R1.
    congruence.
Qed.

(** Runs of the multiprocessing realization on an unchanged directory with
    the same worker count end alike. *)
Lemma multiprocessing_rerun fs1 fs2 channel1 channel2 s1 s2 directory keywords
      file_pattern :
  unchanged fs1 fs2 -> reliable channel1 -> reliable channel2 ->
  Multiprocessing.num_processes s1 = Multiprocessing.num_processes s2 ->
  same_outcome
    (Multiprocessing.returned
       (Multiprocessing.search_files fs1 no_faults channel1 s1 directory keywords
                                     file_pattern))
    (Multiprocessing.returned
       (Multiprocessing.search_files fs2 no_faults channel2 s2 directory keywords
                                     file_pattern)).
Proof.
  intros U F1 F2 Hn.
  destruct (Multiprocessing.returned (Multiprocessing.search_files fs1 _ _ _ _ _ _))
    as [m1|e1] eqn:R1;
    destruct (Multiprocessing.returned (Multiprocessing.search_files fs2 _ _ _ _ _ _))
    as [m2|e2] eqn:R2;
    cbn.
  - destruct (multiprocessing_mapping _ _ _ _ _ _ _ F1 R1) as [_ H1].
    destruct (multiprocessing_mapping _ _ _ _ _ _ _ F2 R2) as [_ H2].
    apply (described_same _ _ _ _ H1 H2). intros k.
    rewrite (unchanged_hit fs1 fs2 keywords k _ U), Hn.
    apply Permutation_filter, handed_perm, U.
  - apply multiprocessing_raise_iff in R2.
    apply (unchanged_raises_multiprocessing fs2 fs1 s2 s1) in R2;
      [|now apply unchanged_sym|now symmetry].
    apply (multiprocessing_raise_iff fs1 no_faults channel1 s1 directory keywords) in R2.
    congruence.
  - apply multiprocessing_raise_iff in R1.
    apply (unchanged_raises_multiprocessing fs1 fs2 s1 s2) in R1; [|assumption|assumption].
    apply (multiprocessing_raise_iff fs2 no_faults channel2 s2 directory keywords) in R1.
    congruence.
  - apply multiprocessing_raise_iff in R1.
    apply (unchanged_raises_multiprocessing fs1 fs2 s1 s2) in R1; [|assumption|assumption].
    apply (multiprocessing_raise_iff fs2 no_faults channel2 s2 directory keywords) in R1.
    congruence.
Qed.

Lemma unchanged_refl fs : unchanged fs fs.
Proof. repeat split; intros; reflexivity. Qed.

End Outcome.

(* ================================================================= *)
(** ** The scenario of the specification *)

Module Scenario.

(** A directory [corpus] with [a.txt], [b.txt] and an unreadable [c.txt]. *)
Definition fs : FileSystem :=
  {| dir_exists := fun d => String.eqb d "corpus";
     glob := fun d pat =>
               if String.eqb d "corpus" && String.eqb pat "*.txt"
               then ["a.txt"; "b.txt"; "c.txt"]%string
               else [];
     read_text := fun p =>
                    if String.eqb p "a.txt" then Some (of_string "python programming")
                    else if String.eqb p "b.txt" then Some (of_string "data structure")
                    else None |}.

Definition keywords : list string := ["python"; "data"; "missing"]%string.

(** The mapping that both realizations return. *)
Definition mapping : dict (list string) :=
  [("python", ["a.txt"]); ("data", ["b.txt"])]%string.

(** Threads and queue messages in the order of their creation. *)
Definition in_order : list (list string * nat) -> list (list string * nat) :=
  fun threads => threads.

Definition fifo : list Multiprocessing.result_data
                  -> list (option Multiprocessing.result_data) :=
  map Some.

(** Worker 2 fails, the others do not. *)
Definition second_fails : Faults :=
  fun id => if Nat.eqb id 2 then Some "out of memory"%string else None.

(** A file system with one readable file of the given content. *)
Definition single (content : string) : FileSystem :=
  {| dir_exists := fun _ => true;
     glob := fun _ _ => ["doc.txt"%string];
     read_text := fun _ => Some (of_string content) |}.

End Scenario.

(* ================================================================= *)
(** ** The properties of the specification *)

Import DictFacts Scan Driver Runs Outcome.

(** C1. For a file list of length N and a worker count W > 0,
    [split_files_into_chunks] of either realization returns exactly W chunks
    whose concatenation in order is the original list, chunk [i] being the
    slice from [offset i] to [offset (i+1)] (so the chunks occupy
    consecutive, non-overlapping ranges of positions, and share no file
    when the list names each file once); the first N mod W chunks have
    N div W + 1 files and the others N div W, so sizes differ by at most 1. *)
Theorem C1_split_files_into_chunks
        (th : Threading.ThreadingFileSearcher)
        (mp : Multiprocessing.MultiprocessingFileSearcher)
        (W : Z) (file_list : list string) :
  (0 < W)%Z ->
  Threading.num_threads th = W ->
  Multiprocessing.num_processes mp = W ->
  Partition.well_split W file_list (Threading.split_files_into_chunks th file_list) /\
  Partition.well_split W file_list (Multiprocessing.split_files_into_chunks mp file_list).
Proof.
  intros HW Ht Hm.
  unfold Threading.split_files_into_chunks, Multiprocessing.split_files_into_chunks.
  rewrite Ht, Hm. split; now apply Partition.split_well.
Qed.

Lemma C1_split_files_into_chunks_witness :
  let files := ["a"; "b"; "c"; "d"; "e"; "f"; "g"]%string in
  (0 < 3)%Z /\
  Partition.well_split 3 files
    (Threading.split_files_into_chunks (Threading.init 3) files) /\
  Partition.well_split 3 files
    (Multiprocessing.split_files_into_chunks (Multiprocessing.init 8 (Some 3%Z)) files).
Proof.
  intros files. split; [lia|].
  apply (C1_split_files_into_chunks (Threading.init 3)
                                    (Multiprocessing.init 8 (Some 3%Z)) 3 files);
    [lia|reflexivity|reflexivity].
Defined.

(** The chunks of seven files for three workers. *)
Example split_seven_for_three :
  Common.split_files_into_chunks 3 ["a"; "b"; "c"; "d"; "e"; "f"; "g"]%string
  = Ok [["a"; "b"; "c"]; ["d"; "e"]; ["f"; "g"]]%string.
Proof. reflexivity. Qed.

(** More workers than files: the trailing chunks are empty. *)
Example split_three_for_five :
  Common.split_files_into_chunks 5 ["a"; "b"; "c"]%string
  = Ok [["a"]; ["b"]; ["c"]; []; []]%string.
Proof. reflexivity. Qed.

(** What either matcher reports for a listed keyword of a readable file. *)
Lemma reported_found (raw : text) (keywords : list string) (keyword : string) :
  In keyword keywords ->
  get (Common.scan_content raw keywords) keyword
  = Some (Common.keyword_found (lower raw) keyword).
Proof.
  intros Hin. unfold Common.scan_content. rewrite get_comprehension.
  assert (E : existsb (String.eqb keyword) keywords = true).
  { apply existsb_exists. exists keyword. split; [exact Hin|apply String.eqb_refl]. }
  now rewrite E.
Qed.

(* ================================================================= *)
(** ** The matcher on any text *)

Module Unicode.

(** A [str] as the sequence of its code points. *)
Definition text : Type := list N.

Inductive item : Type :=
| WordBoundary            (* \b *)
| Lit (c : N).

Definition pattern : Type := list item.

(** [re.escape(s)]: every character of [s] matches itself. *)
Definition escape (s : text) : pattern := map Lit s.

(** The character before the position reached after reading [l]. *)
Definition last_opt (prev : option N) (l : text) : option N :=
  fold_left (fun _ c => Some c) l prev.

Section Matcher.

(** What the interpreter supplies: [str.lower], which may change the
    number of characters and need not work character by character, and the
    class [\w] of [re] on [str] patterns. *)
Variable lower : text -> text.
Variable is_word_char : N -> bool.

Definition wordy (o : option N) : bool :=
  match o with
  | Some c => is_word_char c
  | None => false
  end.

(** [\b]: exactly one side is a word character, the string edges counting
    as non-word. *)
Definition at_boundary (prev : option N) (rest : text) : bool :=
  xorb (wordy prev) (wordy (hd_error rest)).

Fixpoint match_here (p : pattern) (prev : option N) (rest : text) : bool :=
  match p with
  | [] => true
  | WordBoundary :: p' =>
      if at_boundary prev rest then match_here p' prev rest else false
  | Lit c :: p' =>
      match rest with
      | x :: rest' => if N.eqb x c then match_here p' (Some x) rest' else false
      | [] => false
      end
  end.

Fixpoint search_from (p : pattern) (prev : option N) (rest : text) : bool :=
  match_here p prev rest
  || match rest with
     | [] => false
     | x :: rest' => search_from p (Some x) rest'
     end.

(** [bool(re.search(p, s))]. *)
Definition search (p : pattern) (s : text) : bool := search_from p None s.

(** [pattern = r'\b' + re.escape(keyword.lower()) + r'\b']. *)
Definition keyword_pattern (keyword : text) : pattern :=
  [WordBoundary] ++ escape (lower keyword) ++ [WordBoundary].

(** [found_keywords[keyword]] for [content = file.read().lower()], the
    text [raw] being what [file.read()] gave. *)
Definition reported (raw keyword : text) : bool :=
  let content := lower raw in
  search (keyword_pattern keyword) content.

(** The text begins and ends with a word character. *)
Definition word_edged (t : text) : Prop :=
  exists c middle d,
    (t = [c] \/ t = c :: middle ++ [d]) /\
    is_word_char c = true /\ (t = [c] \/ is_word_char d = true).

Definition bounded_left (before : text) : Prop :=
  before = [] \/ exists b c, before = b ++ [c] /\ is_word_char c = false.

Definition bounded_right (after : text) : Prop :=
  after = [] \/ exists c a, after = c :: a /\ is_word_char c = false.

(** The keyword occurs in the content, both lower-cased, as a whole word
    bounded by non-word characters or string edges. *)
Definition occurs_as_whole_word (keyword raw : text) : Prop :=
  exists before after,
    lower raw = before ++ lower keyword ++ after /\
    bounded_left before /\ bounded_right after.

Lemma last_read_snoc prev l c : last_opt prev (l ++ [c]) = Some c.
Proof. unfold last_opt. now rewrite fold_left_app. Qed.

Lemma wordy_last (before : text) :
  wordy (last_opt None before) = false <-> bounded_left before.
Proof.
destruct (Matcher.snoc_case before) as [->|(b & c & ->)].
- cbn. split; [now left|reflexivity].
- rewrite last_read_snoc. cbn. split.
  + intros H. right. eauto.
  + intros [H|(b' & c' & E & H)].
    * destruct b; discriminate.
    * apply app_inj_tail in E. destruct E as [_ ->]. exact H.
Qed.

Lemma wordy_head (after : text) :
  wordy (hd_error after) = false <-> bounded_right after.
Proof.
destruct after as [|c a]; cbn.
- split; [now left|reflexivity].
- split.
  + intros H. right. eauto.
  + intros [H|(c' & a' & E & H)]; [discriminate|congruence].
Qed.

(** A run of literals matches exactly a prefix equal to it. *)
Lemma literals_match (kw : text) (p : pattern) :
  forall prev rest,
    match_here (escape kw ++ p) prev rest = true <->
    exists after, rest = kw ++ after /\ match_here p (last_opt prev kw) after = true.
Proof.
induction kw as [|c kw IH]; intros prev rest.
- cbn. split; [eauto|]. now intros (after & -> & H).
- cbn [escape map app match_here]. destruct rest as [|x rest].
  + split; [discriminate|]. intros (after & E & _). discriminate.
  + destruct (N.eqb_spec x c) as [->|Hne].
    * fold (escape kw). rewrite IH. cbn. split.
      -- intros (after & -> & H). eauto.
      -- intros (after & E & H). injection E as ->. eauto.
    * split; [discriminate|]. intros (after & E & _). congruence.
Qed.

(** The search succeeds exactly when the pattern matches at some cut. *)
Lemma search_cut (p : pattern) :
  forall rest prev,
    search_from p prev rest = true <->
    exists before here,
      rest = before ++ here /\ match_here p (last_opt prev before) here = true.
Proof.
induction rest as [|x rest IH]; intros prev; cbn [search_from].
- rewrite orb_false_r. split.
  + intros H. exists [], []. auto.
  + intros (before & here & E & H).
    symmetry in E. apply app_eq_nil in E. destruct E as [-> ->]. exact H.
- rewrite orb_true_iff, IH. split.
  + intros [H|(before & here & -> & H)].
    * exists [], (x :: rest). auto.
    * exists (x :: before), here. auto.
  + intros (before & here & E & H). destruct before as [|y before].
    * left. cbn in E. subst here. exact H.
    * right. injection E as -> ->. eauto.
Qed.

(** Where a keyword pattern is found. *)
Lemma keyword_cut (content keyword : text) :
  search (keyword_pattern keyword) content = true <->
  exists before after,
    content = before ++ lower keyword ++ after /\
    at_boundary (last_opt None before) (lower keyword ++ after) = true /\
    at_boundary (last_opt (last_opt None before) (lower keyword)) after = true.
Proof.
unfold search, keyword_pattern. rewrite search_cut. split.
- intros (before & here & -> & H). cbn [app match_here] in H.
  destruct (at_boundary _ here) eqn:B; [|discriminate].
  apply literals_match in H. destruct H as (after & -> & H).
  cbn [match_here] in H.
  destruct (at_boundary _ after) eqn:B'; [|discriminate].
  exists before, after. auto.
- intros (before & after & -> & B & B').
  exists before, (lower keyword ++ after). split; [reflexivity|].
  cbn [app match_here]. rewrite B. apply literals_match.
  exists after. split; [reflexivity|]. cbn. now rewrite B'.
Qed.

(** Both edges of a word-edged text, as the boundaries see them. *)
Lemma word_edged_ends (t : text) :
  word_edged t ->
  (forall after, wordy (hd_error (t ++ after)) = true) /\
  (forall prev, wordy (last_opt prev t) = true).
Proof.
intros (c & middle & d & Hshape & Hc & Hd).
destruct Hshape as [->| ->].
- split; intros; exact Hc.
- destruct Hd as [E|Hd].
  + injection E as E. destruct middle; discriminate.
  + split; [intros; exact Hc|]. intros prev.
    change (c :: middle ++ [d]) with ((c :: middle) ++ [d]).
    now rewrite last_read_snoc.
Qed.

End Matcher.

(** The code points of a text of the model. *)
Definition codes (s : Text.text) : text := map Text.code s.

Definition item_codes (i : Re.item) : item :=
  match i with
  | Re.WordBoundary => WordBoundary
  | Re.Lit c => Lit (Text.code c)
  end.

Lemma code_inj a b : Text.code a = Text.code b -> a = b.
Proof.
unfold Text.code. intros H. apply (f_equal ascii_of_N) in H.
now rewrite !ascii_N_embedding in H.
Qed.

Lemma code_eqb a b : N.eqb (Text.code a) (Text.code b) = Ascii.eqb a b.
Proof.
destruct (Ascii.eqb_spec a b) as [->|Hne].
- apply N.eqb_refl.
- apply N.eqb_neq. intros H. apply Hne. now apply code_inj.
Qed.

Section Latin1.

(** On texts of code points below 256 the interpreter's [str.lower] and
    [\w] are the tables of [Text]. *)
Variable lower : text -> text.
Variable is_word_char : N -> bool.
Hypothesis lower_codes : forall s, lower (codes s) = codes (Text.lower s).
Hypothesis word_codes : forall c, is_word_char (Text.code c) = Text.is_word_char c.

Lemma wordy_codes o :
  wordy is_word_char (option_map Text.code o) = Re.wordy o.
Proof. destruct o as [c|]; [apply word_codes|reflexivity]. Qed.

Lemma at_boundary_codes prev rest :
  at_boundary is_word_char (option_map Text.code prev) (codes rest)
  = Re.at_boundary prev rest.
Proof.
unfold at_boundary, Re.at_boundary. rewrite wordy_codes. f_equal.
destruct rest as [|c rest]; [reflexivity|apply word_codes].
Qed.

Lemma match_here_codes p : forall prev rest,
  match_here is_word_char (map item_codes p) (option_map Text.code prev) (codes rest)
  = Re.match_here p prev rest.
Proof.
induction p as [|[|c] p IH]; intros prev rest; cbn [map item_codes match_here Re.match_here].
- reflexivity.
- now rewrite at_boundary_codes, IH.
- destruct rest as [|x rest]; [reflexivity|]. cbn [codes map].
  rewrite code_eqb. destruct (Ascii.eqb x c); [|reflexivity].
  apply (IH (Some x)).
Qed.

Lemma search_from_codes p : forall rest prev,
  search_from is_word_char (map item_codes p) (option_map Text.code prev) (codes rest)
  = Re.search_from p prev rest.
Proof.
induction rest as [|x rest IH]; intros prev;
  pose proof (match_here_codes p prev) as M; unfold codes in *;
  cbn [search_from Re.search_from map].
- specialize (M []). cbn [map] in M. now rewrite M.
- specialize (M (x :: rest)). cbn [map] in M. rewrite M. f_equal.
  apply (IH (Some x)).
Qed.

(** The matcher of the model is the matcher on code points. *)
Lemma reported_codes (raw : Text.text) (keyword : string) :
  reported lower is_word_char (codes raw) (codes (of_string keyword))
  = Common.keyword_found (Text.lower raw) keyword.
Proof.
unfold reported, Common.keyword_found, search, Re.search. cbv zeta.
rewrite !lower_codes.
replace (keyword_pattern lower (codes (of_string keyword)))
  with (map item_codes (Common.keyword_pattern keyword)).
- apply (search_from_codes _ _ None).
- unfold keyword_pattern, Common.keyword_pattern. rewrite lower_codes.
  rewrite !map_app. cbn [map item_codes]. f_equal. f_equal.
  unfold escape, Re.escape, codes. rewrite !map_map. reflexivity.
Qed.

End Latin1.

(** A finite part of the interpreter's tables, to run the matcher on: the
    code points below 256 and U+0130, whose lower case is [i] followed by
    the combining dot U+0307, not a word character.  Other code points are
    left as they are and count as non-word. *)
Module Sample.

Definition lower_code (c : N) : text :=
  if (c =? 304)%N then [105; 775]%N
  else if (c <? 256)%N then [Text.code (Text.lower_char (ascii_of_N c))]
  else [c].

Definition lower (t : text) : text := flat_map lower_code t.

Definition is_word_char (c : N) : bool :=
  if (c <? 256)%N then Text.is_word_char (ascii_of_N c) else (c =? 304)%N.

Lemma code_small c : (Text.code c < 256)%N.
Proof. destruct c as [[] [] [] [] [] [] [] []]; reflexivity. Qed.

Lemma lower_codes s : lower (codes s) = codes (Text.lower s).
Proof.
unfold lower, codes, Text.lower. induction s as [|c s IH]; [reflexivity|].
cbn [map flat_map]. rewrite IH. unfold lower_code.
pose proof (code_small c) as H.
destruct (N.eqb_spec (Text.code c) 304) as [E|_]; [lia|].
destruct (N.ltb_spec (Text.code c) 256) as [_|G]; [|lia].
unfold Text.code at 2. now rewrite ascii_N_embedding.
Qed.

Lemma word_codes c : is_word_char (Text.code c) = Text.is_word_char c.
Proof.
unfold is_word_char. pose proof (code_small c) as H.
destruct (N.ltb_spec (Text.code c) 256) as [_|G]; [|lia].
unfold Text.code. now rewrite ascii_N_embedding.
Qed.

End Sample.

End Unicode.

(** What either realization stores for a listed keyword of a readable file
    is the value of the matcher on the code points of the content and of
    the keyword. *)
Lemma realizations_report
      (lower : Unicode.text -> Unicode.text) (is_word_char : N -> bool)
      (fs : FileSystem) (self : Threading.ThreadingFileSearcher)
      (filepath : string) (raw : text) (keywords : list string) (keyword : string) :
  (forall s, lower (Unicode.codes s) = Unicode.codes (Text.lower s)) ->
  (forall c, is_word_char (Text.code c) = Text.is_word_char c) ->
  read_text fs filepath = Some raw ->
  In keyword keywords ->
  get (snd (Threading.search_keywords_in_file fs self filepath keywords)) keyword
  = Some (Unicode.reported lower is_word_char (Unicode.codes raw)
                           (Unicode.codes (of_string keyword))) /\
  get (snd (Multiprocessing.search_keywords_in_file fs filepath keywords)) keyword
  = Some (Unicode.reported lower is_word_char (Unicode.codes raw)
                           (Unicode.codes (of_string keyword))).
Proof.
  intros Hl Hw R Hin.
  unfold Threading.search_keywords_in_file, Multiprocessing.search_keywords_in_file.
  rewrite R. cbn [snd]. rewrite reported_found by assumption.
  rewrite (Unicode.reported_codes lower is_word_char Hl Hw). auto.
Qed.

(** C2, as amended.  For every content and every keyword whose lower-cased
    form begins and ends with a word character, whatever [str.lower] and
    [\w] are on the characters involved, the value that either matcher
    reports for the keyword is [True] if and only if the lower-cased
    keyword occurs in the lower-cased content as a whole word, bounded by
    non-word characters or string edges. *)
Theorem C2_whole_word_matching
        (lower : Unicode.text -> Unicode.text) (is_word_char : N -> bool)
        (raw keyword : Unicode.text) :
  Unicode.word_edged is_word_char (lower keyword) ->
  (Unicode.reported lower is_word_char raw keyword = true
   <-> Unicode.occurs_as_whole_word lower is_word_char keyword raw).
Proof.
intros We. destruct (Unicode.word_edged_ends _ _ We) as [Hhd Hlast].
unfold Unicode.reported, Unicode.occurs_as_whole_word. cbv zeta.
rewrite Unicode.keyword_cut. split.
- intros (before & after & E & B & B'). exists before, after.
  split; [exact E|]. unfold Unicode.at_boundary in B, B'.
  rewrite Hhd in B. rewrite Hlast in B'.
  split; [apply Unicode.wordy_last|apply Unicode.wordy_head].
  + destruct (Unicode.wordy _ (Unicode.last_opt None before));
      [discriminate|reflexivity].
  + destruct (Unicode.wordy _ (hd_error after)); [discriminate|reflexivity].
- intros (before & after & E & L & R). exists before, after.
  apply Unicode.wordy_last in L. apply Unicode.wordy_head in R.
  split; [exact E|]. unfold Unicode.at_boundary.
  now rewrite Hhd, Hlast, L, R.
Qed.

Lemma C2_whole_word_matching_witness :
  let raw := Unicode.codes (of_string "I like Python a lot") in
  let keyword := Unicode.codes (of_string "Python") in
  Unicode.word_edged Unicode.Sample.is_word_char (Unicode.Sample.lower keyword) /\
  (Unicode.reported Unicode.Sample.lower Unicode.Sample.is_word_char raw keyword = true
   <-> Unicode.occurs_as_whole_word Unicode.Sample.lower Unicode.Sample.is_word_char
                                    keyword raw).
Proof.
  intros raw keyword.
  assert (We : Unicode.word_edged Unicode.Sample.is_word_char
                                  (Unicode.Sample.lower keyword)).
  { exists 112%N, [121; 116; 104; 111]%N, 110%N.
    split; [now right|]. split; [reflexivity|now right]. }
  split; [exact We|].
  exact (C2_whole_word_matching Unicode.Sample.lower Unicode.Sample.is_word_char
                                raw keyword We).
Defined.

(** The keyword [YENİ] begins and ends with a word character, its
    lower-cased form ends with the combining dot: it is not reported in
    the content [YENİ ÜRÜN]. *)
Example dotted_capital_i :
  let keyword := [89; 69; 78; 304]%N in
  let raw := [89; 69; 78; 304; 32; 220; 82; 220; 78]%N in
  Unicode.word_edged Unicode.Sample.is_word_char keyword /\
  Unicode.Sample.lower keyword = [121; 101; 110; 105; 775]%N /\
  Unicode.reported Unicode.Sample.lower Unicode.Sample.is_word_char raw keyword = false.
Proof.
  cbv zeta. split; [|split; reflexivity].
  exists 89%N, [69; 78]%N, 304%N. split; [now right|]. split; [reflexivity|now right].
Qed.

(** The keyword [c++] is not reported in a text where it stands as a whole
    word between spaces: after its last character [\b] asks for a word
    character on one side. *)
Lemma C2_counterexample :
  let fs := Scenario.single "learn c++ today" in
  get (snd (Threading.search_keywords_in_file fs (Threading.init 4) "doc.txt"
                                              ["c++"%string])) "c++"
  = Some false /\
  get (snd (Multiprocessing.search_keywords_in_file fs "doc.txt" ["c++"%string])) "c++"
  = Some false /\
  Matcher.occurs_as_whole_word "c++" (of_string "learn c++ today").
Proof.
  cbv zeta. split; [reflexivity|]. split; [reflexivity|].
  exists (of_string "learn "), (of_string " today").
  split; [reflexivity|]. split; right.
  - exists (of_string "learn"), " "%char. split; reflexivity.
  - exists " "%char, (of_string "today"). split; reflexivity.
Qed.

(** [Python] and [PYTHON] match the keyword [python]; [pythonic] and
    [ipython] do not. *)
Example python_examples :
  Common.keyword_found (lower (of_string "Python")) "python" = true /\
  Common.keyword_found (lower (of_string "PYTHON")) "python" = true /\
  Common.keyword_found (lower (of_string "It is pythonic")) "python" = false /\
  Common.keyword_found (lower (of_string "run ipython now")) "python" = false.
Proof. repeat split; reflexivity. Qed.

(** A pattern of non-word characters is found between two letters. *)
Example plus_between_letters :
  Common.keyword_found (lower (of_string "a+b")) "+" = true.
Proof. reflexivity. Qed.

(** The fallback of the [except] blocks reports [False] for every keyword. *)
Lemma all_false_values (keywords : list string) :
  Forall (fun kv : string * bool => snd kv = false) (Common.all_false keywords).
Proof.
  unfold Common.all_false, comprehension.
  assert (Hset : forall (d : dict bool) k,
             Forall (fun kv : string * bool => snd kv = false) d ->
             Forall (fun kv : string * bool => snd kv = false) (set d k false)).
  { induction d as [|[k0 b] d IH]; intros k F; cbn.
    - repeat constructor.
    - inversion F; subst. destruct (String.eqb k k0); constructor; auto. }
  assert (Hfill : forall ks (d : dict bool),
             Forall (fun kv : string * bool => snd kv = false) d ->
             Forall (fun kv : string * bool => snd kv = false)
                    (fold_left (fun d k => set d k false) ks d)).
  { induction ks as [|k ks IH]; intros d F; cbn; [exact F|]. apply IH, Hset, F. }
  apply Hfill. constructor.
Qed.

(** Nothing is recorded for a file that no keyword was found in. *)
Lemma record_nothing (local_results : dict (list string)) (f : string)
      (found : dict bool) :
  Forall (fun kv : string * bool => snd kv = false) found ->
  Common.record_found local_results f found = local_results.
Proof.
  unfold Common.record_found. revert local_results.
  induction found as [|[k b] found IH]; intros local_results F; cbn; [reflexivity|].
  inversion F as [|? ? Hb F']; subst. cbn in Hb. subst b. now apply IH.
Qed.

Lemma scan_results_app fs keywords l1 l2 local_results :
  scan_results fs keywords local_results (l1 ++ l2)
  = scan_results fs keywords (scan_results fs keywords local_results l1) l2.
Proof.
  revert local_results. induction l1 as [|f l1 IH]; intros local_results; cbn.
  - reflexivity.
  - apply IH.
Qed.

(** An unreadable file leaves the accumulated results as they were. *)
Lemma scan_results_skip fs keywords before bad after :
  read_text fs bad = None ->
  scan_results fs keywords [] (before ++ bad :: after)
  = scan_results fs keywords [] (before ++ after).
Proof.
  intros R. rewrite !scan_results_app. cbn [scan_results].
  unfold found_keywords at 1. rewrite R.
  now rewrite record_nothing by apply all_false_values.
Qed.

Lemma failures_skip fs before bad after :
  read_text fs bad = None ->
  failures fs (before ++ bad :: after) = failures fs (before ++ after) + 1.
Proof.
  intros R. rewrite !failures_app. unfold failures at 2. cbn [filter].
  unfold unreadable at 1. rewrite R. cbn [length]. fold (failures fs after). lia.
Qed.

(** In the threading realization an unreadable file adds no match, counts
    one error and leaves the contribution of the other files of the chunk
    as it is; it is counted as processed all the same. *)
Lemma threading_unreadable_file fs faults self before bad after keywords thread_id :
  read_text fs bad = None ->
  faults thread_id = None ->
  exists without with_bad,
    Threading.worker_thread fs faults self (before ++ after) keywords thread_id
    = Ok without /\
    Threading.worker_thread fs faults self (before ++ bad :: after) keywords thread_id
    = Ok with_bad /\
    Threading.results with_bad = Threading.results without /\
    Threading.error_count with_bad = Threading.error_count without + 1 /\
    Threading.processed_files with_bad = Threading.processed_files without + 1.
Proof.
  intros R F. rewrite !worker_thread_alive by assumption.
  eexists; eexists. split; [reflexivity|]. split; [reflexivity|].
  cbn. rewrite scan_results_skip, failures_skip by assumption.
  rewrite !length_app. cbn [length]. repeat split; lia.
Qed.

(** In the multiprocessing realization the worker reports no error
    whatever it reads: only the handler of lines 77-79 adds to
    [error_count], and [search_keywords_in_file] never raises. *)
Lemma multiprocessing_reports_no_error fs file_chunk keywords process_id queue :
  exists m,
    Multiprocessing.worker_process fs no_faults file_chunk keywords process_id queue
    = queue ++ [m] /\
    Multiprocessing.errors m = 0 /\
    Multiprocessing.files_processed m = length file_chunk.
Proof.
  rewrite worker_process_puts. eexists. split; [reflexivity|]. split; reflexivity.
Qed.

(** C3, where the code departs from it.  The worker process that scans the
    unreadable [c.txt] of the scenario puts a message with no match, one
    processed file and an error count of zero. *)
Theorem C3_unreadable_file_multiprocessing :
  read_text Scenario.fs "c.txt" = None /\
  Multiprocessing.worker_process Scenario.fs no_faults ["c.txt"%string]
                                 Scenario.keywords 2 []
  = [{| Multiprocessing.process_id := 2;
        Multiprocessing.results := [];
        Multiprocessing.files_processed := 1;
        Multiprocessing.errors := 0;
        Multiprocessing.critical_error := None |}].
Proof. split; reflexivity. Qed.

(** The same chunk in the threading realization: one error is counted. *)
Example unreadable_file_threading :
  Threading.worker_thread Scenario.fs no_faults (Threading.init 2) ["c.txt"%string]
                          Scenario.keywords 2
  = Ok {| Threading.num_threads := 2; Threading.results := [];
          Threading.error_count := 1; Threading.processed_files := 1;
          Threading.total_files := 0 |}.
Proof. reflexivity. Qed.

(** The scenario evaluated with the files listed as [a.txt], [b.txt],
    [c.txt] and the workers finishing in the order of their creation. *)
Example scenario_in_order :
  let t := Threading.search_files Scenario.fs no_faults Scenario.in_order
                                  (Threading.init 2)
                                  "corpus" Scenario.keywords "*.txt" in
  let p := Multiprocessing.search_files Scenario.fs no_faults Scenario.fifo
                                        (Multiprocessing.init 8 (Some 2%Z))
                                        "corpus" Scenario.keywords "*.txt" in
  Threading.started t = [(["a.txt"; "b.txt"]%string, 1); (["c.txt"]%string, 2)] /\
  Threading.returned t = Ok Scenario.mapping /\
  Threading.processed_files (Threading.final t) = 3 /\
  Threading.error_count (Threading.final t) = 1 /\
  Multiprocessing.returned p = Ok Scenario.mapping /\
  Multiprocessing.processed_files (Multiprocessing.final p) = 3 /\
  Multiprocessing.error_count (Multiprocessing.final p) = 0.
Proof. repeat split; reflexivity. Qed.

Lemma failures_unchanged fs1 fs2 l :
  unchanged fs1 fs2 -> failures fs1 l = failures fs2 l.
Proof.
  intros (_ & HR & _). unfold failures. f_equal. apply filter_ext.
  intros f. unfold unreadable. now rewrite HR.
Qed.

(** C4, as amended.  On the scenario with two workers, in whatever order the
    directory lists its three files and the workers finish, both
    realizations return the mapping [{"python": ["a.txt"], "data":
    ["b.txt"]}], in which [missing] is no key, and count three processed
    files; the threading realization counts one error. *)
Theorem C4_scenario
        (fs : FileSystem)
        (sched : list (list string * nat) -> list (list string * nat))
        (channel : list Multiprocessing.result_data
                   -> list (option Multiprocessing.result_data))
        (cpu_count : Z) :
  unchanged Scenario.fs fs -> fair sched -> reliable channel ->
  let t := Threading.search_files fs no_faults sched (Threading.init 2)
                                  "corpus" Scenario.keywords "*.txt" in
  let p := Multiprocessing.search_files fs no_faults channel
                                        (Multiprocessing.init cpu_count (Some 2%Z))
                                        "corpus" Scenario.keywords "*.txt" in
  (exists m, Threading.returned t = Ok m /\ same_mapping Scenario.mapping m) /\
  mem Scenario.mapping "missing" = false /\
  Threading.processed_files (Threading.final t) = 3 /\
  Threading.error_count (Threading.final t) = 1 /\
  (exists m, Multiprocessing.returned p = Ok m /\ same_mapping Scenario.mapping m) /\
  Multiprocessing.processed_files (Multiprocessing.final p) = 3.
Proof.
  intros U F R t p. subst t p.
  assert (F0 : fair Scenario.in_order) by (intros l; apply Permutation_refl).
  assert (R0 : reliable Scenario.fifo) by (intros l; apply Permutation_refl).
  pose proof (proj2 (proj2 U) "corpus"%string "*.txt"%string) as PG.
  change (glob Scenario.fs "corpus" "*.txt")
    with ["a.txt"; "b.txt"; "c.txt"]%string in PG.
  assert (NE : glob fs "corpus" "*.txt" <> []).
  { intros E. rewrite E in PG. apply Permutation_length in PG. discriminate. }
  pose proof (threading_rerun Scenario.fs fs Scenario.in_order sched
                              (Threading.init 2) (Threading.init 2)
                              "corpus" Scenario.keywords "*.txt" U F0 F eq_refl) as HT.
  pose proof (multiprocessing_rerun Scenario.fs fs Scenario.fifo channel
                                    (Multiprocessing.init 8 (Some 2%Z))
                                    (Multiprocessing.init cpu_count (Some 2%Z))
                                    "corpus" Scenario.keywords "*.txt" U R0 R eq_refl)
    as HP.
  change (Threading.returned (Threading.search_files Scenario.fs _ _ _ _ _ _))
    with (Ok Scenario.mapping) in HT.
  change (Multiprocessing.returned (Multiprocessing.search_files Scenario.fs _ _ _ _ _ _))
    with (Ok Scenario.mapping) in HP.
  destruct (Threading.returned _) as [mt|] eqn:RT; [|destruct HT].
  destruct (Multiprocessing.returned _) as [mq|] eqn:RP; [|destruct HP].
  destruct (threading_counters fs no_faults sched (Threading.init 2) "corpus"
                               Scenario.keywords "*.txt" F mt RT NE) as [He Hp].
  destruct (multiprocessing_counters fs no_faults channel
                                     (Multiprocessing.init cpu_count (Some 2%Z))
                                     "corpus" Scenario.keywords "*.txt" R mq RP NE)
    as [Hq _].
  rewrite scanned_no_faults in He, Hp, Hq.
  rewrite (threading_started fs no_faults sched (Threading.init 2) "corpus"
                             Scenario.keywords "*.txt" mt RT) in He, Hp.
  rewrite (multiprocessing_started fs no_faults channel
                                   (Multiprocessing.init cpu_count (Some 2%Z))
                                   "corpus" Scenario.keywords "*.txt" mq RP) in Hq.
  change (handed _ ?l) with l in He, Hp, Hq.
  split; [now exists mt|]. split; [reflexivity|].
  split; [rewrite Hp; now rewrite <- (Permutation_length PG)|].
  split.
  - rewrite He, <- (failures_unchanged Scenario.fs fs _ U).
    now rewrite <- (failures_perm Scenario.fs _ _ PG).
  - split; [now exists mq|]. rewrite Hq. now rewrite <- (Permutation_length PG).
Qed.

Lemma C4_scenario_witness :
  unchanged Scenario.fs Scenario.fs /\
  fair Scenario.in_order /\ reliable Scenario.fifo /\
  let t := Threading.search_files Scenario.fs no_faults Scenario.in_order
                                  (Threading.init 2)
                                  "corpus" Scenario.keywords "*.txt" in
  let p := Multiprocessing.search_files Scenario.fs no_faults Scenario.fifo
                                        (Multiprocessing.init 8 (Some 2%Z))
                                        "corpus" Scenario.keywords "*.txt" in
  (exists m, Threading.returned t = Ok m /\ same_mapping Scenario.mapping m) /\
  mem Scenario.mapping "missing" = false /\
  Threading.processed_files (Threading.final t) = 3 /\
  Threading.error_count (Threading.final t) = 1 /\
  (exists m, Multiprocessing.returned p = Ok m /\ same_mapping Scenario.mapping m) /\
  Multiprocessing.processed_files (Multiprocessing.final p) = 3.
Proof.
  assert (U : unchanged Scenario.fs Scenario.fs) by apply unchanged_refl.
  assert (F : fair Scenario.in_order) by (intros l; apply Permutation_refl).
  assert (R : reliable Scenario.fifo) by (intros l; apply Permutation_refl).
  split; [exact U|]. split; [exact F|]. split; [exact R|].
  exact (C4_scenario Scenario.fs Scenario.in_order Scenario.fifo 8 U F R).
Defined.

(** On the scenario the processed count is three, not two, in both
    realizations, [missing] is no key of the returned mapping, and the
    multiprocessing realization counts no error. *)
Lemma C4_counterexample :
  let t := Threading.search_files Scenario.fs no_faults Scenario.in_order
                                  (Threading.init 2)
                                  "corpus" Scenario.keywords "*.txt" in
  let p := Multiprocessing.search_files Scenario.fs no_faults Scenario.fifo
                                        (Multiprocessing.init 8 (Some 2%Z))
                                        "corpus" Scenario.keywords "*.txt" in
  Threading.processed_files (Threading.final t) <> 2 /\
  Multiprocessing.processed_files (Multiprocessing.final p) <> 2 /\
  Multiprocessing.error_count (Multiprocessing.final p) <> 1 /\
  (forall m, Threading.returned t = Ok m -> get m "missing" <> Some []) /\
  (forall m, Multiprocessing.returned p = Ok m -> get m "missing" <> Some []).
Proof.
  cbv zeta. repeat split; try (vm_compute; discriminate).
  - intros m. vm_compute. intros [= <-]. discriminate.
  - intros m. vm_compute. intros [= <-]. discriminate.
Qed.





(** With a worker count of zero and files to scan the threading realization
    divides by zero before it starts a thread. *)
Example threading_zero_workers :
  let t := Threading.search_files Scenario.fs no_faults Scenario.in_order
                                  (Threading.init 0)
                                  "corpus" Scenario.keywords "*.txt" in
  Threading.returned t = Raise ZeroDivisionError /\ Threading.started t = [].
Proof. split; reflexivity. Qed.

(* ================================================================= *)
(** ** Worker-level faults anywhere in the body of a worker *)

Module Body.
Import Scan.

(** The statements of a worker body that stand outside the per-file
    handler, in the order of their execution: one loop iteration for every
    file of the chunk, the hand-over of the result (the [put] of
    [worker_process], the final critical section of [worker_thread]) and
    the last [print].  The statements before the loop set the local
    variables and, in [worker_process], print; a failure there is the fault
    of index 0. *)
Inductive statement : Type :=
| Iteration (filepath : string)
| HandOver
| LastPrint.

Definition body (file_chunk : list string) : list statement :=
  map Iteration file_chunk ++ [HandOver; LastPrint].

(** A worker-level fault [Some (n, msg)]: the statement of index [n] of
    the body raises an exception with text [msg] (of class [Exception],
    which the handlers name) outside the per-file handler, before it has
    had an effect; an index past the end of the body raises nothing. *)
Definition fault : Type := option (nat * string).

Definition strikes (f : fault) (i : nat) : option string :=
  match f with
  | Some (n, msg) => if Nat.eqb n i then Some msg else None
  | None => None
  end.

(** The statements run in order from index [i] on; the run ends with the
    state reached and the text of the exception, if one was raised. *)
Fixpoint run {A : Type} (execute : A -> statement -> A) (f : fault) (i : nat)
         (statements : list statement) (st : A) : A * option string :=
  match statements with
  | [] => (st, None)
  | s :: rest =>
      match strikes f i with
      | Some msg => (st, Some msg)
      | None => run execute f (S i) rest (execute st s)
      end
  end.

(** The message of lines 82-89 of multiprocessing_search.py. *)
Definition result_of (process_id : nat) (locals : dict (list string) * nat * nat)
  : Multiprocessing.result_data :=
  let '(local_results, files_processed, error_count) := locals in
  {| Multiprocessing.process_id := process_id;
     Multiprocessing.results := local_results;
     Multiprocessing.files_processed := files_processed;
     Multiprocessing.errors := error_count;
     Multiprocessing.critical_error := None |}.

(** The message of lines 95-101. *)
Definition critical (process_id : nat) (msg : string) : Multiprocessing.result_data :=
  {| Multiprocessing.process_id := process_id;
     Multiprocessing.results := [];
     Multiprocessing.files_processed := 0;
     Multiprocessing.errors := 1;
     Multiprocessing.critical_error := Some msg |}.

(** One statement of [worker_process] on its local variables and the
    queue. *)
Definition execute_process (fs : FileSystem) (keywords : list string) (process_id : nat)
           (st : (dict (list string) * nat * nat) * list Multiprocessing.result_data)
           (s : statement)
  : (dict (list string) * nat * nat) * list Multiprocessing.result_data :=
  let (locals, result_queue) := st in
  match s with
  | Iteration filepath =>
      (Multiprocessing.scan_step fs keywords locals filepath, result_queue)
  | HandOver => (locals, result_queue ++ [result_of process_id locals])
  | LastPrint => st
  end.

(** [worker_process]: the handler of lines 92-101 encloses the whole body
    and puts the critical message; the handler itself is taken to
    complete. *)
Definition worker_process (fs : FileSystem) (f : fault)
           (file_chunk : list string) (keywords : list string) (process_id : nat)
           (result_queue : list Multiprocessing.result_data)
  : list Multiprocessing.result_data :=
  match run (execute_process fs keywords process_id) f 0 (body file_chunk)
            (([], 0, 0), result_queue) with
  | ((_, result_queue'), None) => result_queue'
  | ((_, result_queue'), Some msg) => result_queue' ++ [critical process_id msg]
  end.

(** One statement of [worker_thread] on the shared searcher and the local
    variables. *)
Definition execute_thread (fs : FileSystem) (keywords : list string)
           (st : Threading.ThreadingFileSearcher * dict (list string) * nat)
           (s : statement)
  : Threading.ThreadingFileSearcher * dict (list string) * nat :=
  match s with
  | Iteration filepath => Threading.scan_step fs keywords st filepath
  | HandOver =>
      let '(self, local_results, files_processed) := st in
      (Threading.merge self local_results files_processed, local_results,
       files_processed)
  | LastPrint => st
  end.

(** [worker_thread]: no handler encloses the body, so the exception leaves
    the function; what the body has done to the shared searcher stays. *)
Definition worker_thread (fs : FileSystem) (f : fault)
           (self : Threading.ThreadingFileSearcher) (file_chunk : list string)
           (keywords : list string)
  : Threading.ThreadingFileSearcher * res unit :=
  match run (execute_thread fs keywords) f 0 (body file_chunk) (self, [], 0) with
  | ((self', _, _), None) => (self', Ok tt)
  | ((self', _, _), Some msg) => (self', Raise (WorkerFault msg))
  end.

(** A fault at the entry of the worker, as [Faults] has it. *)
Definition at_entry (o : option string) : fault :=
  match o with
  | Some msg => Some (0, msg)
  | None => None
  end.

Lemma run_clear {A} (execute : A -> statement -> A) (f : fault) statements :
  forall i st,
    (forall j, i <= j < i + length statements -> strikes f j = None) ->
    run execute f i statements st = (fold_left execute statements st, None).
Proof.
induction statements as [|s rest IH]; intros i st H; [reflexivity|].
cbn [run fold_left]. rewrite (H i) by (cbn; lia).
apply IH. intros j Hj. apply H. cbn. lia.
Qed.

Lemma run_strikes {A} (execute : A -> statement -> A) n msg statements :
  forall i st,
    i <= n < i + length statements ->
    run execute (Some (n, msg)) i statements st
    = (fold_left execute (firstn (n - i) statements) st, Some msg).
Proof.
induction statements as [|s rest IH]; intros i st H; [cbn in H; lia|].
cbn [run strikes]. destruct (Nat.eqb_spec n i) as [->|Hne].
- now rewrite Nat.sub_diag.
- rewrite IH by (cbn in H; lia).
  replace (n - i) with (S (n - S i)) by lia. reflexivity.
Qed.

Lemma body_length file_chunk : length (body file_chunk) = S (S (length file_chunk)).
Proof. unfold body. rewrite length_app, length_map. cbn. lia. Qed.

(** The statements before index [n] of the body. *)
Lemma body_before file_chunk n :
  n <= S (length file_chunk) ->
  firstn n (body file_chunk)
  = map Iteration (firstn n file_chunk)
      ++ (if n <=? length file_chunk then [] else [HandOver]).
Proof.
intros H. unfold body. rewrite firstn_app, length_map, firstn_map.
destruct (Nat.leb_spec n (length file_chunk)) as [Hle|Hgt].
- replace (n - length file_chunk) with 0 by lia. reflexivity.
- replace (n - length file_chunk) with 1 by lia. reflexivity.
Qed.

Lemma process_iterations fs keywords process_id files : forall locals result_queue,
  fold_left (execute_process fs keywords process_id) (map Iteration files)
            (locals, result_queue)
  = (fold_left (Multiprocessing.scan_step fs keywords) files locals, result_queue).
Proof.
induction files as [|x files IH]; intros locals result_queue; [reflexivity|].
cbn [map fold_left execute_process]. apply IH.
Qed.

Lemma thread_iterations fs keywords files : forall st,
  fold_left (execute_thread fs keywords) (map Iteration files) st
  = fold_left (Threading.scan_step fs keywords) files st.
Proof.
induction files as [|x files IH]; intros st; [reflexivity|].
cbn [map fold_left execute_thread]. apply IH.
Qed.

(** Without a fault the body is the worker of the drivers. *)
Lemma worker_process_clear fs file_chunk keywords process_id result_queue :
  worker_process fs None file_chunk keywords process_id result_queue
  = Multiprocessing.worker_process fs no_faults file_chunk keywords process_id
                                   result_queue.
Proof.
unfold worker_process, Multiprocessing.worker_process, no_faults.
rewrite run_clear by reflexivity.
unfold body. rewrite fold_left_app, process_iterations.
destruct (fold_left (Multiprocessing.scan_step fs keywords) file_chunk ([], 0, 0))
  as [[lr fp] ec].
reflexivity.
Qed.

Lemma worker_thread_clear fs self file_chunk keywords thread_id :
  Threading.worker_thread fs no_faults self file_chunk keywords thread_id
  = Ok (fst (worker_thread fs None self file_chunk keywords)) /\
  snd (worker_thread fs None self file_chunk keywords) = Ok tt.
Proof.
unfold worker_thread, Threading.worker_thread, no_faults.
rewrite run_clear by reflexivity.
unfold body. rewrite fold_left_app, thread_iterations.
destruct (fold_left (Threading.scan_step fs keywords) file_chunk (self, [], 0))
  as [[self1 lr] fp].
split; reflexivity.
Qed.

(** A fault before the put: the critical message and nothing else. *)
Lemma worker_process_before fs file_chunk keywords process_id result_queue n msg :
  n <= length file_chunk ->
  worker_process fs (Some (n, msg)) file_chunk keywords process_id result_queue
  = result_queue ++ [critical process_id msg].
Proof.
intros H. unfold worker_process.
rewrite run_strikes by (rewrite body_length; lia).
rewrite Nat.sub_0_r, body_before by lia.
destruct (Nat.leb_spec n (length file_chunk)); [|lia].
rewrite app_nil_r, process_iterations. reflexivity.
Qed.

(** The fault of [Faults] is the fault at the first statement. *)
Lemma worker_process_entry fs (faults : Faults) file_chunk keywords process_id
      result_queue :
  Multiprocessing.worker_process fs faults file_chunk keywords process_id result_queue
  = worker_process fs (at_entry (faults process_id)) file_chunk keywords process_id
                   result_queue.
Proof.
destruct (faults process_id) as [msg|] eqn:F; cbn [at_entry].
- rewrite worker_process_before by lia.
  unfold Multiprocessing.worker_process. now rewrite F.
- rewrite worker_process_clear.
  unfold Multiprocessing.worker_process, no_faults. now rewrite F.
Qed.


(** A fault before the merge: the exception leaves [worker_thread]; the
    shared searcher has counted the unreadable files met so far and is
    otherwise as it was. *)
Lemma worker_thread_before fs self file_chunk keywords n msg :
  n <= length file_chunk ->
  worker_thread fs (Some (n, msg)) self file_chunk keywords
  = (add_errors self (failures fs (firstn n file_chunk)), Raise (WorkerFault msg)).
Proof.
intros H. unfold worker_thread.
rewrite run_strikes by (rewrite body_length; lia).
rewrite Nat.sub_0_r, body_before by lia.
destruct (Nat.leb_spec n (length file_chunk)); [|lia].
rewrite app_nil_r, thread_iterations, threading_loop. reflexivity.
Qed.


(** The fault of [Faults] in a thread: the exception leaves
    [worker_thread] before anything was done. *)
Lemma worker_thread_entry fs (faults : Faults) self file_chunk keywords thread_id msg :
  faults thread_id = Some msg ->
  Threading.worker_thread fs faults self file_chunk keywords thread_id
  = Raise (WorkerFault msg) /\
  worker_thread fs (Some (0, msg)) self file_chunk keywords
  = (self, Raise (WorkerFault msg)).
Proof.
intros F. rewrite worker_thread_before by lia.
unfold Threading.worker_thread. rewrite F. split; [reflexivity|].
f_equal. cbn. unfold add_errors, failures. destruct self; cbn. now rewrite Nat.add_0_r.
Qed.

End Body.




(** The same failure in a process, and one that comes after the put. *)
Example process_faults :
  Body.worker_process Scenario.fs (Some (1, "broken pipe"%string))
                      ["c.txt"; "a.txt"]%string Scenario.keywords 2 []
  = [Body.critical 2 "broken pipe"] /\
  Body.worker_process Scenario.fs (Some (3, "broken pipe"%string))
                      ["c.txt"; "a.txt"]%string Scenario.keywords 2 []
  = [{| Multiprocessing.process_id := 2;
        Multiprocessing.results := [("python", ["a.txt"])]%string;
        Multiprocessing.files_processed := 2;
        Multiprocessing.errors := 0;
        Multiprocessing.critical_error := None |};
     Body.critical 2 "broken pipe"].
Proof. split; reflexivity. Qed.

(** The collection loop left at a time-out keeps what was received before. *)
Lemma collect_until_timeout (received : list Multiprocessing.result_data)
      (later : list (option Multiprocessing.result_data)) :
  forall pending st,
    length received < pending ->
    Multiprocessing.collect pending (map Some received ++ None :: later) st
    = fold_left Multiprocessing.absorb received st.
Proof.
  induction received as [|m received IH]; intros pending st Hlen; cbn in *.
  - destruct pending; [lia|reflexivity].
  - destruct pending; [lia|]. cbn. apply IH. lia.
Qed.

(** C7.  For the same directory contents listed in the same order, the
    same keywords and the same worker count (a valid one, at least one),
    when no worker fails and every result is collected, the threading and
    the multiprocessing realization end alike: both raise
    [FileNotFoundError], or both return a mapping with the same keys whose
    lists of files agree up to order.  Unreadable files do not matter. *)
Theorem C7_realizations_agree
        (fs : FileSystem)
        (sched : list (list string * nat) -> list (list string * nat))
        (channel : list Multiprocessing.result_data
                   -> list (option Multiprocessing.result_data))
        (th : Threading.ThreadingFileSearcher)
        (mp : Multiprocessing.MultiprocessingFileSearcher)
        (W : Z) (directory : string) (keywords : list string) (file_pattern : string) :
  fair sched -> reliable channel ->
  (1 <= W)%Z -> Threading.num_threads th = W -> Multiprocessing.num_processes mp = W ->
  same_outcome
    (Threading.returned
       (Threading.search_files fs no_faults sched th directory keywords file_pattern))
    (Multiprocessing.returned
       (Multiprocessing.search_files fs no_faults channel mp directory keywords
                                     file_pattern)).
Proof.
  intros F R HW Ht Hm.
  destruct (Threading.returned _) as [m1|e1] eqn:R1;
    destruct (Multiprocessing.returned _) as [m2|e2] eqn:R2; cbn.
  - destruct (threading_mapping _ _ _ _ _ _ _ F R1) as [_ H1].
    destruct (multiprocessing_mapping _ _ _ _ _ _ _ R R2) as [_ H2].
    apply (described_same _ _ _ _ H1 H2). intros k. now rewrite Ht, Hm.
  - apply multiprocessing_raise_iff in R2.
    destruct R2 as [[D ->]|(_ & _ & Z0 & _)]; [|lia].
    assert (T : threading_raises fs th directory file_pattern FileNotFoundError)
      by (left; auto).
    apply (threading_raise_iff fs no_faults sched th directory keywords) in T.
    congruence.
  - apply threading_raise_iff in R1.
    destruct R1 as [[D ->]|(_ & _ & Z0 & _)]; [|lia].
    assert (T : multiprocessing_raises fs mp directory file_pattern FileNotFoundError)
      by (left; auto).
    apply (multiprocessing_raise_iff fs no_faults channel mp directory keywords) in T.
    congruence.
  - apply threading_raise_iff in R1. apply multiprocessing_raise_iff in R2.
    destruct R1 as [[_ ->]|(_ & _ & Z0 & _)]; [|lia].
    destruct R2 as [[_ ->]|(_ & _ & Z0 & _)]; [reflexivity|lia].
Qed.

Lemma C7_realizations_agree_witness :
  fair Scenario.in_order /\ reliable Scenario.fifo /\
  (1 <= 2)%Z /\ Threading.num_threads (Threading.init 2) = 2%Z /\
  Multiprocessing.num_processes (Multiprocessing.init 8 (Some 2%Z)) = 2%Z /\
  same_outcome
    (Threading.returned
       (Threading.search_files Scenario.fs no_faults Scenario.in_order
                               (Threading.init 2) "corpus" Scenario.keywords "*.txt"))
    (Multiprocessing.returned
       (Multiprocessing.search_files Scenario.fs no_faults Scenario.fifo
                                     (Multiprocessing.init 8 (Some 2%Z))
                                     "corpus" Scenario.keywords "*.txt")).
Proof.
  assert (F : fair Scenario.in_order) by (intros l; apply Permutation_refl).
  assert (R : reliable Scenario.fifo) by (intros l; apply Permutation_refl).
  split; [exact F|]. split; [exact R|]. split; [lia|].
  split; [reflexivity|]. split; [reflexivity|].
  apply (C7_realizations_agree Scenario.fs Scenario.in_order Scenario.fifo
                               (Threading.init 2) (Multiprocessing.init 8 (Some 2%Z)) 2);
    [exact F|exact R|lia|reflexivity|reflexivity].
Defined.

(** C8.  Running the scan a second time on the same searcher and an
    unchanged directory, with the same keywords, ends as the first run did:
    the same exception, or a mapping with the same keys whose lists of
    files agree up to order, whatever the order in which the workers finish
    and in which the directory lists its files. *)
Theorem C8_rerun_same_mapping
        (fs1 fs2 : FileSystem)
        (sched1 sched2 : list (list string * nat) -> list (list string * nat))
        (channel1 channel2 : list Multiprocessing.result_data
                             -> list (option Multiprocessing.result_data))
        (th : Threading.ThreadingFileSearcher)
        (mp : Multiprocessing.MultiprocessingFileSearcher)
        (directory : string) (keywords : list string) (file_pattern : string) :
  unchanged fs1 fs2 ->
  fair sched1 -> fair sched2 -> reliable channel1 -> reliable channel2 ->
  let t1 := Threading.search_files fs1 no_faults sched1 th directory keywords
                                   file_pattern in
  let t2 := Threading.search_files fs2 no_faults sched2 (Threading.final t1)
                                   directory keywords file_pattern in
  let p1 := Multiprocessing.search_files fs1 no_faults channel1 mp directory keywords
                                         file_pattern in
  let p2 := Multiprocessing.search_files fs2 no_faults channel2 (Multiprocessing.final p1)
                                         directory keywords file_pattern in
  same_outcome (Threading.returned t1) (Threading.returned t2) /\
  same_outcome (Multiprocessing.returned p1) (Multiprocessing.returned p2).
Proof.
  intros U F1 F2 R1 R2 t1 t2 p1 p2. split.
  - apply threading_rerun; try assumption.
    symmetry. apply threading_num_threads.
  - apply multiprocessing_rerun; try assumption.
    symmetry. now apply multiprocessing_num_processes.
Qed.

Lemma C8_rerun_same_mapping_witness :
  unchanged Scenario.fs Scenario.fs /\
  fair Scenario.in_order /\ reliable Scenario.fifo /\
  let t1 := Threading.search_files Scenario.fs no_faults Scenario.in_order
                                   (Threading.init 2) "corpus" Scenario.keywords
                                   "*.txt" in
  let t2 := Threading.search_files Scenario.fs no_faults Scenario.in_order
                                   (Threading.final t1) "corpus" Scenario.keywords
                                   "*.txt" in
  let p1 := Multiprocessing.search_files Scenario.fs no_faults Scenario.fifo
                                         (Multiprocessing.init 8 (Some 2%Z))
                                         "corpus" Scenario.keywords "*.txt" in
  let p2 := Multiprocessing.search_files Scenario.fs no_faults Scenario.fifo
                                         (Multiprocessing.final p1)
                                         "corpus" Scenario.keywords "*.txt" in
  same_outcome (Threading.returned t1) (Threading.returned t2) /\
  same_outcome (Multiprocessing.returned p1) (Multiprocessing.returned p2).
Proof.
  assert (F : fair Scenario.in_order) by (intros l; apply Permutation_refl).
  assert (R : reliable Scenario.fifo) by (intros l; apply Permutation_refl).
  split; [apply unchanged_refl|]. split; [exact F|]. split; [exact R|].
  exact (C8_rerun_same_mapping Scenario.fs Scenario.fs
                               Scenario.in_order Scenario.in_order
                               Scenario.fifo Scenario.fifo
                               (Threading.init 2) (Multiprocessing.init 8 (Some 2%Z))
                               "corpus" Scenario.keywords "*.txt"
                               (unchanged_refl Scenario.fs) F F R R).
Defined.

(** The files scanned are among the files handed out, each once. *)
Lemma scanned_incl faults ws f :
  In f (scanned faults ws) -> In f (flat_map fst ws).
Proof.
  unfold scanned, alive. rewrite !in_flat_map.
  intros (w & Hw & Hf). apply filter_In in Hw. exists w. tauto.
Qed.

Lemma scanned_nodup faults ws :
  NoDup (flat_map fst ws) -> NoDup (scanned faults ws).
Proof.
  induction ws as [|[chunk id] ws IH]; intros ND.
  - constructor.
  - cbn [flat_map fst] in ND.
    pose proof (NoDup_app_remove_l _ _ ND) as NDr.
    destruct (faults id) as [msg|] eqn:F.
    + rewrite (scanned_dead _ _ _ _ _ F). now apply IH.
    + rewrite (scanned_alive _ _ _ _ F). apply NoDup_app.
      * now apply NoDup_app_remove_r in ND.
      * now apply IH.
      * intros f Hc Hs. apply scanned_incl in Hs.
        clear - ND Hc Hs. induction chunk as [|x chunk IHc]; [destruct Hc|].
        cbn in ND. inversion ND as [|? ? Hx ND']; subst.
        destruct Hc as [->|Hc]; [|now apply IHc].
        apply Hx. apply in_or_app. now right.
Qed.

Lemma alive_all faults ws :
  (forall id, faults id = None) -> alive faults ws = ws.
Proof.
  intros H. unfold alive. apply forallb_filter_id, forallb_forall.
  intros w _. now rewrite H.
Qed.

Lemma nodup_flat_part (collected lost ws : list (list string * nat)) :
  Permutation (collected ++ lost) ws ->
  NoDup (flat_map fst ws) -> NoDup (flat_map fst collected).
Proof.
  intros P ND.
  apply (Permutation_NoDup (Permutation_flat_map fst (Permutation_sym P))) in ND.
  rewrite flat_map_app in ND. now apply NoDup_app_remove_r in ND.
Qed.

(** C10.  In every run over a listing that names each file once, the
    returned mapping of either realization has a key exactly for the keywords
    that some scanned file matches; no key maps to the empty list; no list
    names a file twice.  The scanned files are those handed to a worker
    that no worker-level fault stops and, in the multiprocessing
    realization, whose message the driver received (the queue may deliver
    late or not at all, but invents and repeats nothing): all the listed
    files when no worker fails, every message arrives and the worker count
    is at least one. *)
Theorem C10_keys_iff_matched
        (fs : FileSystem) (faults : Faults)
        (sched : list (list string * nat) -> list (list string * nat))
        (channel : list Multiprocessing.result_data
                   -> list (option Multiprocessing.result_data))
        (th : Threading.ThreadingFileSearcher)
        (mp : Multiprocessing.MultiprocessingFileSearcher)
        (directory : string) (keywords : list string) (file_pattern : string) :
  fair sched -> faithful channel ->
  NoDup (glob fs directory file_pattern) ->
  let t := Threading.search_files fs faults sched th directory keywords file_pattern in
  let p := Multiprocessing.search_files fs faults channel mp directory keywords
                                        file_pattern in
  (forall m, Threading.returned t = Ok m ->
     keys_iff_matched fs keywords (scanned faults (Threading.started t)) m /\
     ((forall id, faults id = None) -> (1 <= Threading.num_threads th)%Z ->
      scanned faults (Threading.started t) = glob fs directory file_pattern)) /\
  (forall m, Multiprocessing.returned p = Ok m ->
     exists collected lost,
       Permutation (collected ++ lost) (Multiprocessing.started p) /\
       keys_iff_matched fs keywords (scanned faults collected) m /\
       (reliable channel -> lost = []) /\
       ((forall id, faults id = None) -> (1 <= Multiprocessing.num_processes mp)%Z ->
        lost = [] ->
        Permutation (scanned faults collected) (glob fs directory file_pattern))).
Proof.
  intros F Fa ND t p.
  assert (NDh : forall n, NoDup (handed n (glob fs directory file_pattern))).
  { intros n. unfold handed. destruct (0 <? n)%Z; [exact ND|constructor]. }
  split; intros m Hm.
  - destruct (threading_result _ _ _ _ _ _ _ F m Hm) as [T H].
    pose proof (threading_started fs faults sched th directory keywords file_pattern
                                  m Hm) as S.
    fold t in H, S. split.
    + apply described_keys; try assumption.
      apply scanned_nodup. rewrite S. apply NDh.
    + intros NF HW. unfold scanned. rewrite (alive_all _ _ NF), S. unfold handed.
      destruct (Z.ltb_spec 0 (Threading.num_threads th)); [reflexivity|lia].
  - destruct (multiprocessing_collected _ _ _ _ _ _ _ m Fa Hm)
      as (collected & lost & P & T & H & L).
    pose proof (multiprocessing_started fs faults channel mp directory keywords
                                        file_pattern m Hm) as S.
    fold p in P, S. exists collected, lost.
    split; [exact P|]. split; [|split; [exact L|]].
    + apply described_keys; try assumption.
      * apply scanned_nodup. apply (nodup_flat_part _ _ _ P). rewrite S. apply NDh.
      * intros k. eexists. split; [apply H|reflexivity].
    + intros NF HW ->. rewrite app_nil_r in P.
      rewrite (scanned_perm faults _ _ P). unfold scanned.
      rewrite (alive_all _ _ NF), S. unfold handed.
      destruct (Z.ltb_spec 0 (Multiprocessing.num_processes mp)); [reflexivity|lia].
Qed.

Lemma C10_keys_iff_matched_witness :
  fair Scenario.in_order /\ faithful Scenario.fifo /\
  NoDup (glob Scenario.fs "corpus" "*.txt") /\
  let t := Threading.search_files Scenario.fs no_faults Scenario.in_order
                                  (Threading.init 2) "corpus" Scenario.keywords
                                  "*.txt" in
  let p := Multiprocessing.search_files Scenario.fs no_faults Scenario.fifo
                                        (Multiprocessing.init 8 (Some 2%Z))
                                        "corpus" Scenario.keywords "*.txt" in
  (forall m, Threading.returned t = Ok m ->
     keys_iff_matched Scenario.fs Scenario.keywords
                      (scanned no_faults (Threading.started t)) m /\
     ((forall id, no_faults id = None) ->
      (1 <= Threading.num_threads (Threading.init 2))%Z ->
      scanned no_faults (Threading.started t) = glob Scenario.fs "corpus" "*.txt")) /\
  (forall m, Multiprocessing.returned p = Ok m ->
     exists collected lost,
       Permutation (collected ++ lost) (Multiprocessing.started p) /\
       keys_iff_matched Scenario.fs Scenario.keywords (scanned no_faults collected) m /\
       (reliable Scenario.fifo -> lost = []) /\
       ((forall id, no_faults id = None) ->
        (1 <= Multiprocessing.num_processes (Multiprocessing.init 8 (Some 2%Z)))%Z ->
        lost = [] ->
        Permutation (scanned no_faults collected) (glob Scenario.fs "corpus" "*.txt"))).
Proof.
  assert (F : fair Scenario.in_order) by (intros l; apply Permutation_refl).
  assert (R : reliable Scenario.fifo) by (intros l; apply Permutation_refl).
  assert (Fa : faithful Scenario.fifo) by (apply reliable_faithful, R).
  assert (ND : NoDup (glob Scenario.fs "corpus" "*.txt")).
  { cbn. repeat constructor; cbn; intuition discriminate. }
  split; [exact F|]. split; [exact Fa|]. split; [exact ND|].
  exact (C10_keys_iff_matched Scenario.fs no_faults Scenario.in_order Scenario.fifo
                              (Threading.init 2) (Multiprocessing.init 8 (Some 2%Z))
                              "corpus" Scenario.keywords "*.txt" F Fa ND).
Defined.

(** A queue on which nothing arrives in time: the driver returns the empty
    mapping of a run that collected no result. *)
Example nothing_collected :
  Multiprocessing.returned
    (Multiprocessing.search_files Scenario.fs no_faults (fun _ => [None])
                                  (Multiprocessing.init 8 (Some 2%Z))
                                  "corpus" Scenario.keywords "*.txt")
  = Ok [].
Proof. reflexivity. Qed.

(** On the scenario the returned mapping has the keys [python] and [data]
    and no key [missing]. *)
Example scenario_keys :
  mem Scenario.mapping "python" = true /\
  mem Scenario.mapping "data" = true /\
  mem Scenario.mapping "missing" = false.
Proof. repeat split; reflexivity. Qed.

(** A keyword listed twice is recorded once for a file. *)
Example repeated_keyword :
  Threading.returned
    (Threading.search_files Scenario.fs no_faults Scenario.in_order (Threading.init 1)
                            "corpus" ["data"; "python"; "data"]%string "*.txt")
  = Ok [("python", ["a.txt"]); ("data", ["b.txt"])]%string.
Proof. reflexivity. Qed.

(* ================================================================= *)
(** ** Further properties of the two searchers *)

Module Search.
Import DictFacts Scan Driver Runs Outcome.


Lemma hit_iff fs keywords k f :
  hit fs keywords k f = true <->
  In k keywords /\
  exists raw, read_text fs f = Some raw /\ Common.keyword_found (lower raw) k = true.
Proof.
  unfold hit. destruct (read_text fs f) as [raw|].
  - rewrite andb_true_iff, existsb_exists. split.
    + intros [(x & Hin & E) H]. apply String.eqb_eq in E. subst x. eauto.
    + intros (Hin & raw' & [= <-] & H). split; [|exact H].
      exists k. split; [exact Hin|apply String.eqb_refl].
  - split; [discriminate|]. intros (_ & raw & E & _). discriminate.
Qed.





(** The lists of a mapping described up to order have the described members. *)
Lemma described_members (m : dict (list string)) (l : string -> list string) :
  (forall k, exists files, get m k = grow None files /\ Permutation files (l k)) ->
  forall k f, In f (get_list m k) <-> In f (l k).
Proof.
  intros H k f. destruct (H k) as (files & E & P).
  rewrite (get_list_grow_none _ _ _ E). split; apply Permutation_in; [|symmetry]; exact P.
Qed.

Lemma threading_returns fs faults sched self directory keywords file_pattern :
  dir_exists fs directory = true ->
  Threading.num_threads self <> 0%Z ->
  exists m,
    Threading.returned
      (Threading.search_files fs faults sched self directory keywords file_pattern)
    = Ok m.
Proof.
  intros D NZ.
  destruct (Threading.returned _) as [m|e] eqn:R; [eauto|].
  apply threading_raise_iff in R.
  destruct R as [[D' _]|(_ & _ & Z0 & _)]; congruence.
Qed.

Lemma multiprocessing_returns fs faults channel self directory keywords file_pattern :
  dir_exists fs directory = true ->
  Multiprocessing.num_processes self <> 0%Z ->
  exists m,
    Multiprocessing.returned
      (Multiprocessing.search_files fs faults channel self directory keywords
                                    file_pattern)
    = Ok m.
Proof.
  intros D NZ.
  destruct (Multiprocessing.returned _) as [m|e] eqn:R; [eauto|].
  apply multiprocessing_raise_iff in R.
  destruct R as [[D' _]|(_ & _ & Z0 & _)]; congruence.
Qed.

Lemma handed_all n files : (1 <= n)%Z -> handed n files = files.
Proof.
  intros H. unfold handed. destruct (Z.ltb_spec 0 n); [reflexivity|lia].
Qed.

Lemma threading_total_files fs faults sched self directory keywords file_pattern m :
  Threading.returned
    (Threading.search_files fs faults sched self directory keywords file_pattern)
  = Ok m ->
  glob fs directory file_pattern <> [] ->
  Threading.total_files
    (Threading.final
       (Threading.search_files fs faults sched self directory keywords file_pattern))
  = length (glob fs directory file_pattern).
Proof.
  destruct (threading_paths fs faults sched self directory keywords file_pattern)
    as [D|D G|D G Z0|cs D G NZ E self2]; simpl_run; try discriminate; intros _ NE;
    [contradiction|].
  subst self2.
  now destruct (run_threads fs faults keywords (sched (Common.spawn cs))
                 (Threading.reset self (length (glob fs directory file_pattern)))
                 tidy_empty)
    as (_ & _ & _ & _ & _ & ->).
Qed.

End Search.

Import Search.

(** X1.  In a run where no worker fails, every result is collected and the
    worker count is at least one, a file stands in the list returned for a
    keyword exactly when it is one of the listed files, the keyword is one
    of the keywords asked for, the file can be read and the pattern of the
    keyword is found in its lower-cased content. *)
Theorem search_returns_exactly_the_matches
        (fs : FileSystem)
        (sched : list (list string * nat) -> list (list string * nat))
        (channel : list Multiprocessing.result_data
                   -> list (option Multiprocessing.result_data))
        (th : Threading.ThreadingFileSearcher)
        (mp : Multiprocessing.MultiprocessingFileSearcher)
        (directory : string) (keywords : list string) (file_pattern : string) :
  fair sched -> reliable channel ->
  (1 <= Threading.num_threads th)%Z -> (1 <= Multiprocessing.num_processes mp)%Z ->
  (forall m,
     Threading.returned
       (Threading.search_files fs no_faults sched th directory keywords file_pattern)
     = Ok m ->
     forall k f,
       In f (get_list m k) <->
       In f (glob fs directory file_pattern) /\ In k keywords /\
       exists raw, read_text fs f = Some raw /\
                   Common.keyword_found (lower raw) k = true) /\
  (forall m,
     Multiprocessing.returned
       (Multiprocessing.search_files fs no_faults channel mp directory keywords
                                     file_pattern)
     = Ok m ->
     forall k f,
       In f (get_list m k) <->
       In f (glob fs directory file_pattern) /\ In k keywords /\
       exists raw, read_text fs f = Some raw /\
                   Common.keyword_found (lower raw) k = true).
Proof.
  intros F R Ht Hp. split; intros m Hm k f.
  - destruct (threading_mapping _ _ _ _ _ _ _ F Hm) as [_ H].
    rewrite (described_members _ _ H), filter_In, hit_iff, handed_all by assumption.
    reflexivity.
  - destruct (multiprocessing_mapping _ _ _ _ _ _ _ R Hm) as [_ H].
    rewrite (described_members _ _ H), filter_In, hit_iff, handed_all by assumption.
    reflexivity.
Qed.

Lemma search_returns_exactly_the_matches_witness :
  fair Scenario.in_order /\ reliable Scenario.fifo /\
  (1 <= Threading.num_threads (Threading.init 2))%Z /\
  (1 <= Multiprocessing.num_processes (Multiprocessing.init 8 (Some 2%Z)))%Z /\
  (forall m,
     Threading.returned
       (Threading.search_files Scenario.fs no_faults Scenario.in_order
                               (Threading.init 2) "corpus" Scenario.keywords "*.txt")
     = Ok m ->
     forall k f,
       In f (get_list m k) <->
       In f (glob Scenario.fs "corpus" "*.txt") /\ In k Scenario.keywords /\
       exists raw, read_text Scenario.fs f = Some raw /\
                   Common.keyword_found (lower raw) k = true) /\
  (forall m,
     Multiprocessing.returned
       (Multiprocessing.search_files Scenario.fs no_faults Scenario.fifo
                                     (Multiprocessing.init 8 (Some 2%Z))
                                     "corpus" Scenario.keywords "*.txt")
     = Ok m ->
     forall k f,
       In f (get_list m k) <->
       In f (glob Scenario.fs "corpus" "*.txt") /\ In k Scenario.keywords /\
       exists raw, read_text Scenario.fs f = Some raw /\
                   Common.keyword_found (lower raw) k = true).
Proof.
  assert (F : fair Scenario.in_order) by (intros l; apply Permutation_refl).
  assert (R : reliable Scenario.fifo) by (intros l; apply Permutation_refl).
  assert (Ht : (1 <= Threading.num_threads (Threading.init 2))%Z) by (cbn; lia).
  assert (Hp : (1 <= Multiprocessing.num_processes
                       (Multiprocessing.init 8 (Some 2%Z)))%Z) by (cbn; lia).
  split; [exact F|]. split; [exact R|]. split; [exact Ht|]. split; [exact Hp|].
  exact (search_returns_exactly_the_matches
           Scenario.fs Scenario.in_order Scenario.fifo
           (Threading.init 2) (Multiprocessing.init 8 (Some 2%Z))
           "corpus" Scenario.keywords "*.txt" F R Ht Hp).
Defined.



(** X3.  In a run of the threading realization where no worker fails and the
    worker count is at least one, over a directory that lists some file,
    every listed file is counted as processed, readable or not, so that
    [processed_files] equals [total_files], and [error_count] is the number
    of listed files that cannot be read. *)
Theorem threading_counts_every_file
        (fs : FileSystem)
        (sched : list (list string * nat) -> list (list string * nat))
        (th : Threading.ThreadingFileSearcher)
        (directory : string) (keywords : list string) (file_pattern : string) :
  fair sched ->
  (1 <= Threading.num_threads th)%Z ->
  dir_exists fs directory = true ->
  glob fs directory file_pattern <> [] ->
  let t := Threading.search_files fs no_faults sched th directory keywords file_pattern in
  Threading.processed_files (Threading.final t) = length (glob fs directory file_pattern) /\
  Threading.total_files (Threading.final t) = length (glob fs directory file_pattern) /\
  Threading.error_count (Threading.final t)
  = length (filter (unreadable fs) (glob fs directory file_pattern)).
Proof.
  intros F HW D NE t.
  destruct (threading_returns fs no_faults sched th directory keywords file_pattern D
                              ltac:(lia)) as (m & Hm).
  destruct (threading_counters _ _ _ _ _ _ _ F m Hm NE) as [He Hp].
  pose proof (threading_started fs no_faults sched th directory keywords file_pattern
                                m Hm) as S.
  rewrite scanned_no_faults, S, handed_all in He, Hp by assumption.
  subst t. split; [exact Hp|]. split; [|exact He].
  now apply (threading_total_files _ _ _ _ _ _ _ m).
Qed.

Lemma threading_counts_every_file_witness :
  fair Scenario.in_order /\
  (1 <= Threading.num_threads (Threading.init 2))%Z /\
  dir_exists Scenario.fs "corpus" = true /\
  glob Scenario.fs "corpus" "*.txt" <> [] /\
  let t := Threading.search_files Scenario.fs no_faults Scenario.in_order
                                  (Threading.init 2) "corpus" Scenario.keywords
                                  "*.txt" in
  Threading.processed_files (Threading.final t)
  = length (glob Scenario.fs "corpus" "*.txt") /\
  Threading.total_files (Threading.final t)
  = length (glob Scenario.fs "corpus" "*.txt") /\
  Threading.error_count (Threading.final t)
  = length (filter (unreadable Scenario.fs) (glob Scenario.fs "corpus" "*.txt")).
Proof.
  assert (F : fair Scenario.in_order) by (intros l; apply Permutation_refl).
  assert (HW : (1 <= Threading.num_threads (Threading.init 2))%Z) by (cbn; lia).
  assert (D : dir_exists Scenario.fs "corpus" = true) by reflexivity.
  assert (NE : glob Scenario.fs "corpus" "*.txt" <> []) by (cbn; discriminate).
  split; [exact F|]. split; [exact HW|]. split; [exact D|]. split; [exact NE|].
  exact (threading_counts_every_file Scenario.fs Scenario.in_order (Threading.init 2)
                                     "corpus" Scenario.keywords "*.txt" F HW D NE).
Defined.



(** The scenario when the second worker process fails: two files processed,
    one error, the matches of the first worker kept. *)
Example second_process_fails :
  let p := Multiprocessing.search_files Scenario.fs Scenario.second_fails Scenario.fifo
                                        (Multiprocessing.init 8 (Some 2%Z))
                                        "corpus" Scenario.keywords "*.txt" in
  Multiprocessing.returned p = Ok Scenario.mapping /\
  Multiprocessing.processed_files (Multiprocessing.final p) = 2 /\
  Multiprocessing.error_count (Multiprocessing.final p) = 1.
Proof. repeat split; reflexivity. Qed.

(* ================================================================= *)
(** ** The workers that are started *)

Module Started.
Import DictFacts Scan Driver Runs Outcome.

(** Chunk [i] of a split for [w >= 1] workers is not empty exactly when
    [i] is below both the worker count and the number of files. *)
Lemma chunk_nonempty (w : Z) (file_list : list string) (chunks : list (list string)) :
  (1 <= w)%Z ->
  Common.split_files_into_chunks w file_list = Ok chunks ->
  length chunks = Z.to_nat w /\
  forall i c, nth_error chunks i = Some c ->
              (c <> [] <-> i < Nat.min (Z.to_nat w) (length file_list)).
Proof.
  intros Hw E.
  destruct (Partition.split_well w file_list ltac:(lia))
    as (cs & E' & Hlen & _ & Hsize & _).
  rewrite E in E'. injection E' as <-. split; [exact Hlen|].
  intros i c Hc.
  assert (Hi : i < length chunks) by (apply nth_error_Some; congruence).
  destruct (Hsize i c Hc) as [Hs _].
  set (n := Z.of_nat (length file_list)) in *.
  assert (Hn : (0 <= n)%Z) by (subst n; lia).
  pose proof (Z.mod_pos_bound n w ltac:(lia)) as Hr.
  pose proof (Z.div_mod n w ltac:(lia)) as Hdm.
  pose proof (Z.div_pos n w Hn ltac:(lia)) as Hq.
  assert (Hc0 : c <> [] <-> (0 < Z.of_nat (length c))%Z).
  { destruct c; cbn; split; intros; try lia; try congruence. }
  rewrite Hc0, Hs.
  destruct (Z_lt_le_dec n w) as [Hsmall|Hbig].
  - rewrite (Z.div_small n w) in * by lia.
    rewrite (Z.mod_small n w) in * by lia.
    destruct (Z.ltb_spec (Z.of_nat i) n); subst n; lia.
  - assert (1 <= n / w)%Z.
    { apply Z.div_le_lower_bound; lia. }
    destruct (Z.of_nat i <? n mod w)%Z; subst n; lia.
Qed.

(** The identifiers given when the non-empty chunks are the first [k]. *)
Lemma spawn_from_ids (chunks : list (list string)) : forall j k,
  (forall i c, nth_error chunks i = Some c -> (c <> [] <-> i < k)) ->
  k <= length chunks ->
  map snd (Common.spawn_from j chunks) = seq (S j) k.
Proof.
  induction chunks as [|c chunks IH]; intros j k H Hk; cbn in *.
  - now replace k with 0 by lia.
  - destruct k as [|k].
    + assert (c = []).
      { destruct c; [reflexivity|]. exfalso.
        specialize (H 0 _ eq_refl). assert (0 < 0) by (apply H; discriminate). lia. }
      subst c. apply (IH (S j) 0); [|lia].
      intros i c Hc. specialize (H (S i) c Hc). rewrite H. lia.
    + assert (c <> []) by (apply (H 0 c eq_refl); lia).
      destruct c as [|f c]; [contradiction|]. cbn. f_equal.
      apply (IH (S j) k); [|lia].
      intros i c' Hc. specialize (H (S i) c' Hc). rewrite H. lia.
Qed.

Lemma spawn_nonempty (chunks : list (list string)) :
  Forall (fun w : list string * nat => fst w <> []) (Common.spawn chunks).
Proof.
  apply Forall_forall. intros w Hw. now apply (spawn_from_nonempty chunks 0).
Qed.

(** What [search_files] starts when the worker count is at least one. *)
Lemma spawn_of_split (w : Z) (file_list : list string) (chunks : list (list string)) :
  (1 <= w)%Z ->
  Common.split_files_into_chunks w file_list = Ok chunks ->
  map snd (Common.spawn chunks) = seq 1 (Nat.min (Z.to_nat w) (length file_list)) /\
  flat_map fst (Common.spawn chunks) = file_list /\
  Forall (fun w : list string * nat => fst w <> []) (Common.spawn chunks).
Proof.
  intros Hw E. destruct (chunk_nonempty w file_list chunks Hw E) as [Hlen Hne].
  split; [|split; [|apply spawn_nonempty]].
  - apply spawn_from_ids; [exact Hne|]. rewrite Hlen. apply Nat.le_min_l.
  - rewrite spawn_files, (split_handed _ _ _ E). now apply handed_all.
Qed.

Lemma threading_started_is fs faults sched self directory keywords file_pattern :
  dir_exists fs directory = true ->
  Threading.num_threads self <> 0%Z ->
  exists chunks,
    Common.split_files_into_chunks (Threading.num_threads self)
                                   (glob fs directory file_pattern) = Ok chunks /\
    Threading.started
      (Threading.search_files fs faults sched self directory keywords file_pattern)
    = match glob fs directory file_pattern with
      | [] => []
      | _ :: _ => Common.spawn chunks
      end.
Proof.
  intros D NZ.
  destruct (threading_paths fs faults sched self directory keywords file_pattern)
    as [D'|D' G|D' G Z0|cs D' G NZ' E self2]; simpl_run; try congruence.
  - destruct (split_nonzero _ (glob fs directory file_pattern) NZ) as (cs & E).
    exists cs. rewrite G in *. auto.
  - exists cs. split; [exact E|]. now destruct (glob fs directory file_pattern).
Qed.

Lemma multiprocessing_started_is fs faults channel self directory keywords
      file_pattern :
  dir_exists fs directory = true ->
  Multiprocessing.num_processes self <> 0%Z ->
  exists chunks,
    Common.split_files_into_chunks (Multiprocessing.num_processes self)
                                   (glob fs directory file_pattern) = Ok chunks /\
    Multiprocessing.started
      (Multiprocessing.search_files fs faults channel self directory keywords
                                    file_pattern)
    = match glob fs directory file_pattern with
      | [] => []
      | _ :: _ => Common.spawn chunks
      end.
Proof.
  intros D NZ.
  destruct (multiprocessing_paths fs faults channel self directory keywords file_pattern)
    as [D'|D' G|D' G Z0|cs D' G NZ' E st]; simpl_run; try congruence.
  - destruct (split_nonzero _ (glob fs directory file_pattern) NZ) as (cs & E).
    exists cs. rewrite G in *. auto.
  - exists cs. split; [exact E|]. now destruct (glob fs directory file_pattern).
Qed.

(** The workers started for [n] workers asked for and the listed files. *)
Definition as_expected (n : Z) (file_paths : list string)
           (workers : list (list string * nat)) : Prop :=
  map snd workers = seq 1 (Nat.min (Z.to_nat n) (length file_paths)) /\
  flat_map fst workers = file_paths /\
  Forall (fun w : list string * nat => fst w <> []) workers.

Lemma started_as_expected (n : Z) (file_paths : list string) (chunks : list (list string)) :
  (1 <= n)%Z ->
  Common.split_files_into_chunks n file_paths = Ok chunks ->
  as_expected n file_paths
              match file_paths with [] => [] | _ :: _ => Common.spawn chunks end.
Proof.
  intros Hn E. destruct file_paths as [|f files].
  - unfold as_expected. cbn. rewrite Nat.min_0_r. repeat split. constructor.
  - now apply spawn_of_split.
Qed.

(** Non-empty chunks are no more than the files they hold. *)
Lemma nonempty_chunks_le (workers : list (list string * nat)) :
  Forall (fun w : list string * nat => fst w <> []) workers ->
  length workers <= length (flat_map fst workers).
Proof.
  induction 1 as [|[c id] ws Hc _ IH]; cbn in *; [lia|].
  rewrite length_app. destruct c; [contradiction|cbn; lia].
Qed.

(** As many non-empty chunks as files: one file each. *)
Lemma one_file_each (workers : list (list string * nat)) : forall files,
  flat_map fst workers = files ->
  Forall (fun w : list string * nat => fst w <> []) workers ->
  length workers = length files ->
  map fst workers = map (fun f => [f]) files.
Proof.
  induction workers as [|[c id] ws IH]; intros files Hcat Hne Hlen; cbn in *.
  - destruct files; [reflexivity|discriminate].
  - inversion Hne as [|? ? Hc Hne']; subst. cbn in Hc.
    destruct c as [|f c]; [contradiction|].
    pose proof (nonempty_chunks_le ws Hne') as Hle.
    cbn in Hlen. rewrite length_app in Hlen.
    assert (c = []) by (destruct c; [reflexivity|cbn in Hlen; lia]).
    subst c. cbn. f_equal. apply IH; [reflexivity|exact Hne'|].
    cbn in Hlen. lia.
Qed.

End Started.

Import Started.

(** X5.  With a worker count W of at least one and N listed files, either
    realization starts exactly min(W, N) workers, numbered 1, 2, ...,
    min(W, N); none of them has an empty chunk, and their chunks, taken in
    that order, make up the listing. *)
Theorem started_workers
        (fs : FileSystem) (faults : Faults)
        (sched : list (list string * nat) -> list (list string * nat))
        (channel : list Multiprocessing.result_data
                   -> list (option Multiprocessing.result_data))
        (th : Threading.ThreadingFileSearcher)
        (mp : Multiprocessing.MultiprocessingFileSearcher)
        (directory : string) (keywords : list string) (file_pattern : string) :
  dir_exists fs directory = true ->
  (1 <= Threading.num_threads th)%Z -> (1 <= Multiprocessing.num_processes mp)%Z ->
  as_expected
    (Threading.num_threads th) (glob fs directory file_pattern)
    (Threading.started
       (Threading.search_files fs faults sched th directory keywords file_pattern)) /\
  as_expected
    (Multiprocessing.num_processes mp) (glob fs directory file_pattern)
    (Multiprocessing.started
       (Multiprocessing.search_files fs faults channel mp directory keywords
                                     file_pattern)).
Proof.
  intros D Ht Hp. split.
  - destruct (threading_started_is fs faults sched th directory keywords file_pattern
                                   D ltac:(lia)) as (cs & E & ->).
    now apply started_as_expected.
  - destruct (multiprocessing_started_is fs faults channel mp directory keywords
                                         file_pattern D ltac:(lia)) as (cs & E & ->).
    now apply started_as_expected.
Qed.

Lemma started_workers_witness :
  dir_exists Scenario.fs "corpus" = true /\
  (1 <= Threading.num_threads (Threading.init 5))%Z /\
  (1 <= Multiprocessing.num_processes (Multiprocessing.init 8 (Some 5%Z)))%Z /\
  as_expected
    (Threading.num_threads (Threading.init 5)) (glob Scenario.fs "corpus" "*.txt")
    (Threading.started
       (Threading.search_files Scenario.fs no_faults Scenario.in_order
                               (Threading.init 5) "corpus" Scenario.keywords "*.txt")) /\
  as_expected
    (Multiprocessing.num_processes (Multiprocessing.init 8 (Some 5%Z)))
    (glob Scenario.fs "corpus" "*.txt")
    (Multiprocessing.started
       (Multiprocessing.search_files Scenario.fs no_faults Scenario.fifo
                                     (Multiprocessing.init 8 (Some 5%Z))
                                     "corpus" Scenario.keywords "*.txt")).
Proof.
  assert (D : dir_exists Scenario.fs "corpus" = true) by reflexivity.
  assert (Ht : (1 <= Threading.num_threads (Threading.init 5))%Z) by (cbn; lia).
  assert (Hp : (1 <= Multiprocessing.num_processes
                       (Multiprocessing.init 8 (Some 5%Z)))%Z) by (cbn; lia).
  split; [exact D|]. split; [exact Ht|]. split; [exact Hp|].
  exact (started_workers Scenario.fs no_faults Scenario.in_order Scenario.fifo
                         (Threading.init 5) (Multiprocessing.init 8 (Some 5%Z))
                         "corpus" Scenario.keywords "*.txt" D Ht Hp).
Defined.

(** X6.  When the worker count is at least the number of listed files,
    either realization gives every file a worker of its own: worker [i]
    scans only the [i]-th listed file, and no further worker is started. *)
Theorem one_worker_per_file
        (fs : FileSystem) (faults : Faults)
        (sched : list (list string * nat) -> list (list string * nat))
        (channel : list Multiprocessing.result_data
                   -> list (option Multiprocessing.result_data))
        (th : Threading.ThreadingFileSearcher)
        (mp : Multiprocessing.MultiprocessingFileSearcher)
        (directory : string) (keywords : list string) (file_pattern : string) :
  dir_exists fs directory = true ->
  (1 <= Threading.num_threads th)%Z -> (1 <= Multiprocessing.num_processes mp)%Z ->
  (Z.of_nat (length (glob fs directory file_pattern)) <= Threading.num_threads th)%Z ->
  (Z.of_nat (length (glob fs directory file_pattern))
   <= Multiprocessing.num_processes mp)%Z ->
  let expected :=
    combine (map (fun f => [f]) (glob fs directory file_pattern))
            (seq 1 (length (glob fs directory file_pattern))) in
  Threading.started
    (Threading.search_files fs faults sched th directory keywords file_pattern)
  = expected /\
  Multiprocessing.started
    (Multiprocessing.search_files fs faults channel mp directory keywords file_pattern)
  = expected.
Proof.
  intros D Ht Hp Nt Np expected.
  assert (Hshape : forall n ws,
             (Z.of_nat (length (glob fs directory file_pattern)) <= n)%Z ->
             as_expected n (glob fs directory file_pattern) ws -> ws = expected).
  { intros n ws Hn (Hids & Hcat & Hne).
    rewrite Nat.min_r in Hids by lia.
    assert (Hlen : length ws = length (glob fs directory file_pattern)).
    { rewrite <- (length_map snd ws), Hids. apply length_seq. }
    pose proof (one_file_each ws _ Hcat Hne Hlen) as Hfst.
    subst expected. rewrite <- Hfst, <- Hids.
    clear. induction ws as [|[c id] ws IH]; cbn; [reflexivity|]. now f_equal. }
  destruct (started_workers fs faults sched channel th mp directory keywords
                            file_pattern D Ht Hp) as [At Ap].
  split; [apply (Hshape _ _ Nt At)|apply (Hshape _ _ Np Ap)].
Qed.

Lemma one_worker_per_file_witness :
  dir_exists Scenario.fs "corpus" = true /\
  (1 <= Threading.num_threads (Threading.init 5))%Z /\
  (1 <= Multiprocessing.num_processes (Multiprocessing.init 8 (Some 3%Z)))%Z /\
  (Z.of_nat (length (glob Scenario.fs "corpus" "*.txt"))
   <= Threading.num_threads (Threading.init 5))%Z /\
  (Z.of_nat (length (glob Scenario.fs "corpus" "*.txt"))
   <= Multiprocessing.num_processes (Multiprocessing.init 8 (Some 3%Z)))%Z /\
  let expected :=
    combine (map (fun f => [f]) (glob Scenario.fs "corpus" "*.txt"))
            (seq 1 (length (glob Scenario.fs "corpus" "*.txt"))) in
  Threading.started
    (Threading.search_files Scenario.fs no_faults Scenario.in_order (Threading.init 5)
                            "corpus" Scenario.keywords "*.txt")
  = expected /\
  Multiprocessing.started
    (Multiprocessing.search_files Scenario.fs no_faults Scenario.fifo
                                  (Multiprocessing.init 8 (Some 3%Z))
                                  "corpus" Scenario.keywords "*.txt")
  = expected.
Proof.
  assert (D : dir_exists Scenario.fs "corpus" = true) by reflexivity.
  assert (Ht : (1 <= Threading.num_threads (Threading.init 5))%Z) by (cbn; lia).
  assert (Hp : (1 <= Multiprocessing.num_processes
                       (Multiprocessing.init 8 (Some 3%Z)))%Z) by (cbn; lia).
  assert (Nt : (Z.of_nat (length (glob Scenario.fs "corpus" "*.txt"))
                <= Threading.num_threads (Threading.init 5))%Z) by (cbn; lia).
  assert (Np : (Z.of_nat (length (glob Scenario.fs "corpus" "*.txt"))
                <= Multiprocessing.num_processes
                     (Multiprocessing.init 8 (Some 3%Z)))%Z) by (cbn; lia).
  split; [exact D|]. split; [exact Ht|]. split; [exact Hp|].
  split; [exact Nt|]. split; [exact Np|].
  exact (one_worker_per_file Scenario.fs no_faults Scenario.in_order Scenario.fifo
                             (Threading.init 5) (Multiprocessing.init 8 (Some 3%Z))
                             "corpus" Scenario.keywords "*.txt" D Ht Hp Nt Np).
Defined.

(* ================================================================= *)
(** ** The order of the returned lists *)

Module Order.
Import DictFacts Scan Driver Runs Outcome.

Lemma short_permutation {A} (l l' : list A) :
  Permutation l l' -> length l' <= 1 -> l = l'.
Proof.
  intros P Hlen. destruct l' as [|x [|y l']]; cbn in Hlen; try lia.
  - now apply Permutation_nil, Permutation_sym.
  - symmetry in P. now apply Permutation_length_1_inv in P.
Qed.

(** The threads finish in the order in which they were started. *)
Definition threads_in_order (fs : FileSystem) (self : Threading.ThreadingFileSearcher)
           (directory file_pattern : string)
           (sched : list (list string * nat) -> list (list string * nat)) : Prop :=
  forall chunks,
    Common.split_files_into_chunks (Threading.num_threads self)
                                   (glob fs directory file_pattern) = Ok chunks ->
    sched (Common.spawn chunks) = Common.spawn chunks.

(** The messages arrive in the order in which the workers were started. *)
Definition messages_in_order (fs : FileSystem) (faults : Faults)
           (self : Multiprocessing.MultiprocessingFileSearcher)
           (directory : string) (keywords : list string) (file_pattern : string)
           (channel : list Multiprocessing.result_data
                      -> list (option Multiprocessing.result_data)) : Prop :=
  forall chunks,
    Common.split_files_into_chunks (Multiprocessing.num_processes self)
                                   (glob fs directory file_pattern) = Ok chunks ->
    channel (Multiprocessing.messages fs faults keywords (Common.spawn chunks))
    = map Some (Multiprocessing.messages fs faults keywords (Common.spawn chunks)).

Lemma threading_ordered fs faults sched self directory keywords file_pattern m :
  threads_in_order fs self directory file_pattern sched ->
  Threading.returned
    (Threading.search_files fs faults sched self directory keywords file_pattern)
  = Ok m ->
  forall k,
    get_list m k
    = filter (hit fs keywords k)
             (scanned faults
                (Threading.started
                   (Threading.search_files fs faults sched self directory keywords
                                           file_pattern))).
Proof.
  intros O.
  destruct (threading_paths fs faults sched self directory keywords file_pattern)
    as [D|D G|D G Z0|cs D G NZ E self2]; simpl_run; try discriminate; intros [= <-] k.
  - reflexivity.
  - subst self2. rewrite (O cs E).
    destruct (run_threads fs faults keywords (Common.spawn cs)
                          (Threading.reset self (length (glob fs directory file_pattern)))
                          tidy_empty) as (Hget & _).
    apply get_list_grow_none. apply Hget.
Qed.

Lemma multiprocessing_ordered fs faults channel self directory keywords file_pattern m :
  messages_in_order fs faults self directory keywords file_pattern channel ->
  Multiprocessing.returned
    (Multiprocessing.search_files fs faults channel self directory keywords file_pattern)
  = Ok m ->
  forall k,
    get_list m k
    = filter (hit fs keywords k)
             (scanned faults
                (Multiprocessing.started
                   (Multiprocessing.search_files fs faults channel self directory
                                                 keywords file_pattern))).
Proof.
  intros O.
  destruct (multiprocessing_paths fs faults channel self directory keywords file_pattern)
    as [D|D G|D G Z0|cs D G NZ E st]; simpl_run; try discriminate; intros [= <-] k.
  - reflexivity.
  - subst st. rewrite (O cs E), messages_map.
    rewrite <- (length_map (message_of fs faults keywords) (Common.spawn cs)).
    rewrite collect_all.
    destruct (absorb_messages fs faults keywords (Common.spawn cs)
                (Multiprocessing.reset self (length (glob fs directory file_pattern)))
                [] tidy_empty) as (Hget & _).
    apply get_list_grow_none. apply Hget.
Qed.

Lemma single_spawn (file_list : list string) (chunks : list (list string)) :
  Common.split_files_into_chunks 1 file_list = Ok chunks ->
  length (Common.spawn chunks) <= 1.
Proof.
  intros E. destruct (Started.spawn_of_split 1 file_list chunks ltac:(lia) E) as [H _].
  rewrite <- (length_map snd), H, length_seq. apply Nat.le_min_l.
Qed.

End Order.

Import Order.

(** X7.  When the workers finish in the order in which they were started (for
    the multiprocessing realization: their messages arrive in that order),
    no worker fails and the worker count is at least one, the list returned
    for a keyword holds the matching files in the order of the directory
    listing. *)
Theorem results_in_listing_order
        (fs : FileSystem)
        (sched : list (list string * nat) -> list (list string * nat))
        (channel : list Multiprocessing.result_data
                   -> list (option Multiprocessing.result_data))
        (th : Threading.ThreadingFileSearcher)
        (mp : Multiprocessing.MultiprocessingFileSearcher)
        (directory : string) (keywords : list string) (file_pattern : string) :
  (forall threads, sched threads = threads) ->
  (forall msgs, channel msgs = map Some msgs) ->
  (1 <= Threading.num_threads th)%Z -> (1 <= Multiprocessing.num_processes mp)%Z ->
  (forall m,
     Threading.returned
       (Threading.search_files fs no_faults sched th directory keywords file_pattern)
     = Ok m ->
     forall k, get_list m k
               = filter (hit fs keywords k) (glob fs directory file_pattern)) /\
  (forall m,
     Multiprocessing.returned
       (Multiprocessing.search_files fs no_faults channel mp directory keywords
                                     file_pattern)
     = Ok m ->
     forall k, get_list m k
               = filter (hit fs keywords k) (glob fs directory file_pattern)).
Proof.
  intros Hs Hc Ht Hp. split; intros m Hm k.
  - rewrite (threading_ordered fs no_faults sched th directory keywords file_pattern m)
      by (try assumption; intros cs _; apply Hs).
    rewrite scanned_no_faults, (threading_started _ _ _ _ _ _ _ m Hm).
    now rewrite Search.handed_all.
  - rewrite (multiprocessing_ordered fs no_faults channel mp directory keywords
                                     file_pattern m)
      by (try assumption; intros cs _; apply Hc).
    rewrite scanned_no_faults, (multiprocessing_started _ _ _ _ _ _ _ m Hm).
    now rewrite Search.handed_all.
Qed.

Lemma results_in_listing_order_witness :
  (forall threads, Scenario.in_order threads = threads) /\
  (forall msgs, Scenario.fifo msgs = map Some msgs) /\
  (1 <= Threading.num_threads (Threading.init 2))%Z /\
  (1 <= Multiprocessing.num_processes (Multiprocessing.init 8 (Some 2%Z)))%Z /\
  (forall m,
     Threading.returned
       (Threading.search_files Scenario.fs no_faults Scenario.in_order
                               (Threading.init 2) "corpus" Scenario.keywords "*.txt")
     = Ok m ->
     forall k, get_list m k
               = filter (hit Scenario.fs Scenario.keywords k)
                        (glob Scenario.fs "corpus" "*.txt")) /\
  (forall m,
     Multiprocessing.returned
       (Multiprocessing.search_files Scenario.fs no_faults Scenario.fifo
                                     (Multiprocessing.init 8 (Some 2%Z))
                                     "corpus" Scenario.keywords "*.txt")
     = Ok m ->
     forall k, get_list m k
               = filter (hit Scenario.fs Scenario.keywords k)
                        (glob Scenario.fs "corpus" "*.txt")).
Proof.
  assert (Hs : forall threads, Scenario.in_order threads = threads) by reflexivity.
  assert (Hc : forall msgs, Scenario.fifo msgs = map Some msgs) by reflexivity.
  assert (Ht : (1 <= Threading.num_threads (Threading.init 2))%Z) by (cbn; lia).
  assert (Hp : (1 <= Multiprocessing.num_processes
                       (Multiprocessing.init 8 (Some 2%Z)))%Z) by (cbn; lia).
  split; [exact Hs|]. split; [exact Hc|]. split; [exact Ht|]. split; [exact Hp|].
  exact (results_in_listing_order Scenario.fs Scenario.in_order Scenario.fifo
                                  (Threading.init 2) (Multiprocessing.init 8 (Some 2%Z))
                                  "corpus" Scenario.keywords "*.txt" Hs Hc Ht Hp).
Defined.

(** X8.  With a single worker, as in the sequential baseline of the
    benchmark, the scheduler and the queue have no say: when that worker
    does not fail and its result is collected, the list returned for a
    keyword holds the matching files in the order of the directory
    listing. *)
Theorem single_worker_keeps_listing_order
        (fs : FileSystem)
        (sched : list (list string * nat) -> list (list string * nat))
        (channel : list Multiprocessing.result_data
                   -> list (option Multiprocessing.result_data))
        (th : Threading.ThreadingFileSearcher)
        (mp : Multiprocessing.MultiprocessingFileSearcher)
        (directory : string) (keywords : list string) (file_pattern : string) :
  fair sched -> reliable channel ->
  Threading.num_threads th = 1%Z -> Multiprocessing.num_processes mp = 1%Z ->
  (forall m,
     Threading.returned
       (Threading.search_files fs no_faults sched th directory keywords file_pattern)
     = Ok m ->
     forall k, get_list m k
               = filter (hit fs keywords k) (glob fs directory file_pattern)) /\
  (forall m,
     Multiprocessing.returned
       (Multiprocessing.search_files fs no_faults channel mp directory keywords
                                     file_pattern)
     = Ok m ->
     forall k, get_list m k
               = filter (hit fs keywords k) (glob fs directory file_pattern)).
Proof.
  intros F R Ht Hp. split; intros m Hm k.
  - rewrite (threading_ordered fs no_faults sched th directory keywords file_pattern m);
      [|intros cs E|exact Hm].
    + rewrite scanned_no_faults, (threading_started _ _ _ _ _ _ _ m Hm).
      rewrite Search.handed_all by lia. reflexivity.
    + rewrite Ht in E. apply short_permutation; [apply F|now apply single_spawn in E].
  - rewrite (multiprocessing_ordered fs no_faults channel mp directory keywords
                                     file_pattern m); [|intros cs E|exact Hm].
    + rewrite scanned_no_faults, (multiprocessing_started _ _ _ _ _ _ _ m Hm).
      rewrite Search.handed_all by lia. reflexivity.
    + rewrite Hp in E. apply short_permutation; [apply R|].
      rewrite length_map, messages_map, length_map. now apply single_spawn in E.
Qed.

Lemma single_worker_keeps_listing_order_witness :
  fair Scenario.in_order /\ reliable Scenario.fifo /\
  Threading.num_threads (Threading.init 1) = 1%Z /\
  Multiprocessing.num_processes (Multiprocessing.init 8 (Some 1%Z)) = 1%Z /\
  (forall m,
     Threading.returned
       (Threading.search_files Scenario.fs no_faults Scenario.in_order
                               (Threading.init 1) "corpus" Scenario.keywords "*.txt")
     = Ok m ->
     forall k, get_list m k
               = filter (hit Scenario.fs Scenario.keywords k)
                        (glob Scenario.fs "corpus" "*.txt")) /\
  (forall m,
     Multiprocessing.returned
       (Multiprocessing.search_files Scenario.fs no_faults Scenario.fifo
                                     (Multiprocessing.init 8 (Some 1%Z))
                                     "corpus" Scenario.keywords "*.txt")
     = Ok m ->
     forall k, get_list m k
               = filter (hit Scenario.fs Scenario.keywords k)
                        (glob Scenario.fs "corpus" "*.txt")).
Proof.
  assert (F : fair Scenario.in_order) by (intros l; apply Permutation_refl).
  assert (R : reliable Scenario.fifo) by (intros l; apply Permutation_refl).
  split; [exact F|]. split; [exact R|]. split; [reflexivity|]. split; [reflexivity|].
  exact (single_worker_keeps_listing_order
           Scenario.fs Scenario.in_order Scenario.fifo
           (Threading.init 1) (Multiprocessing.init 8 (Some 1%Z))
           "corpus" Scenario.keywords "*.txt" F R eq_refl eq_refl).
Defined.

(** X9.  When a [get] of the collection loop times out before every started
    worker has reported, the multiprocessing driver still returns: the
    returned lists are those of the workers whose messages arrived before
    the time-out, in the order of arrival, [processed_files] counts their
    files only, and whatever reaches the queue later is not merged. *)
Theorem timeout_keeps_what_arrived
        (fs : FileSystem) (faults : Faults)
        (channel : list Multiprocessing.result_data
                   -> list (option Multiprocessing.result_data))
        (mp : Multiprocessing.MultiprocessingFileSearcher)
        (directory : string) (keywords : list string) (file_pattern : string)
        (arrived : list (list string * nat))
        (later : list (option Multiprocessing.result_data)) :
  dir_exists fs directory = true ->
  glob fs directory file_pattern <> [] ->
  Multiprocessing.num_processes mp <> 0%Z ->
  let p := Multiprocessing.search_files fs faults channel mp directory keywords
                                        file_pattern in
  channel (Multiprocessing.messages fs faults keywords (Multiprocessing.started p))
  = map Some (map (message_of fs faults keywords) arrived) ++ None :: later ->
  length arrived < length (Multiprocessing.started p) ->
  exists m,
    Multiprocessing.returned p = Ok m /\
    (forall k, get_list m k = filter (hit fs keywords k) (scanned faults arrived)) /\
    Multiprocessing.processed_files (Multiprocessing.final p)
    = length (scanned faults arrived).
Proof.
  intros D NE NZ p. subst p.
  destruct (multiprocessing_paths fs faults channel mp directory keywords file_pattern)
    as [D'|D' G|D' G Z0|cs D' G NZ' E st]; simpl_run; try congruence.
  intros Hch Hlen. subst st. rewrite Hch.
  rewrite collect_until_timeout by (now rewrite length_map).
  destruct (absorb_messages fs faults keywords arrived
              (Multiprocessing.reset mp (length (glob fs directory file_pattern)))
              [] tidy_empty) as (Hget & _ & Hp & _).
  eexists. split; [reflexivity|]. split.
  - intros k. apply get_list_grow_none, Hget.
  - exact Hp.
Qed.

(** The second worker of the scenario never reports. *)
Definition second_is_late (msgs : list Multiprocessing.result_data)
  : list (option Multiprocessing.result_data) :=
  map Some (firstn 1 msgs) ++ [None].

Lemma timeout_keeps_what_arrived_witness :
  let p := Multiprocessing.search_files Scenario.fs no_faults second_is_late
                                        (Multiprocessing.init 8 (Some 2%Z))
                                        "corpus" Scenario.keywords "*.txt" in
  dir_exists Scenario.fs "corpus" = true /\
  glob Scenario.fs "corpus" "*.txt" <> [] /\
  Multiprocessing.num_processes (Multiprocessing.init 8 (Some 2%Z)) <> 0%Z /\
  length [(["a.txt"; "b.txt"]%string, 1)] < length (Multiprocessing.started p) /\
  exists m,
    Multiprocessing.returned p = Ok m /\
    (forall k, get_list m k
               = filter (hit Scenario.fs Scenario.keywords k)
                        (scanned no_faults [(["a.txt"; "b.txt"]%string, 1)])) /\
    Multiprocessing.processed_files (Multiprocessing.final p)
    = length (scanned no_faults [(["a.txt"; "b.txt"]%string, 1)]).
Proof.
  intros p.
  assert (D : dir_exists Scenario.fs "corpus" = true) by reflexivity.
  assert (NE : glob Scenario.fs "corpus" "*.txt" <> []) by (cbn; discriminate).
  assert (NZ : Multiprocessing.num_processes (Multiprocessing.init 8 (Some 2%Z)) <> 0%Z)
    by (cbn; lia).
  assert (Hlen : length [(["a.txt"; "b.txt"]%string, 1)]
                 < length (Multiprocessing.started p)) by (vm_compute; lia).
  split; [exact D|]. split; [exact NE|]. split; [exact NZ|]. split; [exact Hlen|].
  exact (timeout_keeps_what_arrived
           Scenario.fs no_faults second_is_late (Multiprocessing.init 8 (Some 2%Z))
           "corpus" Scenario.keywords "*.txt"
           [(["a.txt"; "b.txt"]%string, 1)] [] D NE NZ eq_refl Hlen).
Defined.

(* ================================================================= *)
(** ** Further properties of the matcher *)

Module MatcherMore.
Import DictFacts Scan.

(** Two word boundaries in a row are found wherever one boundary is. *)
Lemma search_boundaries (rest : text) : forall prev,
  Re.search_from [Re.WordBoundary; Re.WordBoundary] prev rest
  = Re.wordy prev || existsb is_word_char rest.
Proof.
  induction rest as [|x rest IH]; intros prev; cbn [Re.search_from Re.match_here].
  - unfold Re.at_boundary. cbn. destruct (Re.wordy prev); reflexivity.
  - rewrite IH. unfold Re.at_boundary. cbn.
    destruct (Re.wordy prev), (is_word_char x); reflexivity.
Qed.

Lemma existsb_word_lower (s : text) :
  existsb is_word_char (lower s) = existsb is_word_char s.
Proof.
  unfold lower. induction s as [|c s IH]; cbn [map existsb]; [reflexivity|].
  now rewrite Matcher.lower_char_wordy, IH.
Qed.

Lemma empty_keyword_found (raw : text) :
  Common.keyword_found (lower raw) "" = existsb is_word_char raw.
Proof.
  unfold Common.keyword_found, Re.search. cbn [Common.keyword_pattern].
  change (Common.keyword_pattern "") with [Re.WordBoundary; Re.WordBoundary].
  rewrite search_boundaries. cbn. apply existsb_word_lower.
Qed.

(** What the dict of either matcher holds under a key. *)
Lemma found_keywords_get fs keywords f k :
  get (found_keywords fs keywords f) k
  = if existsb (String.eqb k) keywords
    then Some match read_text fs f with
              | Some raw => Common.keyword_found (lower raw) k
              | None => false
              end
    else None.
Proof.
  unfold found_keywords, Common.scan_content, Common.all_false.
  destruct (read_text fs f); now rewrite get_comprehension.
Qed.

Lemma listed (k : string) (keywords : list string) :
  existsb (String.eqb k) keywords = true <-> In k keywords.
Proof.
  rewrite existsb_exists. split.
  - intros (x & Hin & E). apply String.eqb_eq in E. now subst x.
  - intros Hin. exists k. split; [exact Hin|apply String.eqb_refl].
Qed.

End MatcherMore.

Import MatcherMore.

(** X10.  The empty keyword is reported for a readable file exactly when the
    file holds at least one word character: its pattern is two word
    boundaries in a row. *)
Theorem empty_keyword_matches_any_word
        (fs : FileSystem) (self : Threading.ThreadingFileSearcher)
        (filepath : string) (raw : text) (keywords : list string) :
  read_text fs filepath = Some raw ->
  In ""%string keywords ->
  get (snd (Threading.search_keywords_in_file fs self filepath keywords)) ""
  = Some (existsb is_word_char raw) /\
  get (snd (Multiprocessing.search_keywords_in_file fs filepath keywords)) ""
  = Some (existsb is_word_char raw).
Proof.
  intros R Hin. rewrite threading_found, multiprocessing_found. cbn [snd].
  rewrite found_keywords_get, R, empty_keyword_found.
  apply listed in Hin. rewrite Hin. split; reflexivity.
Qed.

Lemma empty_keyword_matches_any_word_witness :
  let fs := Scenario.single "-- ok --" in
  read_text fs "doc.txt" = Some (of_string "-- ok --") /\
  In ""%string ["python"; ""]%string /\
  get (snd (Threading.search_keywords_in_file fs (Threading.init 4) "doc.txt"
                                              ["python"; ""]%string)) ""
  = Some (existsb is_word_char (of_string "-- ok --")) /\
  get (snd (Multiprocessing.search_keywords_in_file fs "doc.txt"
                                                    ["python"; ""]%string)) ""
  = Some (existsb is_word_char (of_string "-- ok --")).
Proof.
  intros fs.
  assert (R : read_text fs "doc.txt" = Some (of_string "-- ok --")) by reflexivity.
  assert (Hin : In ""%string ["python"; ""]%string) by (cbn; auto).
  split; [exact R|]. split; [exact Hin|].
  exact (empty_keyword_matches_any_word fs (Threading.init 4) "doc.txt"
                                        (of_string "-- ok --")
                                        ["python"; ""]%string R Hin).
Defined.

(** X11.  Neither matcher reports a keyword it was not asked for, a keyword
    of a file that cannot be read, or a keyword whose lower-cased form does
    not occur in the lower-cased content of the file, whatever characters
    the keyword is made of. *)
Theorem reported_keyword_occurs
        (fs : FileSystem) (self : Threading.ThreadingFileSearcher)
        (filepath : string) (keywords : list string) (keyword : string) :
  get (snd (Threading.search_keywords_in_file fs self filepath keywords)) keyword
  = Some true \/
  get (snd (Multiprocessing.search_keywords_in_file fs filepath keywords)) keyword
  = Some true ->
  In keyword keywords /\
  exists raw before after,
    read_text fs filepath = Some raw /\
    lower raw = before ++ lower (of_string keyword) ++ after.
Proof.
  rewrite threading_found, multiprocessing_found. cbn [snd].
  rewrite found_keywords_get. intros H.
  assert (H' : (if existsb (String.eqb keyword) keywords
                then Some match read_text fs filepath with
                          | Some raw => Common.keyword_found (lower raw) keyword
                          | None => false
                          end
                else None) = Some true) by (destruct H; assumption).
  clear H. destruct (existsb (String.eqb keyword) keywords) eqn:E; [|discriminate].
  split; [now apply listed|].
  destruct (read_text fs filepath) as [raw|]; [|discriminate].
  injection H' as H'. apply Matcher.keyword_found_cut in H'.
  destruct H' as (before & after & Hcut & _). eauto.
Qed.

Lemma reported_keyword_occurs_witness :
  let fs := Scenario.single "I like Python a lot" in
  (get (snd (Threading.search_keywords_in_file fs (Threading.init 4) "doc.txt"
                                               ["python"%string])) "python"
   = Some true \/
   get (snd (Multiprocessing.search_keywords_in_file fs "doc.txt"
                                                     ["python"%string])) "python"
   = Some true) /\
  In "python"%string ["python"%string] /\
  exists raw before after,
    read_text fs "doc.txt" = Some raw /\
    lower raw = before ++ lower (of_string "python") ++ after.
Proof.
  intros fs.
  assert (H : get (snd (Threading.search_keywords_in_file
                          fs (Threading.init 4) "doc.txt" ["python"%string])) "python"
              = Some true \/
              get (snd (Multiprocessing.search_keywords_in_file
                          fs "doc.txt" ["python"%string])) "python"
              = Some true) by (left; reflexivity).
  split; [exact H|].
  exact (reported_keyword_occurs fs (Threading.init 4) "doc.txt" ["python"%string]
                                 "python" H).
Defined.

(** X12.  A search over a directory in which no file matches the pattern
    returns before the searcher is reset: run on a searcher that has just
    scanned N files, it returns the empty mapping and starts no worker, but
    leaves [processed_files] at N, and the threading searcher still holds
    the mapping of the earlier run. *)
Theorem empty_listing_keeps_old_counters
        (fs1 fs2 : FileSystem)
        (sched1 sched2 : list (list string * nat) -> list (list string * nat))
        (channel1 channel2 : list Multiprocessing.result_data
                             -> list (option Multiprocessing.result_data))
        (th : Threading.ThreadingFileSearcher)
        (mp : Multiprocessing.MultiprocessingFileSearcher)
        (directory : string) (keywords : list string) (file_pattern : string) :
  fair sched1 -> reliable channel1 ->
  (1 <= Threading.num_threads th)%Z -> (1 <= Multiprocessing.num_processes mp)%Z ->
  dir_exists fs1 directory = true -> glob fs1 directory file_pattern <> [] ->
  dir_exists fs2 directory = true -> glob fs2 directory file_pattern = [] ->
  let t1 := Threading.search_files fs1 no_faults sched1 th directory keywords
                                   file_pattern in
  let t2 := Threading.search_files fs2 no_faults sched2 (Threading.final t1)
                                   directory keywords file_pattern in
  let p1 := Multiprocessing.search_files fs1 no_faults channel1 mp directory keywords
                                         file_pattern in
  let p2 := Multiprocessing.search_files fs2 no_faults channel2 (Multiprocessing.final p1)
                                         directory keywords file_pattern in
  Threading.returned t2 = Ok [] /\ Threading.started t2 = [] /\
  Threading.processed_files (Threading.final t2)
  = length (glob fs1 directory file_pattern) /\
  Threading.returned t1 = Ok (Threading.results (Threading.final t2)) /\
  Multiprocessing.returned p2 = Ok [] /\ Multiprocessing.started p2 = [] /\
  Multiprocessing.processed_files (Multiprocessing.final p2)
  = length (glob fs1 directory file_pattern).
Proof.
  intros F R Ht Hp D1 NE D2 G2 t1 t2 p1 p2.
  assert (E2 : t2 = {| Threading.final := Threading.final t1; Threading.started := [];
                       Threading.returned := Ok [] |}).
  { subst t2. unfold Threading.search_files at 1. now rewrite D2, G2. }
  assert (Q2 : p2 = {| Multiprocessing.final := Multiprocessing.final p1;
                       Multiprocessing.started := [];
                       Multiprocessing.returned := Ok [] |}).
  { subst p2. unfold Multiprocessing.search_files at 1. now rewrite D2, G2. }
  rewrite E2, Q2. simpl_run.
  destruct (Search.threading_returns fs1 no_faults sched1 th directory keywords
                                     file_pattern D1 ltac:(lia)) as (m & Hm).
  destruct (Search.multiprocessing_returns fs1 no_faults channel1 mp directory keywords
                                           file_pattern D1 ltac:(lia)) as (q & Hq).
  destruct (threading_counters _ _ _ _ _ _ _ F m Hm NE) as [_ Hpt].
  destruct (multiprocessing_counters _ _ _ _ _ _ _ R q Hq NE) as [Hpp _].
  rewrite scanned_no_faults in Hpt, Hpp.
  rewrite (threading_started _ _ _ _ _ _ _ m Hm), Search.handed_all in Hpt
    by assumption.
  rewrite (multiprocessing_started _ _ _ _ _ _ _ q Hq), Search.handed_all in Hpp
    by assumption.
  repeat split; try assumption.
  subst t1. clear - NE D1 Ht.
  destruct (threading_paths fs1 no_faults sched1 th directory keywords file_pattern)
    as [D|D G|D G Z0|cs D G NZ E self2]; simpl_run; try congruence. lia.
Qed.

(** A directory that exists and lists no file. *)
Definition emptied : FileSystem :=
  {| dir_exists := fun _ => true;
     glob := fun _ _ => [];
     read_text := fun _ => None |}.

Lemma empty_listing_keeps_old_counters_witness :
  fair Scenario.in_order /\ reliable Scenario.fifo /\
  (1 <= Threading.num_threads (Threading.init 2))%Z /\
  (1 <= Multiprocessing.num_processes (Multiprocessing.init 8 (Some 2%Z)))%Z /\
  dir_exists Scenario.fs "corpus" = true /\ glob Scenario.fs "corpus" "*.txt" <> [] /\
  dir_exists emptied "corpus" = true /\ glob emptied "corpus" "*.txt" = [] /\
  let t1 := Threading.search_files Scenario.fs no_faults Scenario.in_order
                                   (Threading.init 2) "corpus" Scenario.keywords
                                   "*.txt" in
  let t2 := Threading.search_files emptied no_faults Scenario.in_order
                                   (Threading.final t1) "corpus" Scenario.keywords
                                   "*.txt" in
  let p1 := Multiprocessing.search_files Scenario.fs no_faults Scenario.fifo
                                         (Multiprocessing.init 8 (Some 2%Z))
                                         "corpus" Scenario.keywords "*.txt" in
  let p2 := Multiprocessing.search_files emptied no_faults Scenario.fifo
                                         (Multiprocessing.final p1)
                                         "corpus" Scenario.keywords "*.txt" in
  Threading.returned t2 = Ok [] /\ Threading.started t2 = [] /\
  Threading.processed_files (Threading.final t2)
  = length (glob Scenario.fs "corpus" "*.txt") /\
  Threading.returned t1 = Ok (Threading.results (Threading.final t2)) /\
  Multiprocessing.returned p2 = Ok [] /\ Multiprocessing.started p2 = [] /\
  Multiprocessing.processed_files (Multiprocessing.final p2)
  = length (glob Scenario.fs "corpus" "*.txt").
Proof.
  assert (F : fair Scenario.in_order) by (intros l; apply Permutation_refl).
  assert (R : reliable Scenario.fifo) by (intros l; apply Permutation_refl).
  assert (Ht : (1 <= Threading.num_threads (Threading.init 2))%Z) by (cbn; lia).
  assert (Hp : (1 <= Multiprocessing.num_processes
                       (Multiprocessing.init 8 (Some 2%Z)))%Z) by (cbn; lia).
  assert (D1 : dir_exists Scenario.fs "corpus" = true) by reflexivity.
  assert (NE : glob Scenario.fs "corpus" "*.txt" <> []) by (cbn; discriminate).
  assert (D2 : dir_exists emptied "corpus" = true) by reflexivity.
  assert (G2 : glob emptied "corpus" "*.txt" = []) by reflexivity.
  split; [exact F|]. split; [exact R|]. split; [exact Ht|]. split; [exact Hp|].
  split; [exact D1|]. split; [exact NE|]. split; [exact D2|]. split; [exact G2|].
  exact (empty_listing_keeps_old_counters
           Scenario.fs emptied Scenario.in_order Scenario.in_order
           Scenario.fifo Scenario.fifo
           (Threading.init 2) (Multiprocessing.init 8 (Some 2%Z))
           "corpus" Scenario.keywords "*.txt" F R Ht Hp D1 NE D2 G2).
Defined.

(* ================================================================= *)
(** ** file_generator.py *)

From Stdlib Require Import DecimalString DecimalNat.

(** *** The [str] methods that the generator uses *)

Module Str.

(** [c.isspace()] on code points below 256; [str.split()] separates on
    these characters. *)
Definition is_space (c : ascii) : bool :=
  between 9 13 c || between 28 32 c || (code c =? 133)%N || (code c =? 160)%N.

(** The word being read, kept in reverse, becomes a word of the result. *)
Definition flush (cur : text) : list text :=
  match cur with
  | [] => []
  | _ :: _ => [rev cur]
  end.

Fixpoint split_from (cur : text) (s : text) : list text :=
  match s with
  | [] => flush cur
  | c :: s' =>
      if is_space c then flush cur ++ split_from [] s'
      else split_from (c :: cur) s'
  end.

(** [s.split()]: the maximal runs of characters that are not white space. *)
Definition split (s : text) : list text := split_from [] s.

(** [sep.join(l)]. *)
Fixpoint join (sep : text) (l : list text) : text :=
  match l with
  | [] => []
  | x :: rest =>
      match rest with
      | [] => x
      | _ :: _ => x ++ sep ++ join sep rest
      end
  end.

Definition space : text := [" "%char].

(** ["\n\n"]. *)
Definition blank_line : text := ["010"%char; "010"%char].

End Str.

(** *** The [random] module, as a source of draws *)

Module Random.

(** The draws to come; every call takes the first and leaves the rest. *)
Definition rng : Type := nat -> N.

Definition next (g : rng) : rng := fun n => g (S n).

(** [random.random()] is [k / 2^53] for an integer [0 <= k < 2^53]; the
    numerator is kept. *)
Definition random (g : rng) : N * rng := ((g O mod 2 ^ 53)%N, next g).

(** [k / 2^53 < num / den], for the comparisons with float literals:
    [0.1] is [3602879701896397 / 2^55] and [0.6] is
    [5404319552844595 / 2^53]. *)
Definition below (k num den : N) : bool := (k * den <? num * 2 ^ 53)%N.

Definition below_0_1 (k : N) : bool := below k 3602879701896397 (2 ^ 55).

Definition below_0_6 (k : N) : bool := below k 5404319552844595 (2 ^ 53).

(** [random.randint(a, b)] for [a <= b]. *)
Definition randint (a b : Z) (g : rng) : Z * rng :=
  ((a + Z.of_N (g O) mod (b - a + 1))%Z, next g).

(** [random.choice(seq)]: [None] stands for the [IndexError] raised on an
    empty sequence. *)
Definition choice {A : Type} (seq : list A) (g : rng) : option A * rng :=
  (nth_error seq (N.to_nat (g O mod N.of_nat (length seq))), next g).

End Random.

(** *** The generator *)

Module Generator.
Import Str Random.

Inductive error : Type :=
| IndexError
| KeyError.

(** How a call ends: it returns with the draws that are left, it raises,
    or the loop count given to a [while] loop was too small. *)
Inductive outcome (A : Type) : Type :=
| Return (a : A) (g : rng)
| Raised (e : error)
| OutOfFuel.
Arguments Return {A} a g.
Arguments Raised {A} e.
Arguments OutOfFuel {A}.

Definition M (A : Type) : Type := rng -> outcome A.

Definition ret {A} (a : A) : M A := fun g => Return a g.

Definition bind {A B} (c : M A) (k : A -> M B) : M B :=
  fun g =>
    match c g with
    | Return a g' => k a g'
    | Raised e => Raised e
    | OutOfFuel => OutOfFuel
    end.

Notation "x <- c ;; k" := (bind c (fun x => k))
  (at level 61, c at next level, right associativity).

Definition draw_random : M N := fun g => let (k, g') := random g in Return k g'.

Definition draw_randint (a b : Z) : M Z :=
  fun g => let (n, g') := randint a b g in Return n g'.

Definition draw_choice {A} (seq : list A) : M A :=
  fun g =>
    match choice seq g with
    | (Some x, g') => Return x g'
    | (None, _) => Raised IndexError
    end.

Record FileGenerator : Type := {
  output_dir : string;
  keywords : list string;
  common_words : list string
}.

(** [__init__]; the creation of the directory is left out. *)
Definition init (output_dir : string) : FileGenerator :=
  {| output_dir := output_dir;
     keywords :=
       ["python"; "programming"; "algorithm"; "data"; "structure";
        "function"; "variable"; "loop"; "condition"; "class";
        "object"; "method"; "string"; "integer"; "boolean";
        "list"; "dictionary"; "tuple"; "set"; "module";
        "package"; "import"; "exception"; "error"; "debug";
        "test"; "development"; "software"; "computer"; "technology"]%string;
     common_words :=
       ["the"; "be"; "to"; "of"; "and"; "a"; "in"; "that"; "have";
        "i"; "it"; "for"; "not"; "on"; "with"; "he"; "as"; "you";
        "do"; "at"; "this"; "but"; "his"; "by"; "from"; "they";
        "we"; "say"; "her"; "she"; "or"; "an"; "will"; "my";
        "one"; "all"; "would"; "there"; "their"; "what"; "so";
        "up"; "out"; "if"; "about"; "who"; "get"; "which"; "go"; "me"]%string |}.

(** The loop of [generate_random_text], one iteration for each element of
    [range(word_count)]. *)
Fixpoint random_words (self : FileGenerator) (iterations : list Z) : M (list text) :=
  match iterations with
  | [] => ret []
  | _ :: rest =>
      k <- draw_random ;;
      w <- (if below_0_1 k then draw_choice (keywords self)
            else draw_choice (common_words self)) ;;
      ws <- random_words self rest ;;
      ret (of_string w :: ws)
  end.

Definition generate_random_text (self : FileGenerator) (word_count : Z) : M text :=
  words <- random_words self (range word_count) ;;
  ret (join space words).

(** [for _ in range(n): text += f" {keyword}"]. *)
Definition append_keyword (text : Text.text) (keyword : string) (n : Z) : Text.text :=
  fold_left (fun t _ => t ++ space ++ of_string keyword) (range n) text.

(** Lines 82-85: every target keyword is appended between two and eight
    times. *)
Fixpoint plant (text : Text.text) (target_keywords : list string) : M Text.text :=
  match target_keywords with
  | [] => ret text
  | keyword :: rest =>
      n <- draw_randint 2 8 ;;
      plant (append_keyword text keyword n) rest
  end.

(** The [while] loop of lines 92-96; [fuel] bounds its iterations. *)
Fixpoint paragraphs_loop (fuel : nat) (words : list text) (i : Z) : M (list text) :=
  if (i <? Z.of_nat (length words))%Z
  then match fuel with
       | O => fun _ => OutOfFuel
       | S fuel' =>
           paragraph_length <- draw_randint 50 150 ;;
           rest <- paragraphs_loop fuel' words (i + paragraph_length) ;;
           ret (join space (slice words i (i + paragraph_length)) :: rest)
       end
  else ret [].

(** Lines 88-98: the text cut into paragraphs. *)
Definition format_text (text : Text.text) : M Text.text :=
  let words := split text in
  paragraphs <- paragraphs_loop (length words) words 0 ;;
  ret (join blank_line paragraphs).

(** Lines 78-85: the text before it is cut into paragraphs. *)
Definition compose_text (self : FileGenerator) (word_count : Z)
           (target_keywords : option (list string)) : M text :=
  text <- generate_random_text self word_count ;;
  match target_keywords with
  | Some ((_ :: _) as kws) => plant text kws
  | _ => ret text
  end.

(** The files of the output directory, by name. *)
Definition disk : Type := dict text.

(** [generate_file]; writing the file is taken to succeed. *)
Definition generate_file (self : FileGenerator) (filename : string) (word_count : Z)
           (target_keywords : option (list string)) (d : disk) : M disk :=
  text <- compose_text self word_count target_keywords ;;
  formatted_text <- format_text text ;;
  ret (set d filename formatted_text).

(** [range(a, b)]. *)
Definition range_from (a b : Z) : list Z :=
  map (fun k => (a + Z.of_nat k)%Z) (seq 0 (Z.to_nat (b - a))).

(** The decimal digits of a natural number. *)
Definition digits (n : nat) : string := NilEmpty.string_of_uint (Nat.to_uint n).

Fixpoint zeros (n : nat) : string :=
  match n with
  | O => EmptyString
  | S n' => String "0" (zeros n')
  end.

(** [f"{i:03d}"]: at least three characters, the sign first. *)
Definition format_03d (i : Z) : string :=
  if (i <? 0)%Z
  then let ds := digits (Z.to_nat (- i)) in
       String.append "-" (String.append (zeros (2 - String.length ds)) ds)
  else let ds := digits (Z.to_nat i) in
       String.append (zeros (3 - String.length ds)) ds.

(** [f"file_{i:03d}.txt"]. *)
Definition file_name (i : Z) : string :=
  String.append "file_" (String.append (format_03d i) ".txt").

(** [keyword_distribution[keyword].append(filename)] on a plain dict. *)
Definition append_under (dist : dict (list string)) (keyword filename : string)
  : M (dict (list string)) :=
  match get dist keyword with
  | Some files => ret (set dist keyword (files ++ [filename]))
  | None => fun _ => Raised KeyError
  end.

(** Lines 132-136: the keywords of one file are drawn. *)
Fixpoint choose_keywords (filename : string) (keywords_to_distribute : list string)
         (file_keywords : list string) (dist : dict (list string))
  : M (list string * dict (list string)) :=
  match keywords_to_distribute with
  | [] => ret (file_keywords, dist)
  | keyword :: rest =>
      k <- draw_random ;;
      if below_0_6 k
      then dist' <- append_under dist keyword filename ;;
           choose_keywords filename rest (file_keywords ++ [keyword]) dist'
      else choose_keywords filename rest file_keywords dist
  end.

(** The loop of lines 125-138. *)
Fixpoint files_loop (self : FileGenerator) (indices : list Z)
         (keywords_to_distribute : list string)
         (dist : dict (list string)) (d : disk)
  : M (dict (list string) * disk) :=
  match indices with
  | [] => ret (dist, d)
  | i :: rest =>
      let filename := file_name i in
      word_count <- draw_randint 500 2000 ;;
      chosen <- choose_keywords filename keywords_to_distribute [] dist ;;
      d' <- generate_file self filename word_count (Some (fst chosen)) d ;;
      files_loop self rest keywords_to_distribute (snd chosen) d'
  end.

Definition default_keywords : list string :=
  ["python"; "algorithm"; "data"; "function"; "programming"]%string.

(** [generate_test_files]. *)
Definition generate_test_files (self : FileGenerator) (num_files : Z)
           (keywords_to_distribute : option (list string)) (d : disk)
  : M (dict (list string) * disk) :=
  let kws := match keywords_to_distribute with
             | None => default_keywords
             | Some l => l
             end in
  let keyword_distribution := comprehension (fun _ => []) kws in
  files_loop self (range_from 1 (num_files + 1)) kws keyword_distribution d.

End Generator.


(** *** Words and white space *)

Module StrFacts.
Import Str.

(** No white space in [w]. *)
Definition unbroken (w : text) : bool := forallb (fun c => negb (is_space c)) w.

(** A word as [split] yields it: not empty and without white space. *)
Definition is_token (w : text) : bool :=
  match w with
  | [] => false
  | _ :: _ => unbroken w
  end.

Definition all_space (sep : text) : bool := forallb is_space sep.

(** White space, or nothing, just before. *)
Definition spaced_left (before : text) : Prop :=
  before = [] \/ exists b c, before = b ++ [c] /\ is_space c = true.

(** White space, or nothing, just after. *)
Definition spaced_right (after : text) : Prop :=
  after = [] \/ exists c a, after = c :: a /\ is_space c = true.

Lemma unbroken_app a b : unbroken (a ++ b) = unbroken a && unbroken b.
Proof. apply forallb_app. Qed.

Lemma unbroken_rev a : unbroken (rev a) = unbroken a.
Proof.
induction a as [|c a IH]; [reflexivity|].
cbn [rev]. rewrite unbroken_app, IH. cbn. rewrite andb_true_r. apply andb_comm.
Qed.

Lemma is_token_unbroken w : is_token w = true -> unbroken w = true.
Proof. destruct w; [discriminate|exact (fun H => H)]. Qed.

Lemma flush_rev w : is_token w = true -> flush (rev w) = [w].
Proof.
intros H. destruct (rev w) as [|c r] eqn:E.
- apply (f_equal (@rev _)) in E. rewrite rev_involutive in E. subst w. discriminate.
- cbn [flush]. now rewrite <- E, rev_involutive.
Qed.

Lemma split_from_unbroken w : forall cur s,
  unbroken w = true -> split_from cur (w ++ s) = split_from (rev w ++ cur) s.
Proof.
induction w as [|c w IH]; intros cur s H; [reflexivity|].
cbn in H. apply andb_true_iff in H as [Hc Hw].
cbn [app split_from]. apply negb_true_iff in Hc. rewrite Hc.
rewrite IH by exact Hw. cbn [rev]. now rewrite <- app_assoc.
Qed.

Lemma split_token w : is_token w = true -> split w = [w].
Proof.
intros H. unfold split.
rewrite <- (app_nil_r w) at 1.
rewrite split_from_unbroken by now apply is_token_unbroken.
rewrite app_nil_r. cbn [split_from]. now apply flush_rev.
Qed.

Lemma split_from_space cur a c b :
  is_space c = true -> split_from cur (a ++ c :: b) = split_from cur a ++ split b.
Proof.
intros Hc. revert cur. induction a as [|x a IH]; intros cur.
- cbn [app split_from]. now rewrite Hc.
- cbn [app split_from]. destruct (is_space x).
  + now rewrite IH, app_assoc.
  + apply IH.
Qed.

Lemma split_all_space sep b : all_space sep = true -> split (sep ++ b) = split b.
Proof.
induction sep as [|c sep IH]; intros H; [reflexivity|].
cbn in H. apply andb_true_iff in H as [Hc H].
unfold split at 1. cbn [app split_from]. rewrite Hc. cbn [flush app]. now apply IH.
Qed.

Lemma split_app_sep a sep b :
  sep <> [] -> all_space sep = true -> split (a ++ sep ++ b) = split a ++ split b.
Proof.
intros Hne H. destruct sep as [|c sep]; [congruence|].
cbn in H. apply andb_true_iff in H as [Hc H].
unfold split at 1. cbn [app]. rewrite split_from_space by exact Hc.
now rewrite split_all_space.
Qed.

Lemma split_join sep l :
  sep <> [] -> all_space sep = true -> split (join sep l) = concat (map split l).
Proof.
intros Hne H. induction l as [|x rest IH]; [reflexivity|].
cbn [join map concat]. destruct rest as [|y rest].
- cbn [map concat]. now rewrite app_nil_r.
- rewrite split_app_sep by assumption. now rewrite IH.
Qed.

Lemma concat_singletons {A} (l : list A) : concat (map (fun x => [x]) l) = l.
Proof. induction l; cbn; congruence. Qed.

Lemma split_join_tokens sep l :
  sep <> [] -> all_space sep = true -> forallb is_token l = true ->
  split (join sep l) = l.
Proof.
intros Hne H Hl. rewrite split_join by assumption.
rewrite <- (concat_singletons l) at 2. f_equal.
apply map_ext_in. intros w Hw. apply split_token.
rewrite forallb_forall in Hl. now apply Hl.
Qed.

Lemma split_from_tokens s : forall cur,
  unbroken cur = true -> forallb is_token (split_from cur s) = true.
Proof.
assert (F : forall cur, unbroken cur = true -> forallb is_token (flush cur) = true).
{ intros [|c cur] H; [reflexivity|].
  cbn [flush forallb]. rewrite andb_true_r.
  assert (T : unbroken (rev (c :: cur)) = true) by now rewrite unbroken_rev.
  destruct (rev (c :: cur)) as [|x r] eqn:E; [|exact T].
  apply (f_equal (@rev _)) in E. rewrite rev_involutive in E. discriminate. }
induction s as [|c s IH]; intros cur H; cbn [split_from]; [now apply F|].
destruct (is_space c) eqn:Hc.
- rewrite forallb_app, F by exact H. now apply IH.
- apply IH. cbn. now rewrite Hc.
Qed.

(** What [split] yields are words. *)
Lemma split_tokens s : forallb is_token (split s) = true.
Proof. now apply split_from_tokens. Qed.

Lemma spaced_left_snoc b c : is_space c = true -> forall b', b' = [] \/ spaced_left b' ->
  spaced_left (b ++ c :: b').
Proof.
intros Hc b' [->|[->|(x & y & -> & Hy)]].
- right. now exists b, c.
- right. now exists b, c.
- right. exists (b ++ c :: x), y. split; [|exact Hy].
  now rewrite <- app_assoc.
Qed.

Lemma split_from_member w s : forall cur,
  In w (split_from cur s) ->
  exists before after,
    rev cur ++ s = before ++ w ++ after /\ spaced_left before /\ spaced_right after.
Proof.
induction s as [|c s IH]; intros cur H; cbn [split_from] in H.
- destruct cur as [|x cur]; [contradiction|].
  destruct H as [<-|[]]. exists [], []. split; [now rewrite !app_nil_r|].
  split; now left.
- destruct (is_space c) eqn:Hc.
  + apply in_app_or in H as [H|H].
    * destruct cur as [|x cur]; [contradiction|].
      destruct H as [<-|[]]. exists [], (c :: s). split; [reflexivity|].
      split; [now left|]. right. now exists c, s.
    * destruct (IH [] H) as (b & a & E & Hb & Ha). cbn [rev app] in E.
      exists (rev cur ++ c :: b), a. split; [|split].
      -- rewrite E. now rewrite <- app_assoc.
      -- apply spaced_left_snoc; [exact Hc|now right].
      -- exact Ha.
  + destruct (IH (c :: cur) H) as (b & a & E & Hb & Ha).
    exists b, a. split; [|now split].
    rewrite <- E. cbn [rev]. now rewrite <- app_assoc.
Qed.

(** Every word of [s.split()] stands in [s] between white space or the
    ends of [s]. *)
Lemma split_member w s :
  In w (split s) ->
  exists before after,
    s = before ++ w ++ after /\ spaced_left before /\ spaced_right after.
Proof. apply (split_from_member w s []). Qed.

End StrFacts.

(** *** Facts about the generator *)

Module GeneratorFacts.
Import Str Random Generator StrFacts.

(** Both vocabularies hold a word. *)
Definition stocked (self : FileGenerator) : Prop :=
  keywords self <> [] /\ common_words self <> [].

Definition vocabulary (self : FileGenerator) : list string :=
  keywords self ++ common_words self.

(** Every word of the vocabularies is one word for [split]. *)
Definition plain (self : FileGenerator) : bool :=
  forallb (fun w => is_token (of_string w)) (vocabulary self).

Lemma space_sep : space <> [] /\ all_space space = true.
Proof. split; [discriminate|reflexivity]. Qed.

Lemma blank_line_sep : blank_line <> [] /\ all_space blank_line = true.
Proof. split; [discriminate|reflexivity]. Qed.

(** **** Draws *)

Lemma randint_bounds a b g : (a <= b)%Z -> (a <= fst (randint a b g) <= b)%Z.
Proof.
intros H. unfold randint. cbn [fst].
pose proof (Z.mod_pos_bound (Z.of_N (g O)) (b - a + 1)). lia.
Qed.

Lemma draw_randint_returns a b g :
  draw_randint a b g = Return (fst (randint a b g)) (next g).
Proof. reflexivity. Qed.

Lemma draw_choice_returns {A} (seq : list A) g :
  seq <> [] -> exists x, draw_choice seq g = Return x (next g) /\ In x seq.
Proof.
intros Hne. unfold draw_choice, choice.
destruct (nth_error seq (N.to_nat (g O mod N.of_nat (length seq)))) as [x|] eqn:E.
- exists x. split; [reflexivity|]. now apply nth_error_In in E.
- exfalso. apply nth_error_None in E.
  assert (length seq <> 0) by (destruct seq; [congruence|discriminate]).
  pose proof (N.mod_lt (g O) (N.of_nat (length seq))). lia.
Qed.

Lemma draw_choice_empty {A} g : draw_choice (@nil A) g = Raised IndexError.
Proof.
unfold draw_choice, choice. now destruct (N.to_nat _).
Qed.

Lemma draw_choice_outcome {A} (seq : list A) g :
  (exists x, draw_choice seq g = Return x (next g) /\ In x seq) \/
  (seq = [] /\ draw_choice seq g = Raised IndexError).
Proof.
destruct seq as [|x seq].
- right. split; [reflexivity|apply draw_choice_empty].
- left. now apply draw_choice_returns.
Qed.

(** **** [generate_random_text] *)

Lemma random_words_step self i rest g :
  random_words self (i :: rest) g =
  match (if below_0_1 (fst (random g)) then draw_choice (keywords self) (next g)
         else draw_choice (common_words self) (next g)) with
  | Return w g' =>
      match random_words self rest g' with
      | Return ws g'' => Return (of_string w :: ws) g''
      | Raised e => Raised e
      | OutOfFuel => OutOfFuel
      end
  | Raised e => Raised e
  | OutOfFuel => OutOfFuel
  end.
Proof.
cbn [random_words]. unfold bind, draw_random, random, ret. cbn [fst].
now destruct (below_0_1 _).
Qed.

Lemma random_words_returns self : stocked self -> forall iterations g,
  exists ws g',
    random_words self iterations g = Return (map of_string ws) g' /\
    length ws = length iterations /\ incl ws (vocabulary self).
Proof.
intros [Hk Hc]. induction iterations as [|i rest IH]; intros g.
- exists [], g. repeat split. intros x [].
- rewrite random_words_step.
  assert (P : exists w g1,
             (if below_0_1 (fst (random g)) then draw_choice (keywords self) (next g)
              else draw_choice (common_words self) (next g)) = Return w g1 /\
             In w (vocabulary self)).
  { destruct (below_0_1 _).
    - destruct (draw_choice_returns (keywords self) (next g) Hk) as (w & E & Hw).
      exists w, (next (next g)). split; [exact E|]. apply in_or_app. now left.
    - destruct (draw_choice_returns (common_words self) (next g) Hc) as (w & E & Hw).
      exists w, (next (next g)). split; [exact E|]. apply in_or_app. now right. }
  destruct P as (w & g1 & -> & Hw).
  destruct (IH g1) as (ws & g' & -> & Hlen & Hin).
  exists (w :: ws), g'. split; [reflexivity|]. split; [cbn; now rewrite Hlen|].
  intros x [<-|Hx]; [exact Hw|now apply Hin].
Qed.

Lemma random_words_raises self iterations g :
  match random_words self iterations g with
  | Return _ _ => True
  | Raised e =>
      e = IndexError /\ iterations <> [] /\
      (keywords self = [] \/ common_words self = [])
  | OutOfFuel => False
  end.
Proof.
revert g. induction iterations as [|i rest IH]; intros g; [exact I|].
rewrite random_words_step.
destruct (below_0_1 _).
- destruct (draw_choice_outcome (keywords self) (next g)) as [(w & -> & _)|[E ->]].
  + specialize (IH (next (next g))).
    destruct (random_words self rest _); [exact I| |exact IH].
    destruct IH as (-> & _ & H). repeat split; [discriminate|exact H].
  + repeat split; [discriminate|now left].
- destruct (draw_choice_outcome (common_words self) (next g)) as [(w & -> & _)|[E ->]].
  + specialize (IH (next (next g))).
    destruct (random_words self rest _); [exact I| |exact IH].
    destruct IH as (-> & _ & H). repeat split; [discriminate|exact H].
  + repeat split; [discriminate|now right].
Qed.

Lemma range_length n : length (range n) = Z.to_nat n.
Proof. unfold range. now rewrite length_map, length_seq. Qed.

Lemma generate_random_text_unfold self word_count g :
  generate_random_text self word_count g =
  match random_words self (range word_count) g with
  | Return words g' => Return (join space words) g'
  | Raised e => Raised e
  | OutOfFuel => OutOfFuel
  end.
Proof. reflexivity. Qed.

Lemma plain_words self ws :
  plain self = true -> incl ws (vocabulary self) ->
  forallb is_token (map of_string ws) = true.
Proof.
intros Hp Hin. apply forallb_forall. intros w Hw.
apply in_map_iff in Hw as (v & <- & Hv).
unfold plain in Hp. rewrite forallb_forall in Hp. apply Hp. now apply Hin.
Qed.

(** **** Planting *)

(** The words that [count] copies of [keyword] add. *)
Definition copies (keyword : string) (count : nat) : list text :=
  concat (repeat (split (of_string keyword)) count).

Definition planted (target_keywords : list string) (counts : list nat) : list text :=
  concat (map (fun kc => copies (fst kc) (snd kc)) (combine target_keywords counts)).

Lemma split_append_loop (k : text) (l : list Z) : forall t,
  split (fold_left (fun t _ => t ++ space ++ k) l t) =
  split t ++ concat (repeat (split k) (length l)).
Proof.
induction l as [|x l IH]; intros t; cbn [fold_left length repeat concat].
- now rewrite app_nil_r.
- rewrite IH. rewrite split_app_sep by apply space_sep. now rewrite <- app_assoc.
Qed.

Lemma split_append_keyword t k n :
  split (append_keyword t k n) = split t ++ copies k (Z.to_nat n).
Proof.
unfold append_keyword, copies. now rewrite split_append_loop, range_length.
Qed.

Lemma plant_returns target_keywords : forall t g,
  exists t' counts g',
    plant t target_keywords g = Return t' g' /\
    split t' = split t ++ planted target_keywords counts /\
    length counts = length target_keywords /\
    Forall (fun c => 2 <= c <= 8) counts.
Proof.
induction target_keywords as [|k rest IH]; intros t g.
- exists t, [], g. repeat split; [|constructor].
  unfold planted. cbn. now rewrite app_nil_r.
- cbn [plant]. unfold bind. rewrite draw_randint_returns.
  pose proof (randint_bounds 2 8 g ltac:(lia)) as Hb.
  set (n := fst (randint 2 8 g)) in *.
  destruct (IH (append_keyword t k n) (next g)) as (t' & counts & g' & -> & Hs & Hl & Hf).
  exists t', (Z.to_nat n :: counts), g'. split; [reflexivity|]. split; [|split].
  + rewrite Hs, split_append_keyword. unfold planted. cbn [combine map concat fst snd].
    now rewrite <- app_assoc.
  + cbn. now rewrite Hl.
  + constructor; [lia|exact Hf].
Qed.

Lemma copies_token k c :
  is_token (of_string k) = true -> copies k c = repeat (of_string k) c.
Proof.
intros H. unfold copies. rewrite split_token by exact H.
induction c as [|c IH]; cbn; congruence.
Qed.

Lemma planted_member k target_keywords : forall counts,
  In k target_keywords -> is_token (of_string k) = true ->
  length counts = length target_keywords -> Forall (fun c => 2 <= c <= 8) counts ->
  In (of_string k) (planted target_keywords counts).
Proof.
induction target_keywords as [|k' rest IH]; intros counts Hin Ht Hl Hf; [contradiction|].
destruct counts as [|c counts]; [discriminate|].
inversion Hf as [|? ? Hc Hf']; subst.
unfold planted. cbn [combine map concat fst snd]. apply in_or_app.
destruct Hin as [->|Hin].
- left. rewrite copies_token by exact Ht.
  destruct c as [|c]; [lia|]. now left.
- right. apply IH; [exact Hin|exact Ht| |exact Hf']. cbn in Hl. lia.
Qed.

Lemma planted_length target_keywords : forall counts,
  forallb (fun k => is_token (of_string k)) target_keywords = true ->
  length counts = length target_keywords -> Forall (fun c => 2 <= c <= 8) counts ->
  2 * length target_keywords <= length (planted target_keywords counts)
    <= 8 * length target_keywords.
Proof.
induction target_keywords as [|k rest IH]; intros counts Ht Hl Hf.
- destruct counts; [cbn; lia|discriminate].
- destruct counts as [|c counts]; [discriminate|].
  inversion Hf as [|? ? Hc Hf']; subst.
  cbn in Ht. apply andb_true_iff in Ht as [Hk Ht].
  unfold planted. cbn [combine map concat fst snd].
  rewrite length_app, copies_token, repeat_length by exact Hk.
  specialize (IH counts Ht ltac:(cbn in Hl; lia) Hf'). unfold planted in IH.
  cbn [length]. lia.
Qed.

(** **** Paragraphs *)

Lemma slice_clamp {A} (l : list A) (s e : Z) :
  (Z.of_nat (length l) <= e)%Z -> slice l s e = slice l s (Z.of_nat (length l)).
Proof.
intros H. unfold slice, clamp_index.
destruct (e <? 0)%Z eqn:E0; [lia|].
destruct (Z.of_nat (length l) <? 0)%Z eqn:E1; [lia|].
rewrite Z.ltb_irrefl.
destruct (Z.of_nat (length l) <? e)%Z eqn:E2; [reflexivity|].
assert (e = Z.of_nat (length l)) by lia. now subst.
Qed.

Lemma forallb_firstn {A} (f : A -> bool) n (l : list A) :
  forallb f l = true -> forallb f (firstn n l) = true.
Proof.
revert l. induction n as [|n IH]; intros [|x l] H; try reflexivity.
cbn in *. apply andb_true_iff in H as [-> H]. now apply IH.
Qed.

Lemma forallb_skipn {A} (f : A -> bool) n (l : list A) :
  forallb f l = true -> forallb f (skipn n l) = true.
Proof.
revert l. induction n as [|n IH]; intros [|x l] H; try reflexivity; [exact H|].
cbn in *. apply andb_true_iff in H as [_ H]. now apply IH.
Qed.

Lemma forallb_slice {A} (f : A -> bool) (l : list A) s e :
  forallb f l = true -> forallb f (slice l s e) = true.
Proof. intros H. unfold slice. now apply forallb_firstn, forallb_skipn. Qed.

(** One paragraph: the words from [i], at most [paragraph_length] of them. *)
Lemma paragraph_words {A} (words : list A) (i paragraph_length : Z) :
  (0 <= i < Z.of_nat (length words))%Z -> (0 < paragraph_length)%Z ->
  slice words i (i + paragraph_length) ++ skipn (Z.to_nat (i + paragraph_length)) words
    = skipn (Z.to_nat i) words /\
  Z.of_nat (length (slice words i (i + paragraph_length))) =
    Z.min paragraph_length (Z.of_nat (length words) - i).
Proof.
intros Hi Hp.
destruct (Z.le_gt_cases (i + paragraph_length) (Z.of_nat (length words))) as [H|H].
- split.
  + apply Partition.slice_then_rest; lia.
  + rewrite Partition.slice_length by lia. lia.
- rewrite slice_clamp by lia. split.
  + rewrite skipn_all2 by lia.
    rewrite <- (Partition.slice_then_rest words i (Z.of_nat (length words))) by lia.
    now rewrite Nat2Z.id, skipn_all.
  + rewrite Partition.slice_length by lia. lia.
Qed.

Lemma paragraphs_loop_unfold fuel words i g :
  paragraphs_loop fuel words i g =
  if (i <? Z.of_nat (length words))%Z
  then match fuel with
       | O => OutOfFuel
       | S fuel' =>
           let paragraph_length := fst (randint 50 150 g) in
           match paragraphs_loop fuel' words (i + paragraph_length) (next g) with
           | Return rest g' =>
               Return (join space (slice words i (i + paragraph_length)) :: rest) g'
           | Raised e => Raised e
           | OutOfFuel => OutOfFuel
           end
       end
  else Return [] g.
Proof.
destruct fuel; cbn [paragraphs_loop]; destruct (i <? _)%Z; reflexivity.
Qed.

(** The shape of the paragraphs of a text whose words are [words]. *)
Definition well_cut (words : list text) (paragraphs : list text) : Prop :=
  concat (map split paragraphs) = words /\
  Forall (fun p => 1 <= length (split p) <= 150) paragraphs /\
  Forall (fun p => 50 <= length (split p)) (removelast paragraphs).

Lemma paragraphs_loop_returns words :
  forallb is_token words = true ->
  forall fuel i g,
    (0 <= i)%Z -> length words <= fuel + Z.to_nat i ->
    exists paragraphs g',
      paragraphs_loop fuel words i g = Return paragraphs g' /\
      well_cut (skipn (Z.to_nat i) words) paragraphs /\
      ((Z.of_nat (length words) <= i)%Z -> paragraphs = []).
Proof.
intros Htok. induction fuel as [|fuel IH]; intros i g Hi Hfuel;
  rewrite paragraphs_loop_unfold;
  destruct (i <? Z.of_nat (length words))%Z eqn:E.
- lia.
- exists [], g. split; [reflexivity|]. split; [|reflexivity].
  rewrite skipn_all2 by lia. repeat split; constructor.
- pose proof (randint_bounds 50 150 g ltac:(lia)) as Hb.
  cbv zeta. set (pl := fst (randint 50 150 g)) in *.
  destruct (IH (i + pl)%Z (next g) ltac:(lia) ltac:(lia))
    as (rest & g' & -> & (Hcat & Hall & Hbut) & Hnil).
  destruct (paragraph_words words i pl ltac:(lia) ltac:(lia)) as [Hrest Hlen].
  assert (Hs : split (join space (slice words i (i + pl))) = slice words i (i + pl)).
  { apply split_join_tokens; try apply space_sep. now apply forallb_slice. }
  eexists _, g'. split; [reflexivity|]. split; [|lia].
  repeat split.
  + cbn [map concat]. now rewrite Hs, Hcat.
  + constructor; [rewrite Hs; lia|exact Hall].
  + destruct rest as [|p rest]; [constructor|].
    change (removelast (?x :: p :: rest)) with (x :: removelast (p :: rest)).
    constructor; [|exact Hbut].
    rewrite Hs.
    destruct (Z.le_gt_cases (Z.of_nat (length words)) (i + pl)) as [H|H];
      [now specialize (Hnil H)|lia].
- exists [], g. split; [reflexivity|]. split; [|reflexivity].
  rewrite skipn_all2 by lia. repeat split; constructor.
Qed.

(** More iterations than needed change nothing. *)
Lemma paragraphs_loop_fuel words : forall fuel fuel' i g,
  (0 <= i)%Z -> length words <= fuel + Z.to_nat i -> length words <= fuel' + Z.to_nat i ->
  paragraphs_loop fuel words i g = paragraphs_loop fuel' words i g.
Proof.
induction fuel as [|fuel IH]; intros fuel' i g Hi H H';
  rewrite (paragraphs_loop_unfold _ words i g), (paragraphs_loop_unfold fuel' words i g);
  destruct (i <? Z.of_nat (length words))%Z eqn:E; try reflexivity; [lia|].
destruct fuel' as [|fuel']; [lia|].
pose proof (randint_bounds 50 150 g ltac:(lia)) as Hb.
cbv zeta. now rewrite (IH fuel') by lia.
Qed.

Lemma format_text_returns t g :
  exists paragraphs g',
    format_text t g = Return (join blank_line paragraphs) g' /\
    well_cut (split t) paragraphs.
Proof.
destruct (paragraphs_loop_returns (split t) (split_tokens t) (length (split t)) 0 g
            ltac:(lia) ltac:(lia)) as (ps & g' & E & H & _).
exists ps, g'. split; [|exact H].
unfold format_text, bind. now rewrite E.
Qed.

Lemma well_cut_split words paragraphs :
  well_cut words paragraphs -> split (join blank_line paragraphs) = words.
Proof.
intros (H & _). now rewrite split_join by apply blank_line_sep.
Qed.

End GeneratorFacts.

Module FileFacts.
Import Str Random Generator StrFacts GeneratorFacts DictFacts.

(** **** [generate_file] *)

(** The keywords that [generate_file] plants. *)
Definition targets (target_keywords : option (list string)) : list string :=
  match target_keywords with
  | Some l => l
  | None => []
  end.

(** What [generate_file] writes: [word_count] words of the vocabularies,
    then between two and eight copies of every target keyword, cut into
    paragraphs. *)
Definition written (self : FileGenerator) (word_count : Z)
           (target_keywords : option (list string)) (content : text) : Prop :=
  exists ws counts paragraphs,
    content = join blank_line paragraphs /\
    well_cut (split (join space (map of_string ws))
                ++ planted (targets target_keywords) counts) paragraphs /\
    length ws = Z.to_nat word_count /\
    incl ws (vocabulary self) /\
    length counts = length (targets target_keywords) /\
    Forall (fun c => 2 <= c <= 8) counts.

Lemma compose_text_returns self word_count target_keywords g :
  stocked self ->
  exists ws counts t g',
    compose_text self word_count target_keywords g = Return t g' /\
    split t = split (join space (map of_string ws))
                ++ planted (targets target_keywords) counts /\
    length ws = Z.to_nat word_count /\
    incl ws (vocabulary self) /\
    length counts = length (targets target_keywords) /\
    Forall (fun c => 2 <= c <= 8) counts.
Proof.
intros Hs. unfold compose_text, bind. rewrite generate_random_text_unfold.
destruct (random_words_returns self Hs (range word_count) g) as (ws & g1 & -> & Hl & Hi).
rewrite range_length in Hl.
assert (N : forall t, exists ws0 counts t' g',
            ret t g1 = Return t' g' /\
            split t' = split t ++ planted [] counts /\
            length counts = 0 /\ Forall (fun c => 2 <= c <= 8) counts /\ ws0 = ws).
{ intros t. exists ws, [], t, g1. repeat split; [|constructor].
  unfold planted. cbn. now rewrite app_nil_r. }
destruct target_keywords as [[|k kws]|].
- destruct (N (join space (map of_string ws))) as (_ & counts & t' & g' & E & H1 & H2 & H3 & _).
  exists ws, counts, t', g'. now repeat split.
- destruct (plant_returns (k :: kws) (join space (map of_string ws)) g1)
    as (t' & counts & g' & E & H1 & H2 & H3).
  exists ws, counts, t', g'. now repeat split.
- destruct (N (join space (map of_string ws))) as (_ & counts & t' & g' & E & H1 & H2 & H3 & _).
  exists ws, counts, t', g'. now repeat split.
Qed.

Lemma generate_file_returns self filename word_count target_keywords d g :
  stocked self ->
  exists content g',
    generate_file self filename word_count target_keywords d g
      = Return (set d filename content) g' /\
    written self word_count target_keywords content.
Proof.
intros Hs. unfold generate_file, bind.
destruct (compose_text_returns self word_count target_keywords g Hs)
  as (ws & counts & t & g1 & -> & H1 & H2 & H3 & H4 & H5).
destruct (format_text_returns t g1) as (ps & g' & -> & Hc).
exists (join blank_line ps), g'. split; [reflexivity|].
exists ws, counts, ps. rewrite <- H1.
split; [reflexivity|]. split; [exact Hc|]. now repeat split.
Qed.

Lemma written_member self word_count target_keywords content k :
  written self word_count target_keywords content ->
  In k (targets target_keywords) -> is_token (of_string k) = true ->
  In (of_string k) (split content).
Proof.
intros (ws & counts & ps & -> & Hc & _ & _ & Hl & Hf) Hin Ht.
rewrite (well_cut_split _ _ Hc). apply in_or_app. right.
now apply planted_member.
Qed.

Lemma written_length self word_count target_keywords content :
  written self word_count target_keywords content ->
  plain self = true ->
  forallb (fun k => is_token (of_string k)) (targets target_keywords) = true ->
  Z.to_nat word_count + 2 * length (targets target_keywords)
    <= length (split content)
    <= Z.to_nat word_count + 8 * length (targets target_keywords).
Proof.
intros (ws & counts & ps & -> & Hc & Hw & Hv & Hl & Hf) Hp Ht.
rewrite (well_cut_split _ _ Hc), length_app.
rewrite split_join_tokens; try apply space_sep; [|now apply (plain_words self)].
rewrite length_map, Hw.
pose proof (planted_length _ counts Ht Hl Hf). lia.
Qed.

(** **** The matcher on generated text *)

Lemma space_not_word c : is_space c = true -> is_word_char c = false.
Proof.
destruct c as [[] [] [] [] [] [] [] []]; intros H; vm_compute in H |- *;
  congruence.
Qed.

(** The text begins and ends with a word character. *)
Definition edged (t : text) : Prop :=
  exists c middle d,
    (t = [c] \/ t = c :: middle ++ [d]) /\
    is_word_char c = true /\ (t = [c] \/ is_word_char d = true).

(** On the code points of the model lower-casing keeps the word
    characters, so a keyword whose lower-cased form begins and ends with
    one does so itself. *)
Lemma edged_lower k : edged (lower (of_string k)) -> Matcher.word_edged k.
Proof.
intros (c & middle & d & Hshape & Hc & Hd). unfold lower in *.
destruct Hshape as [E|E].
- destruct (of_string k) as [|x [|y l]] eqn:K; try discriminate.
  injection E as <-. rewrite Matcher.lower_char_wordy in Hc.
  exists x, [], x. split; [now left|]. split; [exact Hc|now left].
- destruct Hd as [E'|Hd].
  { rewrite E' in E. injection E as E. destruct middle; discriminate. }
  destruct (of_string k) as [|x l] eqn:K; [discriminate|].
  cbn [map] in E. injection E as <- E.
  apply map_eq_app in E as (m & t & -> & <- & Et).
  destruct t as [|y [|z t]]; try discriminate. injection Et as <-.
  rewrite Matcher.lower_char_wordy in Hc, Hd.
  exists x, m, y. split; [now right|]. split; [exact Hc|now right].
Qed.

Lemma unbroken_word_edged k :
  Matcher.word_edged k -> unbroken (of_string k) = true ->
  is_token (of_string k) = true.
Proof.
intros (c & m & d & [E|E] & _) H; rewrite E in H |- *; exact H.
Qed.

Lemma member_found content k :
  In (of_string k) (split content) -> Matcher.word_edged k ->
  Common.keyword_found (lower content) k = true.
Proof.
intros Hin He. apply Matcher.keyword_found_whole_word; [exact He|].
destruct (split_member _ _ Hin) as (b & a & -> & Hb & Ha).
exists (lower b), (lower a). split; [|split].
- unfold lower. now rewrite !map_app.
- destruct Hb as [->|(b' & c & -> & Hc)]; [now left|].
  right. exists (lower b'), (lower_char c). split.
  + unfold lower. now rewrite map_app.
  + rewrite Matcher.lower_char_wordy. now apply space_not_word.
- destruct Ha as [->|(c & a' & -> & Hc)]; [now left|].
  right. exists (lower_char c), (lower a'). split; [reflexivity|].
  rewrite Matcher.lower_char_wordy. now apply space_not_word.
Qed.

(** **** File names *)

(** The number that a string of decimal digits writes. *)
Definition decimal (s : string) : option nat :=
  option_map Nat.of_uint (NilEmpty.uint_of_string s).

Lemma decimal_zeros k s :
  decimal (String.append (zeros k) s) = decimal s.
Proof.
induction k as [|k IH]; [reflexivity|].
unfold decimal in *. cbn [zeros String.append NilEmpty.uint_of_string].
destruct (NilEmpty.uint_of_string (String.append (zeros k) s)) as [u|];
  destruct (NilEmpty.uint_of_string s) as [v|]; cbn in *; exact IH.
Qed.

Lemma decimal_digits n : decimal (digits n) = Some n.
Proof.
unfold decimal, digits. rewrite NilEmpty.usu. cbn. now rewrite Unsigned.of_to.
Qed.

Lemma decimal_format_03d i : (0 <= i)%Z -> decimal (format_03d i) = Some (Z.to_nat i).
Proof.
intros H. unfold format_03d.
destruct (i <? 0)%Z eqn:E; [lia|].
now rewrite decimal_zeros, decimal_digits.
Qed.

Lemma append_list s1 s2 :
  list_ascii_of_string (String.append s1 s2)
  = list_ascii_of_string s1 ++ list_ascii_of_string s2.
Proof. induction s1 as [|c s1 IH]; cbn; congruence. Qed.

Lemma append_inv_tail s1 s2 s : String.append s1 s = String.append s2 s -> s1 = s2.
Proof.
intros H. apply (f_equal list_ascii_of_string) in H.
rewrite !append_list in H. apply app_inv_tail in H.
apply (f_equal string_of_list_ascii) in H.
now rewrite !string_of_list_ascii_of_string in H.
Qed.

Lemma file_name_inj i j :
  (0 <= i)%Z -> (0 <= j)%Z -> file_name i = file_name j -> i = j.
Proof.
intros Hi Hj H. unfold file_name in H. cbn [String.append] in H.
injection H as H. apply append_inv_tail in H.
apply (f_equal decimal) in H. rewrite !decimal_format_03d in H by assumption.
injection H as H. lia.
Qed.

Lemma range_from_in a b i : In i (range_from a b) <-> (a <= i < b)%Z.
Proof.
unfold range_from. rewrite in_map_iff. split.
- intros (k & <- & Hk). apply in_seq in Hk. lia.
- intros H. exists (Z.to_nat (i - a)). split; [lia|]. apply in_seq. lia.
Qed.

Lemma range_from_nodup a b : NoDup (range_from a b).
Proof.
unfold range_from. apply Finite.Injective_map_NoDup; [|apply seq_NoDup].
intros x y H. lia.
Qed.

End FileFacts.

From Stdlib Require Import Sorted.

Module TestFiles.
Import Str Random Generator StrFacts GeneratorFacts FileFacts DictFacts.

(** **** [generate_test_files] *)

(** The keywords that [generate_test_files] distributes. *)
Definition given (keywords_to_distribute : option (list string)) : list string :=
  match keywords_to_distribute with
  | None => default_keywords
  | Some l => l
  end.

Lemma mem_get {V} (d : dict V) k : mem d k = true <-> exists v, get d k = Some v.
Proof.
unfold mem. destruct (get d k) as [v|]; split; try discriminate.
- now exists v.
- reflexivity.
- now intros [v H].
Qed.

Lemma choose_keywords_step filename keyword rest file_keywords dist g :
  choose_keywords filename (keyword :: rest) file_keywords dist g =
  if below_0_6 (fst (random g))
  then match get dist keyword with
       | Some files =>
           choose_keywords filename rest (file_keywords ++ [keyword])
                           (set dist keyword (files ++ [filename])) (next g)
       | None => Raised KeyError
       end
  else choose_keywords filename rest file_keywords dist (next g).
Proof.
cbn [choose_keywords]. unfold bind, draw_random, random. cbn [fst].
destruct (below_0_6 _); [|reflexivity].
unfold append_under. now destruct (get dist keyword).
Qed.

Lemma choose_keywords_returns filename : forall kws file_keywords dist g,
  (forall k, In k kws -> mem dist k = true) ->
  exists added dist' g',
    choose_keywords filename kws file_keywords dist g
      = Return (file_keywords ++ added, dist') g' /\
    incl added kws /\ length added <= length kws /\
    (forall k, count_occ string_dec added k <= count_occ string_dec kws k) /\
    forall k, get dist' k =
              option_map (fun l => l ++ repeat filename (count_occ string_dec added k))
                         (get dist k).
Proof.
induction kws as [|keyword rest IH]; intros file_keywords dist g Hmem.
- exists [], dist, g. rewrite app_nil_r. split; [reflexivity|].
  split; [intros x []|]. split; [reflexivity|]. split; [reflexivity|].
  intros k. cbn. destruct (get dist k); cbn; [now rewrite app_nil_r|reflexivity].
- rewrite choose_keywords_step. destruct (below_0_6 _).
  + destruct (proj1 (mem_get dist keyword) (Hmem keyword (or_introl eq_refl)))
      as [files Hfiles].
    rewrite Hfiles.
    destruct (IH (file_keywords ++ [keyword]) (set dist keyword (files ++ [filename]))
                 (next g)) as (added & dist' & g' & -> & Hin & Hlen & Hocc & Hget).
    { intros k Hk. apply mem_get. destruct (string_dec k keyword) as [->|Hne].
      - rewrite get_set_same. now eexists.
      - rewrite get_set_other by exact Hne. apply mem_get, Hmem. now right. }
    exists (keyword :: added), dist', g'. split; [now rewrite <- app_assoc|].
    split; [|split; [|split]].
    * intros x [<-|Hx]; [now left|right; now apply Hin].
    * cbn. lia.
    * intros k. specialize (Hocc k). destruct (string_dec keyword k) as [->|Hne].
      -- rewrite !count_occ_cons_eq by reflexivity. lia.
      -- now rewrite !count_occ_cons_neq by exact Hne.
    * intros k. rewrite Hget. destruct (string_dec k keyword) as [->|Hne].
      -- rewrite get_set_same, Hfiles, count_occ_cons_eq by reflexivity.
         cbn. now rewrite <- app_assoc.
      -- rewrite get_set_other by exact Hne.
         now rewrite count_occ_cons_neq by congruence.
  + destruct (IH file_keywords dist (next g))
      as (added & dist' & g' & -> & Hin & Hlen & Hocc & Hget).
    { intros k Hk. apply Hmem. now right. }
    exists added, dist', g'. split; [reflexivity|]. split; [|split; [|split]].
    * intros x Hx. right. now apply Hin.
    * cbn. lia.
    * intros k. specialize (Hocc k). destruct (string_dec keyword k) as [->|Hne].
      -- rewrite count_occ_cons_eq by reflexivity. lia.
      -- now rewrite count_occ_cons_neq by exact Hne.
    * exact Hget.
Qed.

Lemma flat_map_ext_in {A B} (f f' : A -> list B) (l : list A) :
  (forall a, In a l -> f a = f' a) -> flat_map f l = flat_map f' l.
Proof.
induction l as [|a l IH]; intros H; [reflexivity|].
cbn. rewrite (H a) by now left. f_equal. apply IH. intros x Hx. apply H. now right.
Qed.

(** A file of the run: written for some word count between 500 and 2000
    with some of the keywords planted. *)
Definition test_file (self : FileGenerator) (kws : list string) (content : text) : Prop :=
  exists word_count chosen,
    (500 <= word_count <= 2000)%Z /\ incl chosen kws /\ length chosen <= length kws /\
    written self word_count (Some chosen) content.

(** [filename] holds [keyword] as a word when [keyword] is one word. *)
Definition holds (d : disk) (filename keyword : string) : Prop :=
  exists content,
    get d filename = Some content /\
    (is_token (of_string keyword) = true -> In (of_string keyword) (split content)).

Lemma files_loop_step self i rest kws dist d g :
  files_loop self (i :: rest) kws dist d g =
  match choose_keywords (file_name i) kws [] dist (next g) with
  | Return chosen g1 =>
      match generate_file self (file_name i) (fst (randint 500 2000 g))
                          (Some (fst chosen)) d g1 with
      | Return d' g2 => files_loop self rest kws (snd chosen) d' g2
      | Raised e => Raised e
      | OutOfFuel => OutOfFuel
      end
  | Raised e => Raised e
  | OutOfFuel => OutOfFuel
  end.
Proof. reflexivity. Qed.

Lemma files_loop_returns self kws :
  stocked self ->
  forall indices dist d g,
    NoDup indices -> Forall (fun i => 0 <= i)%Z indices ->
    (forall k, In k kws -> mem dist k = true) ->
    exists dist' d' g' (extra : string -> list string),
      files_loop self indices kws dist d g = Return (dist', d') g' /\
      (forall f, ~ In f (map file_name indices) -> get d' f = get d f) /\
      (forall i, In i indices ->
         exists content, get d' (file_name i) = Some content /\ test_file self kws content) /\
      (forall k, get dist' k = option_map (fun l => l ++ extra k) (get dist k)) /\
      (forall k f, In f (extra k) ->
         In k kws /\ exists i, In i indices /\ f = file_name i /\ holds d' f k) /\
      exists times : Z -> string -> nat,
        (forall k, extra k =
                   flat_map (fun i => repeat (file_name i) (times i k)) indices) /\
        (forall i k, times i k <= count_occ string_dec kws k).
Proof.
intros Hs. induction indices as [|i rest IH]; intros dist d g Hnd Hpos Hmem.
- exists dist, d, g, (fun _ => []). split; [reflexivity|]. split; [reflexivity|].
  split; [intros i []|]. split; [|split; [intros k f []|]].
  + intros k. destruct (get dist k); cbn; [now rewrite app_nil_r|reflexivity].
  + exists (fun _ _ => 0). split; [reflexivity|]. intros i k. lia.
- rewrite files_loop_step.
  inversion Hnd as [|? ? Hni Hnd']; subst. inversion Hpos as [|? ? Hi Hpos']; subst.
  pose proof (randint_bounds 500 2000 g ltac:(lia)) as Hwc.
  set (wc := fst (randint 500 2000 g)) in *.
  destruct (choose_keywords_returns (file_name i) kws [] dist (next g) Hmem)
    as (added & dist1 & g1 & -> & Hadded & Hlen & Hocc & Hget1).
  cbn [app fst snd].
  destruct (generate_file_returns self (file_name i) wc (Some added) d g1 Hs)
    as (content & g2 & -> & Hw).
  destruct (IH dist1 (set d (file_name i) content) g2 Hnd' Hpos')
    as (dist' & d' & g' & extra & -> & Hframe & Hfiles & Hget & Hextra
        & times & Htimes & Hle).
  { intros k Hk. apply mem_get. rewrite Hget1.
    destruct (proj1 (mem_get dist k) (Hmem k Hk)) as [l ->]. now eexists. }
  assert (Hfresh : ~ In (file_name i) (map file_name rest)).
  { intros H. apply in_map_iff in H as (j & Hj & Hin).
    apply file_name_inj in Hj; [now subst| |exact Hi].
    rewrite Forall_forall in Hpos'. now apply Hpos'. }
  assert (Hmine : get d' (file_name i) = Some content).
  { rewrite Hframe by exact Hfresh. apply get_set_same. }
  exists dist', d', g',
    (fun k => repeat (file_name i) (count_occ string_dec added k) ++ extra k).
  split; [reflexivity|]. split; [|split; [|split; [|split]]].
  + intros f Hf. cbn [map In] in Hf.
    rewrite Hframe by tauto. apply get_set_other. intros ->. tauto.
  + intros j [<-|Hj].
    * exists content. split; [exact Hmine|]. now exists wc, added.
    * now apply Hfiles.
  + intros k. rewrite Hget, Hget1. destruct (get dist k); cbn; [|reflexivity].
    now rewrite <- app_assoc.
  + intros k f Hf. apply in_app_or in Hf as [Hf|Hf].
    * apply repeat_spec in Hf as Hname. subst f.
      assert (Hk : In k added).
      { apply (count_occ_In string_dec).
        destruct (count_occ string_dec added k); [contradiction|lia]. }
      split; [now apply Hadded|]. exists i. split; [now left|]. split; [reflexivity|].
      exists content. split; [exact Hmine|].
      intros Ht. now apply (written_member self wc (Some added)).
    * destruct (Hextra k f Hf) as (Hk & j & Hj & -> & Hh).
      split; [exact Hk|]. exists j. split; [now right|]. now split.
  + exists (fun j k => if (j =? i)%Z then count_occ string_dec added k else times j k).
    split.
    * intros k. cbn [flat_map]. rewrite Z.eqb_refl, Htimes. f_equal.
      apply flat_map_ext_in. intros j Hj.
      destruct (Z.eqb_spec j i) as [->|_]; [contradiction|reflexivity].
    * intros j k. destruct (j =? i)%Z; [apply Hocc|apply Hle].
Qed.

Lemma generate_test_files_returns self num_files keywords_to_distribute d g :
  stocked self ->
  exists dist d' g' (extra : string -> list string),
    generate_test_files self num_files keywords_to_distribute d g
      = Return (dist, d') g' /\
    (forall f, (forall i, (1 <= i <= num_files)%Z -> f <> file_name i) ->
       get d' f = get d f) /\
    (forall i, (1 <= i <= num_files)%Z ->
       exists content, get d' (file_name i) = Some content /\
                       test_file self (given keywords_to_distribute) content) /\
    (forall k, get dist k =
               if existsb (String.eqb k) (given keywords_to_distribute)
               then Some (extra k) else None) /\
    (forall k f, In f (extra k) ->
       In k (given keywords_to_distribute) /\
       exists i, (1 <= i <= num_files)%Z /\ f = file_name i /\ holds d' f k) /\
    exists times : Z -> string -> nat,
      (forall k, extra k =
                 flat_map (fun i => repeat (file_name i) (times i k))
                          (range_from 1 (num_files + 1))) /\
      (forall i k, times i k <= count_occ string_dec (given keywords_to_distribute) k).
Proof.
intros Hs. unfold generate_test_files.
fold (given keywords_to_distribute). set (kws := given keywords_to_distribute).
destruct (files_loop_returns self kws Hs (range_from 1 (num_files + 1))
            (comprehension (fun _ => []) kws) d g)
  as (dist & d' & g' & extra & E & Hframe & Hfiles & Hget & Hextra & Htimes).
- apply range_from_nodup.
- apply Forall_forall. intros i Hi. apply range_from_in in Hi. lia.
- intros k Hk. apply mem_get. rewrite get_comprehension.
  assert (existsb (String.eqb k) kws = true) as ->.
  { apply existsb_exists. exists k. split; [exact Hk|apply String.eqb_refl]. }
  now eexists.
- exists dist, d', g', extra. split; [exact E|]. split; [|split; [|split; [|split]]].
  + intros f Hf. apply Hframe. intros H. apply in_map_iff in H as (i & <- & Hi).
    apply range_from_in in Hi. apply (Hf i); [lia|reflexivity].
  + intros i Hi. apply Hfiles, range_from_in. lia.
  + intros k. rewrite Hget, get_comprehension.
    now destruct (existsb _ _).
  + intros k f Hf. destruct (Hextra k f Hf) as (Hk & i & Hi & -> & Hh).
    split; [exact Hk|]. exists i. apply range_from_in in Hi.
    split; [lia|]. now split.
  + exact Htimes.
Qed.

(** **** The order of the listed files *)

Lemma range_from_sorted a b : StronglySorted Z.lt (range_from a b).
Proof.
unfold range_from. generalize (Z.to_nat (b - a)) as len. generalize 0 as start.
intros start len. revert start. induction len as [|len IH]; intros start; cbn [seq map].
- constructor.
- constructor; [apply IH|]. apply Forall_forall. intros x Hx.
  apply in_map_iff in Hx as (k & <- & Hk). apply in_seq in Hk. lia.
Qed.

(** Each index taken [times] times, in the order of the indices. *)
Definition picks (times : Z -> nat) (indices : list Z) : list Z :=
  flat_map (fun i => repeat i (times i)) indices.

Lemma picks_names times indices :
  map file_name (picks times indices)
  = flat_map (fun i => repeat (file_name i) (times i)) indices.
Proof.
unfold picks. induction indices as [|i rest IH]; [reflexivity|].
cbn [flat_map]. rewrite map_app, IH. f_equal.
induction (times i) as [|n IHn]; cbn [repeat map]; [reflexivity|now rewrite IHn].
Qed.

Lemma picks_in times indices j : In j (picks times indices) -> In j indices.
Proof.
unfold picks. rewrite in_flat_map. intros (i & Hi & Hj).
apply repeat_spec in Hj. now subst.
Qed.

Lemma picks_sorted times indices :
  (forall i, times i <= 1) -> StronglySorted Z.lt indices ->
  StronglySorted Z.lt (picks times indices).
Proof.
intros Hone. induction indices as [|i rest IH]; intros Hs; [constructor|].
apply StronglySorted_inv in Hs as [Hs Hi].
change (picks times (i :: rest)) with (repeat i (times i) ++ picks times rest).
specialize (Hone i). destruct (times i) as [|[|n]]; [now apply IH| |lia].
cbn [repeat app]. constructor; [now apply IH|].
apply Forall_forall. intros j Hj. apply picks_in in Hj.
rewrite Forall_forall in Hi. now apply Hi.
Qed.

Lemma sorted_nodup l : StronglySorted Z.lt l -> NoDup l.
Proof.
induction l as [|a l IH]; intros H; constructor;
  apply StronglySorted_inv in H as [H Ha].
- intros Hin. rewrite Forall_forall in Ha. specialize (Ha a Hin). lia.
- now apply IH.
Qed.

End TestFiles.

Import Str Random Generator StrFacts GeneratorFacts FileFacts TestFiles.

(** A generator and draws to run it on. *)
Module Sample.

Definition generator : FileGenerator := init "test_files".

Definition draws : rng :=
  fun n => ((N.of_nat n * 7919 + 13) * 1234567891234567891)%N.

Lemma generator_stocked : stocked generator.
Proof. split; discriminate. Qed.

Lemma generator_plain : plain generator = true.
Proof. reflexivity. Qed.

Lemma python_edged : Matcher.word_edged "python".
Proof.
exists "p"%char, (of_string "ytho"), "n"%char.
split; [now right|]. split; [reflexivity|now right].
Qed.

Lemma defaults_differ : NoDup (given None).
Proof.
cbn. repeat (constructor; [cbn; intuition discriminate|]). constructor.
Qed.

End Sample.

(** X13.  With a word in each vocabulary and no white space inside the
    words, [generate_random_text] returns a text of exactly
    [max(0, word_count)] words, each taken from the two vocabularies. *)
Theorem random_text_words (self : FileGenerator) (word_count : Z) (g : rng) :
  stocked self -> plain self = true ->
  exists t g',
    generate_random_text self word_count g = Return t g' /\
    Z.of_nat (length (split t)) = Z.max 0 word_count /\
    forall w, In w (split t) -> exists v, In v (vocabulary self) /\ w = of_string v.
Proof.
intros Hs Hp. rewrite generate_random_text_unfold.
destruct (random_words_returns self Hs (range word_count) g) as (ws & g' & -> & Hl & Hi).
rewrite range_length in Hl.
exists (join space (map of_string ws)), g'. split; [reflexivity|].
rewrite split_join_tokens; try apply space_sep; [|now apply (plain_words self)].
split; [rewrite length_map; lia|].
intros w Hw. apply in_map_iff in Hw as (v & <- & Hv). exists v. split; [now apply Hi|reflexivity].
Qed.

Lemma random_text_words_witness :
  stocked Sample.generator /\ plain Sample.generator = true /\
  exists t g',
    generate_random_text Sample.generator 12 Sample.draws = Return t g' /\
    Z.of_nat (length (split t)) = Z.max 0 12 /\
    forall w, In w (split t) ->
              exists v, In v (vocabulary Sample.generator) /\ w = of_string v.
Proof.
split; [exact Sample.generator_stocked|]. split; [reflexivity|].
exact (random_text_words Sample.generator 12 Sample.draws
         Sample.generator_stocked Sample.generator_plain).
Defined.

(** X14.  [generate_random_text] fails only with the [IndexError] of
    [random.choice] on an empty vocabulary, and only for a positive
    [word_count]; with both vocabularies empty every positive [word_count]
    fails, and a [word_count] of zero or less returns the empty text
    without a draw. *)
Theorem random_text_fails_on_empty_vocabulary
        (self : FileGenerator) (word_count : Z) (g : rng) :
  (forall e, generate_random_text self word_count g = Raised e ->
     e = IndexError /\ (0 < word_count)%Z /\
     (keywords self = [] \/ common_words self = [])) /\
  generate_random_text self word_count g <> OutOfFuel /\
  (keywords self = [] -> common_words self = [] -> (0 < word_count)%Z ->
   generate_random_text self word_count g = Raised IndexError) /\
  ((word_count <= 0)%Z -> generate_random_text self word_count g = Return [] g).
Proof.
rewrite generate_random_text_unfold.
pose proof (random_words_raises self (range word_count) g) as H.
split; [|split; [|split]].
- intros e E. destruct (random_words self (range word_count) g); try discriminate.
  injection E as <-. destruct H as (-> & Hne & Hv). split; [reflexivity|].
  split; [|exact Hv].
  destruct (Z.lt_ge_cases 0 word_count) as [Hw|Hw]; [exact Hw|].
  exfalso. apply Hne. unfold range.
  now replace (Z.to_nat word_count) with 0 by lia.
- destruct (random_words self (range word_count) g); [discriminate|discriminate|].
  contradiction.
- intros Hk Hc Hw. unfold range.
  destruct (Z.to_nat word_count) as [|n] eqn:E; [lia|].
  cbn [seq map]. rewrite random_words_step, Hk, Hc.
  destruct (below_0_1 _); now rewrite draw_choice_empty.
- intros Hw. unfold range. now replace (Z.to_nat word_count) with 0 by lia.
Qed.

Lemma random_text_fails_on_empty_vocabulary_witness :
  generate_random_text {| output_dir := "out"; keywords := []; common_words := [] |}
                       3 Sample.draws = Raised IndexError /\
  generate_random_text {| output_dir := "out"; keywords := []; common_words := [] |}
                       0 Sample.draws = Return [] Sample.draws.
Proof.
pose proof (random_text_fails_on_empty_vocabulary
              {| output_dir := "out"; keywords := []; common_words := [] |}
              3 Sample.draws) as (_ & _ & H3 & _).
pose proof (random_text_fails_on_empty_vocabulary
              {| output_dir := "out"; keywords := []; common_words := [] |}
              0 Sample.draws) as (_ & _ & _ & H0).
split; [apply H3; [reflexivity|reflexivity|lia]|apply H0; lia].
Defined.

(** X15.  The paragraph loop of [generate_file] ends for every text and
    every draw, within one iteration for each word: the paragraphs hold
    the words of the text in order, none lost and none added, every
    paragraph has between 1 and 150 words and every paragraph but the last
    at least 50; the text joined with blank lines splits into the same
    words. *)
Theorem paragraphs_keep_the_words (t : text) (g : rng) :
  exists paragraphs g',
    format_text t g = Return (join blank_line paragraphs) g' /\
    (forall fuel, length (split t) <= fuel ->
                  paragraphs_loop fuel (split t) 0 g = Return paragraphs g') /\
    concat (map split paragraphs) = split t /\
    split (join blank_line paragraphs) = split t /\
    Forall (fun p => 1 <= length (split p) <= 150) paragraphs /\
    Forall (fun p => 50 <= length (split p)) (removelast paragraphs).
Proof.
destruct (paragraphs_loop_returns (split t) (split_tokens t) (length (split t)) 0 g
            ltac:(lia) ltac:(lia)) as (ps & g' & E & H & _).
exists ps, g'. split; [|split].
- unfold format_text, bind. now rewrite E.
- intros fuel Hf. rewrite <- E. apply paragraphs_loop_fuel; lia.
- pose proof (well_cut_split _ _ H) as Hs. destruct H as (H1 & H2 & H3).
  now repeat split.
Qed.



(** X17.  When the vocabulary words and the target keywords have no white
    space inside, the file that [generate_file] writes has at least
    [max(0, word_count)] words plus two for each target keyword and at most
    [max(0, word_count)] plus eight for each; without target keywords it
    has exactly [max(0, word_count)] words. *)
Theorem generated_file_word_count
        (self : FileGenerator) (filename : string) (word_count : Z)
        (target_keywords : option (list string)) (d : disk) (g : rng) :
  stocked self -> plain self = true ->
  forallb (fun k => is_token (of_string k)) (targets target_keywords) = true ->
  exists content d' g',
    generate_file self filename word_count target_keywords d g = Return d' g' /\
    get d' filename = Some content /\
    Z.to_nat word_count + 2 * length (targets target_keywords)
      <= length (split content)
      <= Z.to_nat word_count + 8 * length (targets target_keywords).
Proof.
intros Hs Hp Ht.
destruct (generate_file_returns self filename word_count target_keywords d g Hs)
  as (content & g' & E & Hw).
exists content, (set d filename content), g'. split; [exact E|].
split; [apply DictFacts.get_set_same|].
now apply (written_length self).
Qed.

Lemma generated_file_word_count_witness :
  stocked Sample.generator /\ plain Sample.generator = true /\
  forallb (fun k => is_token (of_string k)) (targets (Some ["python"; "data"]%string)) = true /\
  exists content d' g',
    generate_file Sample.generator "a.txt" 120 (Some ["python"; "data"]%string) []
                  Sample.draws = Return d' g' /\
    get d' "a.txt" = Some content /\
    Z.to_nat 120 + 2 * length (targets (Some ["python"; "data"]%string))
      <= length (split content)
      <= Z.to_nat 120 + 8 * length (targets (Some ["python"; "data"]%string)).
Proof.
split; [exact Sample.generator_stocked|]. split; [reflexivity|]. split; [reflexivity|].
exact (generated_file_word_count Sample.generator "a.txt" 120
         (Some ["python"; "data"]%string) [] Sample.draws
         Sample.generator_stocked Sample.generator_plain eq_refl).
Defined.

(** X18.  The names [file_{i:03d}.txt] of two different indices that are
    not negative differ: the padding with zeros to three digits makes no
    two of them equal, also beyond 999 where the name grows longer. *)
Theorem file_names_differ (i j : Z) :
  (0 <= i)%Z -> (0 <= j)%Z -> i <> j -> file_name i <> file_name j.
Proof.
intros Hi Hj Hne H. apply Hne. now apply file_name_inj.
Qed.

Lemma file_names_differ_witness :
  (0 <= 7)%Z /\ (0 <= 1234)%Z /\ 7%Z <> 1234%Z /\ file_name 7 <> file_name 1234.
Proof.
split; [lia|]. split; [lia|]. split; [lia|].
apply (file_names_differ 7 1234); lia.
Defined.





(** X21.  Generating and then searching: when the file system shows the
    files of the disk that [generate_test_files] leaves, each under its
    path with its content and listed for the pattern, then both searchers,
    run without a failing worker with every result collected and at least
    one worker, return under every keyword asked for each file that the
    distribution lists under it, for the keywords that have no white space
    inside and whose lower-cased form begins and ends with a word
    character. *)
Theorem search_finds_the_distribution
        (self : FileGenerator) (num_files : Z)
        (keywords_to_distribute : option (list string)) (d : disk) (g : rng) :
  stocked self ->
  exists dist d' g',
    generate_test_files self num_files keywords_to_distribute d g
      = Return (dist, d') g' /\
    forall (fs : FileSystem) (path : string -> string)
           (directory file_pattern : string) (keywords : list string)
           (sched : list (list string * nat) -> list (list string * nat))
           (channel : list Multiprocessing.result_data
                      -> list (option Multiprocessing.result_data))
           (th : Threading.ThreadingFileSearcher)
           (mp : Multiprocessing.MultiprocessingFileSearcher),
      dir_exists fs directory = true ->
      (forall f content,
         get d' f = Some content ->
         read_text fs (path f) = Some content /\
         In (path f) (glob fs directory file_pattern)) ->
      fair sched -> reliable channel ->
      (1 <= Threading.num_threads th)%Z -> (1 <= Multiprocessing.num_processes mp)%Z ->
      exists mt mm,
        Threading.returned
          (Threading.search_files fs no_faults sched th directory keywords file_pattern)
        = Ok mt /\
        Multiprocessing.returned
          (Multiprocessing.search_files fs no_faults channel mp directory keywords
                                        file_pattern)
        = Ok mm /\
        forall k files f,
          get dist k = Some files -> In f files -> In k keywords ->
          unbroken (of_string k) = true -> edged (lower (of_string k)) ->
          In (path f) (get_list mt k) /\ In (path f) (get_list mm k).
Proof.
intros Hs.
destruct (generate_test_files_returns self num_files keywords_to_distribute d g Hs)
  as (dist & d' & g' & extra & E & _ & _ & Hget & Hextra & _).
exists dist, d', g'. split; [exact E|].
intros fs path directory file_pattern keywords sched channel th mp D Hfs F R Ht Hp.
destruct (threading_returns fs no_faults sched th directory keywords file_pattern D
            ltac:(lia)) as [mt Hmt].
destruct (multiprocessing_returns fs no_faults channel mp directory keywords
            file_pattern D ltac:(lia)) as [mm Hmm].
exists mt, mm. split; [exact Hmt|]. split; [exact Hmm|].
intros k files f Hk Hf Hin Hu He. apply edged_lower in He.
rewrite Hget in Hk. destruct (existsb _ _); [|discriminate]. injection Hk as <-.
destruct (Hextra k f Hf) as (_ & i & Hi & -> & content & Hc & Hmem).
destruct (Hfs _ _ Hc) as [Hread Hglob].
assert (Hit : hit fs keywords k (path (file_name i)) = true).
{ apply hit_iff. split; [exact Hin|]. exists content. split; [exact Hread|].
  apply member_found; [|exact He]. now apply Hmem, unbroken_word_edged. }
destruct (threading_mapping _ _ _ _ _ _ _ F Hmt) as [_ Ht'].
destruct (multiprocessing_mapping _ _ _ _ _ _ _ R Hmm) as [_ Hp'].
rewrite (described_members _ _ Ht'), (described_members _ _ Hp').
rewrite !filter_In, !handed_all by assumption. tauto.
Qed.

Lemma search_finds_the_distribution_witness :
  stocked Sample.generator /\
  exists dist d' g',
    generate_test_files Sample.generator 3 None [] Sample.draws = Return (dist, d') g' /\
    forall (fs : FileSystem) (path : string -> string)
           (directory file_pattern : string) (keywords : list string)
           (sched : list (list string * nat) -> list (list string * nat))
           (channel : list Multiprocessing.result_data
                      -> list (option Multiprocessing.result_data))
           (th : Threading.ThreadingFileSearcher)
           (mp : Multiprocessing.MultiprocessingFileSearcher),
      dir_exists fs directory = true ->
      (forall f content,
         get d' f = Some content ->
         read_text fs (path f) = Some content /\
         In (path f) (glob fs directory file_pattern)) ->
      fair sched -> reliable channel ->
      (1 <= Threading.num_threads th)%Z -> (1 <= Multiprocessing.num_processes mp)%Z ->
      exists mt mm,
        Threading.returned
          (Threading.search_files fs no_faults sched th directory keywords file_pattern)
        = Ok mt /\
        Multiprocessing.returned
          (Multiprocessing.search_files fs no_faults channel mp directory keywords
                                        file_pattern)
        = Ok mm /\
        forall k files f,
          get dist k = Some files -> In f files -> In k keywords ->
          unbroken (of_string k) = true -> edged (lower (of_string k)) ->
          In (path f) (get_list mt k) /\ In (path f) (get_list mm k).
Proof.
split; [exact Sample.generator_stocked|].
exact (search_finds_the_distribution Sample.generator 3 None [] Sample.draws
         Sample.generator_stocked).
Defined.

(** X22.  When the keywords to distribute are all different,
    [generate_test_files] lists under every keyword the names of strictly
    increasing indices between 1 and [num_files], so no file twice. *)
Theorem distribution_lists_in_order
        (self : FileGenerator) (num_files : Z)
        (keywords_to_distribute : option (list string)) (d : disk) (g : rng) :
  stocked self -> NoDup (given keywords_to_distribute) ->
  exists dist d' g',
    generate_test_files self num_files keywords_to_distribute d g
      = Return (dist, d') g' /\
    forall k files,
      get dist k = Some files ->
      NoDup files /\
      exists indices,
        files = map file_name indices /\
        StronglySorted Z.lt indices /\
        Forall (fun i => 1 <= i <= num_files)%Z indices.
Proof.
intros Hs Hnd.
destruct (generate_test_files_returns self num_files keywords_to_distribute d g Hs)
  as (dist & d' & g' & extra & E & _ & _ & Hget & _ & times & Htimes & Hle).
exists dist, d', g'. split; [exact E|].
intros k files Hk. rewrite Hget in Hk.
destruct (existsb _ _); [|discriminate]. injection Hk as <-.
set (js := picks (fun i => times i k) (range_from 1 (num_files + 1))).
assert (Hone : forall i, times i k <= 1).
{ intros i. specialize (Hle i k).
  pose proof (proj1 (NoDup_count_occ string_dec _) Hnd k). lia. }
assert (Hsorted : StronglySorted Z.lt js)
  by (apply picks_sorted; [exact Hone|apply range_from_sorted]).
assert (Hrange : Forall (fun i => 1 <= i <= num_files)%Z js).
{ apply Forall_forall. intros j Hj. apply picks_in, range_from_in in Hj. lia. }
assert (Hnames : extra k = map file_name js)
  by (rewrite Htimes; symmetry; apply picks_names).
split.
- rewrite Hnames. apply Finite.Injective_map_NoDup_in; [|now apply sorted_nodup].
  intros x y Hx Hy. rewrite Forall_forall in Hrange.
  apply file_name_inj; [specialize (Hrange x Hx)|specialize (Hrange y Hy)]; lia.
- now exists js.
Qed.

Lemma distribution_lists_in_order_witness :
  stocked Sample.generator /\ NoDup (given None) /\
  exists dist d' g',
    generate_test_files Sample.generator 3 None [] Sample.draws = Return (dist, d') g' /\
    forall k files,
      get dist k = Some files ->
      NoDup files /\
      exists indices,
        files = map file_name indices /\
        StronglySorted Z.lt indices /\
        Forall (fun i => 1 <= i <= 3)%Z indices.
Proof.
split; [exact Sample.generator_stocked|]. split; [exact Sample.defaults_differ|].
exact (distribution_lists_in_order Sample.generator 3 None [] Sample.draws
         Sample.generator_stocked Sample.defaults_differ).
Defined.
